(** * Resilient invocation layer of rankenstein: a shallow embedding

    The development follows [src/services/webhook.ts]:

    - [isQuotaError]            the error classifier,
    - [withRetry]               exponential-backoff retry,
    - [withModelFallback]       primary / fallback model routing,
    - [extractJson]             extraction of a JSON candidate from model text,
    - [callWebhookTool]         the webhook call and its response normalizers,
    - [generateKeywordStrategy] the keyword-strategy flow.

    JavaScript values are modelled by [JsVal]; a JavaScript exception is the
    [Throw] constructor of [result].  Strings are [string]: every character
    stands for one UTF-16 code unit below 256.  Numbers are rationals ([Q]):
    they cover every finite JSON number; [NaN] and the infinities are not
    represented.  Calls to [console.warn] / [console.error] have no effect on
    any result and are left out. *)

From Stdlib Require Import Bool Arith ZArith QArith Lia List String Ascii.
From Stdlib Require Import Numbers.DecimalString.
Import ListNotations.

Local Open Scope string_scope.
Local Open Scope list_scope.
Set Warnings "-register-all".

(* ===================================================================== *)
(** ** JavaScript values                                                  *)
(* ===================================================================== *)

Inductive JsVal : Type :=
| JUndefined
| JNull
| JBool (b : bool)
| JNum (q : Q)
| JStr (s : string)
| JArr (items : list JsVal)
| JObj (fields : list (string * JsVal)).

(** Outcome of an expression or call: a value, or a thrown exception. *)
Inductive result (A : Type) : Type :=
| Ok (a : A)
| Throw (e : JsVal).
Arguments Ok {A} a.
Arguments Throw {A} e.

Definition bind {A B} (r : result A) (k : A -> result B) : result B :=
  match r with
  | Ok a => k a
  | Throw e => Throw e
  end.

Declare Scope js_scope.
Delimit Scope js_scope with js.
Notation "'let*' x ':=' c 'in' k" := (bind c (fun x => k))
  (at level 61, x pattern, c at next level, right associativity) : js_scope.
Local Open Scope js_scope.

(** [new Error(msg)]: only the [message] property is ever read back. *)
Definition Error (msg : string) : JsVal := JObj [("message", JStr msg)].

(** The engine's [TypeError].  Its message text is engine-defined; the V8
    wording is used.  No definition below branches on it. *)
Definition TypeError (msg : string) : JsVal := JObj [("message", JStr msg)].

Definition num (z : Z) : JsVal := JNum (inject_Z z).

(** ToBoolean. *)
Definition truthy (v : JsVal) : bool :=
  match v with
  | JUndefined | JNull => false
  | JBool b => b
  | JNum q => negb (Qeq_bool q 0)
  | JStr s => negb (s =? "")
  | JArr _ | JObj _ => true
  end.

(** [a || b] on already evaluated operands (used where evaluating [b]
    cannot throw). *)
Definition js_or (a b : JsVal) : JsVal := if truthy a then a else b.

Fixpoint lookup (name : string) (fields : list (string * JsVal)) : option JsVal :=
  match fields with
  | [] => None
  | (k, v) :: rest => if k =? name then Some v else lookup name rest
  end.

Definition typeof_is_string (v : JsVal) : bool :=
  match v with JStr _ => true | _ => false end.

Definition isArray (v : JsVal) : bool :=
  match v with JArr _ => true | _ => false end.

Definition show (v : JsVal) : string :=
  match v with JNull => "null" | _ => "undefined" end.

(** Property read [v.name] for the data properties the source reads.  On
    [null] and [undefined] it throws; on an object it is the field (or
    [undefined]); arrays and strings only have [length] among the names the
    source reads; numbers and booleans have none of them. *)
Definition get (v : JsVal) (name : string) : result JsVal :=
  match v with
  | JUndefined | JNull =>
      Throw (TypeError ("Cannot read properties of " ++ show v
                        ++ " (reading '" ++ name ++ "')"))
  | JObj fields =>
      Ok (match lookup name fields with Some x => x | None => JUndefined end)
  | JArr items =>
      Ok (if name =? "length" then num (Z.of_nat (List.length items)) else JUndefined)
  | JStr s =>
      Ok (if name =? "length" then num (Z.of_nat (String.length s)) else JUndefined)
  | JBool _ | JNum _ => Ok JUndefined
  end.

(** Optional chaining [v?.name]. *)
Definition get_opt (v : JsVal) (name : string) : JsVal :=
  match get v name with
  | Ok x => x
  | Throw _ => JUndefined
  end.

(** Strict equality against a number or a string literal. *)
Definition strict_eq_num (v : JsVal) (z : Z) : bool :=
  match v with JNum q => Qeq_bool q (inject_Z z) | _ => false end.

Definition strict_eq_str (v : JsVal) (s : string) : bool :=
  match v with JStr t => t =? s | _ => false end.

(* ===================================================================== *)
(** ** Strings                                                            *)
(* ===================================================================== *)

(** [hay.includes(needle)]. *)
Fixpoint includes (needle hay : string) : bool :=
  prefix needle hay ||
  match hay with
  | EmptyString => false
  | String _ rest => includes needle rest
  end.

(** [recv.includes(arg)] on an arbitrary receiver: substring test on a
    string, membership on an array, a [TypeError] on anything else (the
    property is missing, or is JSON data and not callable). *)
Definition call_includes (recv : JsVal) (arg : string) : result bool :=
  match recv with
  | JStr s => Ok (includes arg s)
  | JArr items => Ok (existsb (fun x => strict_eq_str x arg) items)
  | _ => Throw (TypeError "error.message.includes is not a function")
  end.

(* ===================================================================== *)
(** ** [isQuotaError]                                                     *)
(* ===================================================================== *)

(** The substrings tested on [error.message], in source order. *)
Definition quota_markers : list string :=
  [ "429"; "quota"; "RESOURCE_EXHAUSTED"; "Too Many Requests";
    "Rpc failed"; "xhr error"; "500"; "overloaded" ].

(** The chain [m.includes(a) || m.includes(b) || ...]: stops at the first
    hit; every call can throw. *)
Fixpoint includes_any (message : JsVal) (markers : list string) : result bool :=
  match markers with
  | [] => Ok false
  | m :: rest =>
      let* hit := call_includes message m in
      if hit then Ok true else includes_any message rest
  end.

Definition status_is_transient (status : JsVal) : bool :=
  strict_eq_num status 429 ||
  strict_eq_num status 503 ||
  strict_eq_num status 500 ||
  strict_eq_str status "RESOURCE_EXHAUSTED" ||
  strict_eq_str status "PERMISSION_DENIED".

(** The value of the [return] expression: [true] from the status tests,
    otherwise the value of [error.message && (...)], which is
    [error.message] itself when that is falsy. *)
Definition isQuotaError (error : JsVal) : result JsVal :=
  let* s := get error "status" in
  let* status := (if truthy s then Ok s else get error "code") in
  if status_is_transient status then Ok (JBool true)
  else
    let* message := get error "message" in
    if truthy message
    then let* hit := includes_any message quota_markers in Ok (JBool hit)
    else Ok message.

(** *** The statuses in the words of the specification *)

(** [v] is the number [z]. *)
Definition is_number (v : JsVal) (z : Z) : Prop :=
  exists q, v = JNum q /\ (q == inject_Z z)%Q.

(** Numeric status 429, 500 or 503, or symbolic status RESOURCE_EXHAUSTED
    or PERMISSION_DENIED. *)
Definition transient_status (s : JsVal) : Prop :=
  is_number s 429 \/ is_number s 500 \/ is_number s 503 \/
  s = JStr "RESOURCE_EXHAUSTED" \/ s = JStr "PERMISSION_DENIED".



Inductive ErrorKind : Type := Transient | Fatal.

(** How both callers read the classifier: [if (... isQuotaError(error))]. *)
Definition classify (error : JsVal) : result ErrorKind :=
  let* q := isQuotaError error in
  Ok (if truthy q then Transient else Fatal).

(* ===================================================================== *)
(** ** Effects: remote calls and timers                                   *)
(* ===================================================================== *)

(** Which closure parameter of [withModelFallback] is being called. *)
Inductive Role : Type := Primary | Fallback.

(** What a run leaves behind, in chronological order: calls of the task
    closures (with the model identifier they were bound to), completed
    [setTimeout] delays, and webhook queries (with their [keyword]). *)
Inductive Event : Type :=
| Invoked (role : Role) (model : string)
| Slept (ms : Z)
| Queried (keyword : JsVal).

(** The world an [async] function runs in: the state [S] of everything
    remote (which decides what each call answers), and the event log. *)
Record World (S : Type) : Type := mkWorld { remote : S; events : list Event }.
Arguments mkWorld {S} remote events.
Arguments remote {S} w.
Arguments events {S} w.

Definition log {S} (e : Event) (w : World S) : World S :=
  mkWorld (remote w) (events w ++ [e]).

(** An awaited promise: settles to a value or a rejection, and moves the
    world on. *)
Definition Action (S A : Type) : Type := World S -> result A * World S.

(** A remote operation proper: it sees and changes the remote state only,
    never the log. *)
Definition Remote (S A : Type) : Type := S -> result A * S.

Definition perform {S A} (op : Remote S A) : Action S A :=
  fun w => let (r, s') := op (remote w) in (r, mkWorld s' (events w)).

(** [await new Promise(resolve => setTimeout(resolve, ms))]. *)
Definition sleep {S} (ms : Z) (w : World S) : World S := log (Slept ms) w.

(* ===================================================================== *)
(** ** [withRetry]                                                        *)
(* ===================================================================== *)

(** The factor of [baseDelay * 2] in the recursive call. *)
Definition backoffFactor : Z := 2.

(** [retries] is a [nat]: every call site passes the literal 1 or 3, or
    takes the default 3; [retries > 0] is the successor case and
    [retries - 1] its predecessor.  Delays are integers of milliseconds.  When
    [isQuotaError] itself throws inside the [catch] block, that exception
    replaces the caught one. *)
Fixpoint withRetry {S A} (fn : Action S A) (retries : nat) (baseDelay : Z)
  : Action S A :=
  fun w =>
    match fn w with
    | (Ok v, w1) => (Ok v, w1)
    | (Throw error, w1) =>
        match retries with
        | O => (Throw error, w1)
        | Datatypes.S retries' =>
            match isQuotaError error with
            | Throw e => (Throw e, w1)
            | Ok q =>
                if truthy q
                then withRetry fn retries' (baseDelay * backoffFactor)
                       (sleep baseDelay w1)
                else (Throw error, w1)
            end
        end
    end.

(** The default parameters [retries = 3, baseDelay = 2000]. *)
Definition withRetry_default {S A} (fn : Action S A) : Action S A :=
  withRetry fn 3 2000.

(* ===================================================================== *)
(** ** [withModelFallback]                                                *)
(* ===================================================================== *)

Definition PRIMARY_MODEL : string := "gemini-3-pro-preview".
Definition FALLBACK_MODEL : string := "gemini-2.5-flash".

(** A task closure [(model: string) => Promise<T>]. *)
Definition Task (S A : Type) : Type := string -> Remote S A.

(** Calling the closure held by parameter [role] with [model]. *)
Definition invoke {S A} (role : Role) (f : Task S A) (model : string)
  : Action S A :=
  fun w => perform (f model) (log (Invoked role model) w).

(** [fallbackFn] is an optional parameter defaulting to [primaryFn]. *)
Definition withModelFallback {S A} (primaryFn : Task S A)
    (fallbackFn' : option (Task S A)) : Action S A :=
  let fallbackFn := match fallbackFn' with Some f => f | None => primaryFn end in
  fun w =>
    match withRetry (invoke Primary primaryFn PRIMARY_MODEL) 1 1000 w with
    | (Ok v, w1) => (Ok v, w1)
    | (Throw error, w1) =>
        match isQuotaError error with
        | Throw e => (Throw e, w1)
        | Ok q =>
            if truthy q
            then withRetry (invoke Fallback fallbackFn FALLBACK_MODEL) 3 2000 w1
            else (Throw error, w1)
        end
    end.

(* ===================================================================== *)
(** ** Strings and regular expressions of [extractJson]                   *)
(* ===================================================================== *)

(** ECMAScript white space and line terminators below code unit 256: TAB,
    LF, VT, FF, CR, SPACE and NBSP.  Both [\s] and [trim] use this set. *)
Definition is_space (c : ascii) : bool :=
  let n := nat_of_ascii c in
  ((9 <=? n)%nat && (n <=? 13)%nat) || (n =? 32)%nat || (n =? 160)%nat.

Fixpoint trimStart (s : string) : string :=
  match s with
  | EmptyString => EmptyString
  | String c rest => if is_space c then trimStart rest else s
  end.

Fixpoint trimEnd (s : string) : string :=
  match s with
  | EmptyString => EmptyString
  | String c rest =>
      match trimEnd rest with
      | EmptyString => if is_space c then EmptyString else String c EmptyString
      | rest' => String c rest'
      end
  end.

(** [s.trim()]. *)
Definition trim (s : string) : string := trimEnd (trimStart s).

(** The rest of [s] after the literal [lit], when [s] starts with it. *)
Fixpoint strip_prefix (lit s : string) : option string :=
  match lit, s with
  | EmptyString, _ => Some s
  | String a lit', String b s' => if Ascii.eqb a b then strip_prefix lit' s' else None
  | String _ _, EmptyString => None
  end.

(** The regular expressions the source uses: literals, character sets,
    greedy [*] and lazy [*?] over a character set, greedy [?], one capture
    group, [$] and concatenation. *)
Inductive Greed : Type := Greedy | Lazy.

Inductive Regex : Type :=
| RLit (lit : string)
| RSet (p : ascii -> bool)
| RStar (g : Greed) (p : ascii -> bool)
| ROpt (r : Regex)
| RGroup (r : Regex)
| REnd
| RSeq (r1 r2 : Regex).

(** A match in progress: the continuation gets the rest of the input and
    the capture of group 1, and answers with the final capture, or [None] to
    make the matcher backtrack. *)
Definition Cont : Type := string -> option string -> option (option string).

(** [p*] greedy: the longest run first, then shorter ones. *)
Fixpoint star_greedy (p : ascii -> bool) (s : string)
    (k : string -> option (option string)) : option (option string) :=
  match s with
  | String c rest =>
      if p c
      then match star_greedy p rest k with
           | Some m => Some m
           | None => k s
           end
      else k s
  | EmptyString => k s
  end.

(** [p*?] lazy: the shortest run first, then longer ones. *)
Fixpoint star_lazy (p : ascii -> bool) (s : string)
    (k : string -> option (option string)) : option (option string) :=
  match k s with
  | Some m => Some m
  | None =>
      match s with
      | String c rest => if p c then star_lazy p rest k else None
      | EmptyString => None
      end
  end.

(** The part of [s] consumed when [rest] is what is left of it. *)
Definition consumed (s rest : string) : string :=
  substring 0 (String.length s - String.length rest) s.

(** Backtracking matcher, anchored at the start of [s]. *)
Fixpoint rmatch (r : Regex) (s : string) (cap : option string) (k : Cont)
  : option (option string) :=
  match r with
  | RLit lit =>
      match strip_prefix lit s with
      | Some rest => k rest cap
      | None => None
      end
  | RSet p =>
      match s with
      | String c rest => if p c then k rest cap else None
      | EmptyString => None
      end
  | RStar Greedy p => star_greedy p s (fun rest => k rest cap)
  | RStar Lazy p => star_lazy p s (fun rest => k rest cap)
  | ROpt r1 =>
      match rmatch r1 s cap k with
      | Some m => Some m
      | None => k s cap
      end
  | RGroup r1 => rmatch r1 s cap (fun rest _ => k rest (Some (consumed s rest)))
  | REnd =>
      match s with
      | EmptyString => k s cap
      | String _ _ => None
      end
  | RSeq r1 r2 => rmatch r1 s cap (fun rest cap' => rmatch r2 rest cap' k)
  end.

Definition match_at (r : Regex) (s : string) : option (option string) :=
  rmatch r s None (fun _ cap => Some cap).

(** The leftmost match: start positions are tried from left to right, the
    empty suffix included.  The answer is the start index and group 1. *)
Fixpoint exec_from (r : Regex) (s : string) (i : nat) : option (nat * option string) :=
  match match_at r s with
  | Some cap => Some (i, cap)
  | None =>
      match s with
      | String _ rest => exec_from r rest (S i)
      | EmptyString => None
      end
  end.

(** [text.match(r)] for a regex without the [g] flag: [None] is [null],
    otherwise group 1. *)
Definition js_match (r : Regex) (text : string) : option (option string) :=
  option_map snd (exec_from r text 0).

(** [text.search(r)]: the index of the leftmost match, or -1. *)
Definition js_search (r : Regex) (text : string) : Z :=
  match exec_from r text 0 with
  | Some (i, _) => Z.of_nat i
  | None => (-1)%Z
  end.

(** [text.lastIndexOf(c)] for a one-character string [c]. *)
Fixpoint lastIndexOf (c : ascii) (s : string) : Z :=
  match s with
  | EmptyString => (-1)%Z
  | String c' rest =>
      let j := lastIndexOf c rest in
      if (j =? -1)%Z then (if Ascii.eqb c' c then 0%Z else (-1)%Z) else (j + 1)%Z
  end.

(** [text.substring(a, b)]: both indices are clamped to [0, length]; when
    [a > b] they are swapped. *)
Definition js_substring (a b : Z) (s : string) : string :=
  let len := Z.of_nat (String.length s) in
  let a' := Z.max 0 (Z.min a len) in
  let b' := Z.max 0 (Z.min b len) in
  let lo := Z.min a' b' in
  let hi := Z.max a' b' in
  substring (Z.to_nat lo) (Z.to_nat (hi - lo)) s.

(** [text[i] === c] for a one-character string [c]. *)
Definition char_at_is (text : string) (i : Z) (c : ascii) : bool :=
  match String.get (Z.to_nat i) text with
  | Some c' => (0 <=? i)%Z && Ascii.eqb c' c
  | None => false
  end.

Definition any_char (c : ascii) : bool := true.
Definition is_open (c : ascii) : bool := Ascii.eqb c "{" || Ascii.eqb c "[".
Definition is_close (c : ascii) : bool := Ascii.eqb c "}" || Ascii.eqb c "]".

Definition fence : string := "```".

(** [/```(?:json)?\s*([\s\S]*?)\s*```/] *)
Definition fence_regex : Regex :=
  RSeq (RLit fence)
    (RSeq (ROpt (RLit "json"))
       (RSeq (RStar Greedy is_space)
          (RSeq (RGroup (RStar Lazy any_char))
             (RSeq (RStar Greedy is_space) (RLit fence))))).

(** [/[{\[]/] and [/[}\]]$/] *)
Definition open_regex : Regex := RSet is_open.
Definition close_at_end_regex : Regex := RSeq (RSet is_close) REnd.

(* ===================================================================== *)
(** ** [extractJson]                                                      *)
(* ===================================================================== *)

(** Every operation used is total on strings, so the function is a plain
    [string -> string].  [lastClose] is computed and never used, as in the
    source.  Group 1 takes part in every match of [fence_regex]; the
    [Some None] case is therefore never reached. *)
Definition extractJson (text : string) : string :=
  match js_match fence_regex text with
  | Some (Some group1) => trim group1
  | Some None => trim EmptyString
  | None =>
      let firstOpen := js_search open_regex text in
      let lastClose := js_search close_at_end_regex text in
      let fallthrough := trim text in
      if negb (firstOpen =? -1)%Z
      then
        let closer :=
          if char_at_is text firstOpen "{" then "}"%char else "]"%char in
        let lastIndex := lastIndexOf closer text in
        if negb (lastIndex =? -1)%Z
        then js_substring firstOpen (lastIndex + 1) text
        else fallthrough
      else fallthrough
  end.

(** *** The algorithm in the words of the specification *)

(** The index of the first occurrence of [needle] in [hay]. *)
Fixpoint indexOf (needle hay : string) : option nat :=
  if prefix needle hay then Some 0%nat
  else match hay with
       | EmptyString => None
       | String _ rest => option_map S (indexOf needle rest)
       end.

Fixpoint drop (n : nat) (s : string) : string :=
  match n, s with
  | O, _ => s
  | S n', String _ rest => drop n' rest
  | S _, EmptyString => EmptyString
  end.

Definition take (n : nat) (s : string) : string := substring 0 n s.

(** The interior of the first fenced block: what lies between the first
    triple-backtick marker, with the tag [json] right after it skipped when
    it is there, and the next triple-backtick marker. *)
Definition fence_interior (text : string) : option string :=
  match indexOf fence text with
  | None => None
  | Some i =>
      let after := drop (i + 3) text in
      let body := match strip_prefix "json" after with
                  | Some rest => rest
                  | None => after
                  end in
      match indexOf fence body with
      | None => None
      | Some j => Some (take j body)
      end
  end.

(** The index of the first character satisfying [p], with that character. *)
Fixpoint find_first (p : ascii -> bool) (s : string) : option (nat * ascii) :=
  match s with
  | EmptyString => None
  | String c rest =>
      if p c then Some (0%nat, c)
      else option_map (fun ic => (S (fst ic), snd ic)) (find_first p rest)
  end.

(** The index of the last occurrence of [c]. *)
Fixpoint find_last (c : ascii) (s : string) : option nat :=
  match s with
  | EmptyString => None
  | String c' rest =>
      match find_last c rest with
      | Some j => Some (S j)
      | None => if Ascii.eqb c' c then Some 0%nat else None
      end
  end.

Definition closer_of (c : ascii) : ascii :=
  if Ascii.eqb c "{" then "}"%char else "]"%char.

(** *** Auxiliary functions of the proofs *)

Fixpoint all_space (s : string) : bool :=
  match s with
  | EmptyString => true
  | String c rest => is_space c && all_space rest
  end.

(** [fence_regex] after the opening fence and the optional tag, with the
    matcher unfolded. *)
Definition fence_tail (t : string) : option (option string) :=
  star_greedy is_space t (fun t1 =>
    star_lazy any_char t1 (fun t2 =>
      star_greedy is_space t2 (fun t3 =>
        match strip_prefix fence t3 with
        | Some _ => Some (Some (consumed t1 t2))
        | None => None
        end))).

(** What group 1 of [fence_regex] captures when it starts at [t]: the
    shortest prefix of [t] after which only white space precedes a fence. *)
Fixpoint until_fence (t : string) : option string :=
  match strip_prefix fence (trimStart t) with
  | Some _ => Some EmptyString
  | None =>
      match t with
      | String c rest => option_map (String c) (until_fence rest)
      | EmptyString => None
      end
  end.

(* ===================================================================== *)
(** ** The host environment                                               *)
(* ===================================================================== *)

(** Built-ins of the JavaScript engine that the source calls and that are
    taken as given: [JSON.parse] (which throws on malformed text),
    [JSON.stringify], Unicode upper-casing, and the decimal rendering of a
    number. *)
Record Host : Type := mkHost {
  JSON_parse : string -> result JsVal;
  JSON_stringify : JsVal -> string;
  toUpperCase : string -> string;
  number_toString : Q -> string
}.

Fixpoint join (sep : string) (parts : list string) : string :=
  match parts with
  | [] => EmptyString
  | [p] => p
  | p :: rest => p ++ sep ++ join sep rest
  end.

(** ToString, as in a template literal or [Array.prototype.join]. *)
Fixpoint to_string (h : Host) (v : JsVal) : string :=
  match v with
  | JUndefined => "undefined"
  | JNull => "null"
  | JBool true => "true"
  | JBool false => "false"
  | JNum q => number_toString h q
  | JStr s => s
  | JArr items =>
      join "," (map (fun x => match x with
                              | JUndefined | JNull => EmptyString
                              | _ => to_string h x
                              end) items)
  | JObj _ => "[object Object]"
  end.

(** [items.join(sep)]. *)
Definition array_join (h : Host) (sep : string) (items : list JsVal) : string :=
  join sep (map (fun x => match x with
                          | JUndefined | JNull => EmptyString
                          | _ => to_string h x
                          end) items).

(** The decimal numeral of an integer (an HTTP status). *)
Definition decimal (z : Z) : string := NilEmpty.string_of_int (Z.to_int z).

(** [s.split(sep)] for a one-character separator. *)
Fixpoint split_on (sep : ascii) (s : string) : list string :=
  match s with
  | EmptyString => [EmptyString]
  | String c rest =>
      if Ascii.eqb c sep then EmptyString :: split_on sep rest
      else match split_on sep rest with
           | part :: parts => String c part :: parts
           | [] => [String c EmptyString]
           end
  end.

Fixpoint map_chars (f : ascii -> ascii) (s : string) : string :=
  match s with
  | EmptyString => EmptyString
  | String c rest => String (f c) (map_chars f rest)
  end.

(** [items.map(f)] with a callback that can throw: the first exception
    ends the loop. *)
Fixpoint map_result {A B} (f : A -> result B) (items : list A) : result (list B) :=
  match items with
  | [] => Ok []
  | x :: rest =>
      let* y := f x in
      let* ys := map_result f rest in
      Ok (y :: ys)
  end.

(* ===================================================================== *)
(** ** [callWebhookTool]                                                  *)
(* ===================================================================== *)

Definition WEBHOOK_URL : string :=
  "https://agrici.app.n8n.cloud/webhook/mini-rankenstein-v9-tools".

Inductive WebhookFunction : Type :=
| url_map | url_scrape | page_ranked_keywords | suggested_keywords.

Definition function_name (func : WebhookFunction) : string :=
  match func with
  | url_map => "url_map"
  | url_scrape => "url_scrape"
  | page_ranked_keywords => "page_ranked_keywords"
  | suggested_keywords => "suggested_keywords"
  end.

(** What [fetch] resolved to: [response.ok], [response.status] and the body
    read by [response.text()]. *)
Record Response : Type := mkResponse {
  ok : bool;
  status : Z;
  body : string
}.

(** *** [url_map] *)

Definition is_dash (c : ascii) : bool := Ascii.eqb c "-" || Ascii.eqb c "_".
Definition not_slash_dot (c : ascii) : bool :=
  negb (Ascii.eqb c "/" || Ascii.eqb c ".").

(** [/\.[^/.]+$/] *)
Definition extension_regex : Regex :=
  RSeq (RLit ".") (RSeq (RSet not_slash_dot)
                     (RSeq (RStar Greedy not_slash_dot) REnd)).

(** [s.replace(/\.[^/.]+$/, "")]: the match, if any, runs to the end. *)
Definition strip_extension (s : string) : string :=
  match exec_from extension_regex s 0 with
  | Some (i, _) => substring 0 i s
  | None => s
  end.

(** [word.charAt(0).toUpperCase() + word.slice(1)] *)
Definition capitalize (h : Host) (word : string) : string :=
  toUpperCase h (substring 0 1 word) ++ drop 1 word.

(** The title made from the last path segment of [url]. *)
Definition generatedTitle (h : Host) (url : string) : string :=
  let segments := filter (fun p => negb (p =? "")) (split_on "/" url) in
  let path := last segments EmptyString in
  let spaced := map_chars (fun c => if is_dash c then " "%char else c) path in
  join " " (map (capitalize h) (split_on " " (strip_extension spaced))).

(** The callback of [links.map]; [None] is the [null] that the following
    [filter] drops. *)
Definition url_map_item (h : Host) (item : JsVal) : result (option JsVal) :=
  if negb (truthy item) then Ok None
  else
    let* item_url := get item "url" in
    let* item_loc := get item "loc" in
    if negb (typeof_is_string item_url) && negb (typeof_is_string item_loc)
    then Ok None
    else
      let url := js_or item_url item_loc in
      let* title := get item "title" in
      if negb (truthy title) || negb (typeof_is_string title)
      then
        match url with
        | JStr u =>
            let generated := generatedTitle h u in
            Ok (Some (JObj [("url", url);
                            ("title", js_or (JStr generated) url)]))
        | JUndefined | JNull =>
            Throw (TypeError ("Cannot read properties of " ++ show url
                              ++ " (reading 'split')"))
        | _ => Throw (TypeError "url.split is not a function")
        end
      else Ok (Some (JObj [("url", url); ("title", title)])).

Fixpoint somes {A} (l : list (option A)) : list A :=
  match l with
  | [] => []
  | Some x :: rest => x :: somes rest
  | None :: rest => somes rest
  end.

Definition normalize_url_map (h : Host) (data : JsVal) : result JsVal :=
  match get_opt data "internal_links" with
  | JArr links =>
      let* mapped := map_result (url_map_item h) links in
      Ok (JArr (somes mapped))
  | _ => Ok (JArr [])
  end.

(** *** [page_ranked_keywords] *)

(** [kw.name || fallback] *)
Definition field_or (kw : JsVal) (name : string) (fallback : JsVal) : result JsVal :=
  let* v := get kw name in Ok (js_or v fallback).

(** The callback of [keywords.map]: one [RankedKeyword] record. *)
Definition ranked_keyword (kw : JsVal) : result JsVal :=
  let* upper := get kw "Keyword" in
  let* keyword := (if truthy upper then Ok upper
                   else let* lower := get kw "keyword" in
                        Ok (js_or lower (JStr ""))) in
  let* competition := field_or kw "competition_score" (num 0) in
  let* competition_level := field_or kw "competition_level" (JStr "UNKNOWN") in
  let* cpc := field_or kw "cpc" (num 0) in
  let* search_volume := field_or kw "search_volume" (num 0) in
  let* difficulty := field_or kw "keyword_difficulty" (num 0) in
  let* intent := field_or kw "intent" (JStr "unknown") in
  Ok (JObj [("keyword", keyword);
            ("competition", competition);
            ("competition_level", competition_level);
            ("cpc", cpc);
            ("search_volume", search_volume);
            ("difficulty", difficulty);
            ("intent", intent)]).

(** [data?.name || (Array.isArray(data) ? data : [])] *)
Definition nested_or_direct (data : JsVal) (name : string) : JsVal :=
  js_or (get_opt data name) (if isArray data then data else JArr []).

Definition normalize_page_ranked_keywords (data : JsVal) : result JsVal :=
  match nested_or_direct data "ranked_keywords" with
  | JArr keywords =>
      let* records := map_result ranked_keyword keywords in
      Ok (JArr records)
  | _ => Ok (JArr [])
  end.

(** *** [suggested_keywords] *)

(** [kw => kw.Keyword || kw.keyword || kw] *)
Definition suggestion (kw : JsVal) : result JsVal :=
  let* upper := get kw "Keyword" in
  if truthy upper then Ok upper
  else let* lower := get kw "keyword" in Ok (js_or lower kw).

Definition normalize_suggested_keywords (data : JsVal) : result JsVal :=
  let related := if truthy data then get_opt data "related_keyword" else JUndefined in
  match related with
  | JArr related_keyword =>
      let* mapped := map_result (fun kw => get kw "keyword") related_keyword in
      Ok (JArr (filter truthy mapped))
  | _ =>
      match nested_or_direct data "suggested_keywords" with
      | JArr keywords =>
          let* mapped := map_result suggestion keywords in
          Ok (JArr (filter truthy mapped))
      | _ => Ok (JArr [])
      end
  end.

(** *** The whole function *)

(** [Array.isArray(responseData) && responseData.length > 0
     ? responseData[0] : responseData] *)
Definition first_element (responseData : JsVal) : JsVal :=
  match responseData with
  | JArr (first :: _) => first
  | _ => responseData
  end.

(** Shape detection and normalization of the unwrapped [data]. *)
Definition normalizeData (h : Host) (func : WebhookFunction)
    (data responseData : JsVal) : result JsVal :=
  match func with
  | url_map => normalize_url_map h data
  | page_ranked_keywords => normalize_page_ranked_keywords data
  | suggested_keywords => normalize_suggested_keywords data
  | url_scrape => Ok responseData
  end.

(** From the parsed body on. *)
Definition normalizeResponse (h : Host) (func : WebhookFunction)
    (responseData : JsVal) : result JsVal :=
  normalizeData h func (first_element responseData) responseData.

(** The value returned when there is nothing to normalize. *)
Definition empty_result (func : WebhookFunction) : JsVal :=
  match func with
  | url_map | page_ranked_keywords => JArr []
  | _ => JNull
  end.

(** The body of the outer [try]. *)
Definition callWebhookTool_try (h : Host) (func : WebhookFunction)
    (fetched : result Response) : result JsVal :=
  let* response := fetched in
  if negb (ok response)
  then
    (* whatever the inner [try] throws, its [catch] throws this instead *)
    Throw (Error ("Webhook request failed with status " ++ decimal (status response)
                  ++ ": " ++ body response))
  else
    let responseText := body response in
    if responseText =? "" then Ok (empty_result func)
    else
      let* responseData := JSON_parse h responseText in
      normalizeResponse h func responseData.

(** [fetched] is what [await fetch(WEBHOOK_URL, ...)] settled to; the
    request only matters through it. *)
Definition callWebhookTool (h : Host) (func : WebhookFunction)
    (fetched : result Response) : result JsVal :=
  if (WEBHOOK_URL =? "YOUR-WEBHOOK-URL") || (WEBHOOK_URL =? "")
  then Ok (empty_result func)
  else
    match callWebhookTool_try h func fetched with
    | Ok v => Ok v
    | Throw error =>
        let* message := get error "message" in
        Throw (Error ("Failed to get data from custom tool: " ++ function_name func
                      ++ ". " ++ to_string h message))
    end.

(** *** Example texts (used in statements) *)

Definition nl : string := String (ascii_of_nat 10) EmptyString.
Definition dq : string := String (ascii_of_nat 34) EmptyString.

(** [prefix {"a":1} suffix] and [{"a":1}] *)
Definition bare_json_text : string := "prefix {" ++ dq ++ "a" ++ dq ++ ":1} suffix".
Definition bare_json : string := "{" ++ dq ++ "a" ++ dq ++ ":1}".

(** [Here:\n```json\n[1,2,3]\n```\n] *)
Definition fenced_text : string :=
  "Here:" ++ nl ++ "```json" ++ nl ++ "[1,2,3]" ++ nl ++ "```" ++ nl.

(** *** The normalizers in the words of the specification *)

(** A value with readable properties: anything but [null] and [undefined]. *)
Definition nullish (v : JsVal) : bool :=
  match v with JUndefined | JNull => true | _ => false end.

(** The first variant, in the order of [names], that carries a truthy
    value; [fallback] when none does. *)
Fixpoint pick (kw : JsVal) (names : list string) (fallback : JsVal) : JsVal :=
  match names with
  | [] => fallback
  | name :: rest =>
      let v := get_opt kw name in
      if truthy v then v else pick kw rest fallback
  end.

(** The canonical record of one upstream ranked-keyword entry. *)
Definition canonical_ranked_keyword (kw : JsVal) : JsVal :=
  JObj [("keyword", pick kw ["Keyword"; "keyword"] (JStr ""));
        ("competition", pick kw ["competition_score"] (num 0));
        ("competition_level", pick kw ["competition_level"] (JStr "UNKNOWN"));
        ("cpc", pick kw ["cpc"] (num 0));
        ("search_volume", pick kw ["search_volume"] (num 0));
        ("difficulty", pick kw ["keyword_difficulty"] (num 0));
        ("intent", pick kw ["intent"] (JStr "unknown"))].

(** A host for worked examples: [JSON.parse] knows the texts of [table]
    and rejects every other text. *)
Definition table_host (table : list (string * JsVal)) : Host :=
  mkHost (fun text => match lookup text table with
                      | Some v => Ok v
                      | None => Throw (Error "Unexpected token")
                      end)
         (fun _ => "null") (fun s => s) (fun _ => "0").

(** Two upstream collections. *)
Definition mixed_collection : JsVal :=
  JArr [JObj [("Keyword", JStr "SEO"); ("keyword", JStr "seo")]].
Definition seo_collection : JsVal := JArr [JObj [("keyword", JStr "seo")]].

(** [{"ranked_keywords":[null]}] *)
Definition null_entry_body : string :=
  "{" ++ dq ++ "ranked_keywords" ++ dq ++ ":[null]}".
Definition null_entry_value : JsVal := JObj [("ranked_keywords", JArr [JNull])].

(* ===================================================================== *)
(** ** [generateKeywordStrategy]                                          *)
(* ===================================================================== *)

(** The two template literals.  Their wording is content sent to the
    model, not logic; they are functions of the values interpolated. *)
Record Prompts : Type := mkPrompts {
  seedPrompt : string -> string;
  (* topic, [seeds.join(', ')], the JSON of the suggestions, the JSON of the
     existing rankings *)
  selectionPrompt : string -> string -> string -> string -> string
}.

(** [ai.models.generateContent({model, contents, ...})] followed by
    [.text]: the model identifier and the prompt go out, the text of the
    response (a string, or [undefined]) comes back, or the call rejects. *)
Definition GenerateContent (S : Type) : Type := string -> string -> Remote S JsVal.

(** The parameter [callWebhook], applied to ['suggested_keywords'] and
    [{ keyword }]. *)
Definition CallWebhook (S : Type) : Type := JsVal -> Remote S JsVal.

(** [JSON.parse(extractJson(text))]; [extractJson] calls [text.match], which
    throws unless [text] is a string. *)
Definition parse_model_json (h : Host) (text : JsVal) : result JsVal :=
  match text with
  | JStr t => JSON_parse h (extractJson t)
  | _ => Throw (TypeError ("Cannot read properties of " ++ show text
                           ++ " (reading 'match')"))
  end.

(** [topic.split(' ').slice(0, 2).join(' ')] *)
Definition fallback_seed (topic : string) : string :=
  join " " (firstn 2 (split_on " " topic)).

(** [limitedSeeds.map(seed => callWebhook(...).catch(err => []))] awaited
    by [Promise.all]: the calls are issued in the order of the seeds; a
    rejected call counts as the empty array.  Each call is taken as one
    step on the remote state; how the pending calls interleave is not
    modelled. *)
Fixpoint query_seeds {S} (callWebhook : CallWebhook S) (seeds : list JsVal)
    (w : World S) : list JsVal * World S :=
  match seeds with
  | [] => ([], w)
  | seed :: rest =>
      let (r, w1) := perform (callWebhook seed) (log (Queried seed) w) in
      let suggestions := match r with Ok v => v | Throw _ => JArr [] end in
      let (others, w2) := query_seeds callWebhook rest w1 in
      (suggestions :: others, w2)
  end.

(** [results.flat()] *)
Definition flat (results : list JsVal) : list JsVal :=
  flat_map (fun r => match r with JArr items => items | _ => [r] end) results.

(** The body of the outer [try].  A [seeds] value that is no array throws a
    [TypeError] before any webhook call: at [seeds.length] ([null]), at
    [seeds.slice(0, 3).map] (a non-empty string), at [seeds.slice] (an
    object with a positive [length]), or else at [seeds.join]. *)
Definition generateKeywordStrategy_try {S} (h : Host) (p : Prompts)
    (generateContent : GenerateContent S) (callWebhook : CallWebhook S)
    (topic : string) (rankedKeywords : list JsVal) : Action S JsVal :=
  fun w =>
    match perform (generateContent "gemini-2.5-flash" (seedPrompt p topic)) w with
    | (Throw e, w1) => (Throw e, w1)
    | (Ok seedText, w1) =>
        let seeds :=
          match parse_model_json h seedText with
          | Ok v => v
          | Throw _ => JArr [JStr (fallback_seed topic)]
          end in
        match seeds with
        | JArr items =>
            let (results, w2) :=
              match items with
              | [] => ([], w1)
              | _ :: _ => query_seeds callWebhook (firstn 3 items) w1
              end in
            let allSuggestions := flat results in
            match map_result (fun k => get k "keyword") rankedKeywords with
            | Throw e => (Throw e, w2)
            | Ok ranked =>
                let prompt :=
                  selectionPrompt p topic (array_join h ", " items)
                    (JSON_stringify h (JArr (firstn 50 allSuggestions)))
                    (JSON_stringify h (JArr (firstn 20 ranked))) in
                match perform (generateContent "gemini-2.5-flash" prompt) w2 with
                | (Throw e, w3) => (Throw e, w3)
                | (Ok text, w3) => (parse_model_json h text, w3)
                end
            end
        | _ => (Throw (TypeError "seeds is not an array"), w1)
        end
    end.

Definition strategy_failure : JsVal := Error "Failed to generate a keyword strategy.".

(** The function passed to [withRetry]: the outer [catch] replaces every
    exception by [strategy_failure]. *)
Definition generateKeywordStrategy_fn {S} (h : Host) (p : Prompts)
    (generateContent : GenerateContent S) (callWebhook : CallWebhook S)
    (topic : string) (rankedKeywords : list JsVal) : Action S JsVal :=
  fun w =>
    match generateKeywordStrategy_try h p generateContent callWebhook
            topic rankedKeywords w with
    | (Ok v, w1) => (Ok v, w1)
    | (Throw _, w1) => (Throw strategy_failure, w1)
    end.

Definition generateKeywordStrategy {S} (h : Host) (p : Prompts)
    (generateContent : GenerateContent S) (callWebhook : CallWebhook S)
    (topic : string) (rankedKeywords : list JsVal) : Action S JsVal :=
  withRetry_default
    (generateKeywordStrategy_fn h p generateContent callWebhook topic rankedKeywords).

(** *** Observations on a run (used in statements) *)

(** The delays slept, in order. *)
Definition sleeps (evs : list Event) : list Z :=
  flat_map (fun e => match e with Slept ms => [ms] | _ => [] end) evs.

(** The model identifiers the closure of parameter [role] was called with. *)
Definition calls_of (role : Role) (evs : list Event) : list string :=
  flat_map (fun e => match e, role with
                     | Invoked Primary m, Primary => [m]
                     | Invoked Fallback m, Fallback => [m]
                     | _, _ => []
                     end) evs.

(** An action that sets no timer of its own. *)
Definition timerless {S A} (fn : Action S A) : Prop :=
  forall w, sleeps (events (snd (fn w))) = sleeps (events w).

(** An action every attempt of which is rejected with a Transient error. *)
Definition always_transient {S A} (fn : Action S A) : Prop :=
  forall w, exists error w1, fn w = (Throw error, w1) /\ classify error = Ok Transient.

(** The keywords the webhook was queried with, in order. *)
Definition queried (evs : list Event) : list JsVal :=
  flat_map (fun e => match e with Queried k => [k] | _ => [] end) evs.

(** The webhook with every failure replaced by an empty suggestion list. *)
Definition absorbing {S} (callWebhook : CallWebhook S) : CallWebhook S :=
  fun seed s =>
    match callWebhook seed s with
    | (Throw _, s1) => (Ok (JArr []), s1)
    | answer => answer
    end.

Fixpoint no_space (s : string) : bool :=
  match s with
  | EmptyString => true
  | String c rest => negb (Ascii.eqb c " ") && no_space rest
  end.

(** *** Example tasks (used to instantiate statements) *)

(** A task on a service that is overloaded at every call. *)
Definition overloaded_service : Action unit JsVal :=
  perform (fun s => (Throw (JObj [("status", num 503)]), s)).

(** A task that is overloaded on the primary model and answers on any
    other; the remote state counts the calls. *)
Definition primary_overloaded : Task nat JsVal :=
  fun model calls =>
    if model =? PRIMARY_MODEL
    then (Throw (JObj [("status", num 503)]), Datatypes.S calls)
    else (Ok (JStr ("draft by " ++ model)), Datatypes.S calls).

(** A task the primary model rejects for good. *)
Definition primary_rejects : Task nat JsVal :=
  fun model calls =>
    (Throw (JObj [("status", num 400); ("message", JStr "Invalid argument")]),
     Datatypes.S calls).

(** A model that answers nothing parseable, and a webhook that is down. *)
Definition mute_model : GenerateContent unit :=
  fun model prompt s => (Ok (JStr "I cannot help with that."), s).
Definition webhook_down : CallWebhook unit :=
  fun seed s => (Throw (Error "Failed to get data from custom tool"), s).
Definition plain_prompts : Prompts :=
  mkPrompts (fun topic => topic) (fun topic seeds suggestions rankings => topic).

(** A model that answers ["seeds"] to its first call and ["final"] to the
    following ones, a host that parses these two texts, and a webhook whose
    third call (remote state 2) fails. *)
Definition scripted_model : GenerateContent nat :=
  fun model prompt calls =>
    (Ok (JStr (if (calls =? 0)%nat then "seeds" else "final")), Datatypes.S calls).
Definition scripted_host : Host :=
  table_host [("seeds", JArr [JStr "a"; JStr "b"; JStr "c"; JStr "d"]);
              ("final", JArr [JStr "k1"])].
Definition flaky_webhook : CallWebhook nat :=
  fun seed calls =>
    if (calls =? 2)%nat then (Throw (Error "Failed to get data from custom tool"),
                              Datatypes.S calls)
    else (Ok (JArr [seed]), Datatypes.S calls).

(* ===================================================================== *)
(** * Further embedding: the rest of the invocation layer                 *)
(* ===================================================================== *)

(** ** Runs of [withRetry] *)

(** The log one [withRetry] call leaves over a task closure that it
    retried [k] times: [k + 1] calls with [k] delays in between. *)
Fixpoint retry_trace (role : Role) (model : string) (baseDelay : Z) (k : nat)
  : list Event :=
  match k with
  | O => [Invoked role model]
  | Datatypes.S k' =>
      Invoked role model :: Slept baseDelay ::
      retry_trace role model (baseDelay * backoffFactor) k'
  end.

(** [transient_run op k s s']: started in remote state [s], the operation
    fails [k] times in a row with a Transient error and leaves the remote
    state [s']. *)
Inductive transient_run {S A} (op : Remote S A) : nat -> S -> S -> Prop :=
| transient_done (s : S) : transient_run op 0 s s
| transient_step (k : nat) (s s1 s2 : S) (error : JsVal) :
    op s = (Throw error, s1) ->
    classify error = Ok Transient ->
    transient_run op k s1 s2 ->
    transient_run op (Datatypes.S k) s s2.

(** An outcome [withRetry] does not retry: a value, or a Fatal error. *)
Definition settles {A} (r : result A) : Prop :=
  match r with
  | Ok _ => True
  | Throw error => classify error = Ok Fatal
  end.

Definition total (delays : list Z) : Z := fold_right Z.add 0%Z delays.

(** A task that fails twice with status 503 and then answers. *)
Definition third_time_lucky : Task nat JsVal :=
  fun model calls =>
    if (calls <? 2)%nat
    then (Throw (JObj [("status", num 503)]), Datatypes.S calls)
    else (Ok (JStr "done"), Datatypes.S calls).

(** A task that rejects with [null]. *)
Definition rejects_with_null : Action unit JsVal :=
  perform (fun s => (Throw JNull, s)).

(** ** The generation operations *)

(** [try { body } catch (error) { throw new Error(msg) }] *)
Definition relabel {S A} (msg : string) (body : Action S A) : Action S A :=
  fun w =>
    match body w with
    | (Ok v, w1) => (Ok v, w1)
    | (Throw _, w1) => (Throw (Error msg), w1)
    end.

(** [await ai.models.generateContent(...)] followed by
    [JSON.parse(extractJson(response.text))]. *)
Definition ask_json {S} (h : Host) (generateContent : GenerateContent S)
    (model prompt : string) : Action S JsVal :=
  fun w =>
    match perform (generateContent model prompt) w with
    | (Throw e, w1) => (Throw e, w1)
    | (Ok text, w1) => (parse_model_json h text, w1)
    end.

(** ... followed by [JSON.parse(response.text)]: [JSON.parse] converts its
    argument to a string first. *)
Definition ask_json_strict {S} (h : Host) (generateContent : GenerateContent S)
    (model prompt : string) : Action S JsVal :=
  fun w =>
    match perform (generateContent model prompt) w with
    | (Throw e, w1) => (Throw e, w1)
    | (Ok text, w1) => (JSON_parse h (to_string h text), w1)
    end.

(** [text.trim()] on what should be a string. *)
Definition call_trim (text : JsVal) : result string :=
  match text with
  | JStr t => Ok (trim t)
  | JUndefined | JNull =>
      Throw (TypeError ("Cannot read properties of " ++ show text
                        ++ " (reading 'trim')"))
  | _ => Throw (TypeError "response.text.trim is not a function")
  end.

(** ... followed by [response.text.trim()]. *)
Definition ask_text {S} (generateContent : GenerateContent S)
    (model prompt : string) : Action S JsVal :=
  fun w =>
    match perform (generateContent model prompt) w with
    | (Throw e, w1) => (Throw e, w1)
    | (Ok text, w1) =>
        (match call_trim text with Ok t => Ok (JStr t) | Throw e => Throw e end, w1)
    end.

(** In each operation below [prompt] is the template literal of the source
    applied to the operation's arguments, which have string and array types;
    building it cannot throw. *)

Definition TOPIC_IDEAS_FAILED : string :=
  "Failed to generate topic ideas. Please try a different theme.".
Definition WEBSITE_IDEAS_FAILED : string :=
  "Failed to generate topic ideas for your website. Please check the URL or try a manual theme.".
Definition OUTLINE_SUGGESTIONS_FAILED : string := "Failed to generate outline suggestions.".
Definition OUTLINE_FAILED : string := "Failed to generate the article outline.".
Definition REFINE_FAILED : string := "Failed to refine the article outline with AI.".
Definition TITLE_FAILED : string := "Failed to regenerate the title.".
Definition SOCIAL_FAILED : string := "Failed to generate social posts.".

Definition generateTopicIdeas {S} (h : Host) (generateContent : GenerateContent S)
    (prompt : string) : Action S JsVal :=
  withRetry_default
    (relabel TOPIC_IDEAS_FAILED (ask_json h generateContent "gemini-2.5-flash" prompt)).

Definition generateTopicIdeasForWebsite {S} (h : Host)
    (generateContent : GenerateContent S) (prompt : string) : Action S JsVal :=
  withRetry_default
    (relabel WEBSITE_IDEAS_FAILED (ask_json h generateContent "gemini-2.5-flash" prompt)).

Definition generateOutlineSuggestions {S} (h : Host)
    (generateContent : GenerateContent S) (prompt : string) : Action S JsVal :=
  withRetry_default
    (relabel OUTLINE_SUGGESTIONS_FAILED
       (ask_json h generateContent "gemini-2.5-flash" prompt)).

Definition generateOutline {S} (h : Host) (generateContent : GenerateContent S)
    (prompt : string) : Action S JsVal :=
  withRetry_default
    (relabel OUTLINE_FAILED (ask_json_strict h generateContent PRIMARY_MODEL prompt)).

Definition refineOutlineWithAI {S} (h : Host) (generateContent : GenerateContent S)
    (prompt : string) : Action S JsVal :=
  withRetry_default
    (relabel REFINE_FAILED (ask_json_strict h generateContent PRIMARY_MODEL prompt)).

Definition regenerateTitle {S} (generateContent : GenerateContent S)
    (prompt : string) : Action S JsVal :=
  withRetry_default
    (relabel TITLE_FAILED (ask_text generateContent "gemini-2.5-flash" prompt)).

Definition generateSocialPosts {S} (h : Host) (generateContent : GenerateContent S)
    (prompt : string) : Action S JsVal :=
  withRetry_default
    (relabel SOCIAL_FAILED (ask_json_strict h generateContent "gemini-2.5-flash" prompt)).

(** [selectRelevantInternalLinks]: the [catch] block returns [[]]. *)
Definition selectRelevantInternalLinks {S} (h : Host)
    (generateContent : GenerateContent S) (prompt : string) : Action S JsVal :=
  withRetry_default
    (fun w =>
       match ask_json_strict h generateContent "gemini-2.5-flash" prompt w with
       | (Ok v, w1) => (Ok v, w1)
       | (Throw _, w1) => (Ok (JArr []), w1)
       end).

(** A model that is rate-limited at every call, counting the calls. *)
Definition rate_limited_model : GenerateContent nat :=
  fun model prompt calls =>
    (Throw (JObj [("status", num 429); ("message", JStr "Too Many Requests")]),
     Datatypes.S calls).

(** ** [analyzeCompetitors] and [findEeatSources] *)

(** [ai.models.generateContent(...)] resolving to the whole response
    object (its [text] and [candidates] are read). *)
Definition GenerateResponse (S : Type) : Type := string -> string -> Remote S JsVal.

(** [typeof v === 'object'] *)
Definition typeof_is_object (v : JsVal) : bool :=
  match v with JObj _ | JArr _ | JNull => true | _ => false end.

(** [Object.entries(v)] of an object or an array.  The fields of a [JObj]
    are taken to be listed in property enumeration order. *)
Definition entries (v : JsVal) : list (string * JsVal) :=
  match v with
  | JObj fields => fields
  | JArr items =>
      combine (map (fun i => decimal (Z.of_nat i)) (seq 0 (List.length items))) items
  | _ => []
  end.

(** [v?.[0]] *)
Definition opt_index0 (v : JsVal) : JsVal :=
  match v with
  | JArr (first :: _) => first
  | JStr (String c _) => JStr (String c EmptyString)
  | JObj fields => match lookup "0" fields with Some x => x | None => JUndefined end
  | _ => JUndefined
  end.

(** [a ?? b] *)
Definition coalesce (a b : JsVal) : JsVal := if nullish a then b else a.

(** [v.map(...)] needs an array. *)
Definition as_array (v : JsVal) (name : string) : result (list JsVal) :=
  match v with
  | JArr items => Ok items
  | JUndefined | JNull =>
      Throw (TypeError ("Cannot read properties of " ++ show v ++ " (reading 'map')"))
  | _ => Throw (TypeError (name ++ ".map is not a function"))
  end.

(** [k.replace(/_/g, ' ')] *)
Definition spaced_key (k : string) : string :=
  map_chars (fun c => if Ascii.eqb c "_" then " "%char else c) k.

(** The [parts] array of the third branch. *)
Definition root_level_parts (h : Host) (c : JsVal) : list string :=
  flat_map (fun labelled =>
              let v := get_opt c (snd labelled) in
              if truthy v then [(fst labelled ++ to_string h v)%string] else [])
           [("Argument: ", "main_argument"); ("Gaps: ", "content_gaps");
            ("Structure: ", "structure")].

(** The callback of [(parsedData.competitors || []).map]. *)
Definition competitor_record (h : Host) (c : JsVal) : result JsVal :=
  let* summary := get c "summary" in
  let summaryText :=
    match summary with
    | JStr s => s
    | JObj _ | JArr _ =>
        join ". " (map (fun kv => (spaced_key (fst kv) ++ ": "
                                   ++ to_string h (snd kv))%string)
                       (entries summary))
    | _ =>
        match join ". " (root_level_parts h c) with
        | EmptyString => "Analysis available in source link."
        | text => text
        end
    end in
  let* title := get c "title" in
  Ok (JObj [("title", JStr match title with
                           | JStr t => t
                           | _ => "Competitor Analysis"
                           end);
            ("summary", JStr summaryText)]).

(** The callback of [groundingChunks.map]. *)
Definition grounding_link (chunk : JsVal) : result JsVal :=
  let* web := get chunk "web" in
  Ok (JObj [("title", coalesce (get_opt web "title") (JStr "Unknown Source"));
            ("url", coalesce (get_opt web "uri") (JStr "#"));
            ("summary", JStr "")]).

(** [link.url !== '#'] on a record made by [grounding_link]. *)
Definition has_real_url (link : JsVal) : bool :=
  negb (strict_eq_str (get_opt link "url") "#").

Definition COMPETITORS_FAILED : string := "Failed to analyze competitor data.".
Definition EEAT_FAILED : string := "Failed to find E-E-A-T sources.".

(** The body of the [try] block of [analyzeCompetitors]. *)
Definition analyzeCompetitors_try {S} (h : Host)
    (generateContent : GenerateResponse S) (prompt : string) : Action S JsVal :=
  fun w =>
    match perform (generateContent PRIMARY_MODEL prompt) w with
    | (Throw e, w1) => (Throw e, w1)
    | (Ok response, w1) =>
        (let* text := get response "text" in
         let* parsedData := parse_model_json h text in
         let* listed := get parsedData "competitors" in
         let* items := as_array (js_or listed (JArr [])) "(parsedData.competitors || [])" in
         let* competitors := map_result (competitor_record h) items in
         let groundingChunks :=
           coalesce (get_opt (get_opt (opt_index0 (get_opt response "candidates"))
                                      "groundingMetadata") "groundingChunks")
                    (JArr []) in
         let* chunks := as_array groundingChunks "groundingChunks" in
         let* links := map_result grounding_link chunks in
         Ok (JObj [("competitors", JArr competitors);
                   ("groundingLinks", JArr (filter has_real_url links))]),
         w1)
    end.

Definition analyzeCompetitors {S} (h : Host) (generateContent : GenerateResponse S)
    (prompt : string) : Action S JsVal :=
  withRetry_default (relabel COMPETITORS_FAILED (analyzeCompetitors_try h generateContent prompt)).

(** The callback of [parsed.map] in [findEeatSources]. *)
Definition source_record (h : Host) (s : JsVal) : result JsVal :=
  let* title := get s "title" in
  let* url := get s "url" in
  let* summary := get s "summary" in
  Ok (JObj [("title", js_or title (JStr "Source"));
            ("url", js_or url (JStr "#"));
            ("summary", JStr (if typeof_is_object summary
                              then JSON_stringify h summary
                              else to_string h (js_or summary (JStr ""))))]).

Definition findEeatSources {S} (h : Host) (generateContent : GenerateContent S)
    (prompt : string) : Action S JsVal :=
  withRetry_default
    (relabel EEAT_FAILED
       (fun w =>
          match ask_json h generateContent PRIMARY_MODEL prompt w with
          | (Throw e, w1) => (Throw e, w1)
          | (Ok parsed, w1) =>
              (match parsed with
               | JArr items =>
                   let* records := map_result (source_record h) items in
                   Ok (JArr records)
               | _ => Ok (JArr [])
               end, w1)
          end)).

(** Shapes of the records (used in statements). *)
Definition is_competitor (v : JsVal) : Prop :=
  exists title summary, v = JObj [("title", JStr title); ("summary", JStr summary)].

Definition is_grounding_link (v : JsVal) : Prop :=
  exists title url,
    v = JObj [("title", title); ("url", url); ("summary", JStr "")] /\
    nullish title = false /\ nullish url = false /\ url <> JStr "#".

Definition is_source (v : JsVal) : Prop :=
  exists title url summary,
    v = JObj [("title", title); ("url", url); ("summary", JStr summary)] /\
    truthy title = true /\ truthy url = true.

(** A model whose answer lists one competitor with a structured summary,
    and one grounding chunk without a link. *)
Definition competitor_answer : JsVal :=
  JObj [("competitors",
         JArr [JObj [("title", num 7);
                     ("summary", JObj [("main_argument", JStr "speed");
                                       ("content_gaps", JNull)])]])].
Definition competitor_model : GenerateResponse unit :=
  fun model prompt s =>
    (Ok (JObj [("text", JStr "answer");
               ("candidates",
                JArr [JObj [("groundingMetadata",
                             JObj [("groundingChunks",
                                    JArr [JObj [("web", JObj [("title", JStr "t")])];
                                          JObj [("web", JObj [("uri", JStr "https://a.io")])]])])]])]),
     s).
Definition competitor_host : Host := table_host [("answer", competitor_answer)].

(** A model and host for [findEeatSources]. *)
Definition sources_model : GenerateContent unit :=
  fun model prompt s => (Ok (JStr "sources"), s).
Definition sources_host : Host :=
  table_host [("sources", JArr [JObj [("url", JStr "https://nih.gov")]; JStr "x"])].

(** ** More on the webhook normalizers *)

(** A canonical ranked-keyword record normalized once more: the fields
    [competition] and [difficulty] are read back under their upstream names
    [competition_score] and [keyword_difficulty], which a canonical record
    does not have. *)
Definition renormalized (r : JsVal) : JsVal :=
  JObj [("keyword", get_opt r "keyword");
        ("competition", num 0);
        ("competition_level", get_opt r "competition_level");
        ("cpc", get_opt r "cpc");
        ("search_volume", get_opt r "search_volume");
        ("difficulty", num 0);
        ("intent", get_opt r "intent")].

(** The address of an [internal_links] entry: its non-empty string [url],
    or its string [loc] when [url] is absent or falsy. *)
Definition link_address (item : JsVal) (u : string) : Prop :=
  truthy item = true /\ u <> EmptyString /\
  (get_opt item "url" = JStr u \/
   (truthy (get_opt item "url") = false /\ get_opt item "loc" = JStr u)).

(** The record [url_map] makes of an entry with address [u]. *)
Definition link_record (h : Host) (item : JsVal) (u : string) : JsVal :=
  let title := get_opt item "title" in
  JObj [("url", JStr u);
        ("title", if truthy title && typeof_is_string title then title
                  else js_or (JStr (generatedTitle h u)) (JStr u))].

(** The inner [try] of the branch [!response.ok], spelled out: parse the
    body, read its [message], throw an [Error] made from it. *)
Definition not_ok_inner_try (h : Host) (response : Response) : result JsVal :=
  let* errorData := JSON_parse h (body response) in
  let* message := get errorData "message" in
  Throw (Error (to_string h
                  (js_or message
                     (JStr ("Webhook request failed with status "
                            ++ decimal (status response)))))).

(** ... and its [catch], which throws the message with status and body. *)
Definition not_ok_branch (h : Host) (response : Response) : result JsVal :=
  match not_ok_inner_try h response with
  | Ok v => Ok v
  | Throw _ =>
      Throw (Error ("Webhook request failed with status " ++ decimal (status response)
                    ++ ": " ++ body response))
  end.

(** The records [url_map] makes of entries with the given addresses. *)
Definition link_records (h : Host) (links : list JsVal) (addresses : list string)
  : list JsVal :=
  map (fun p => link_record h (fst p) (snd p)) (combine links addresses).

(** A sitemap answer: one entry with [url] and [title], one with [loc] only. *)
Definition sitemap_links : list JsVal :=
  [JObj [("url", JStr "https://a.example/pricing"); ("title", JStr "Pricing")];
   JObj [("loc", JStr "https://a.example/blog/seo-tips.html")]].

(** A host whose [toUpperCase] is the engine's on ASCII text. *)
Definition upper_ascii (c : ascii) : ascii :=
  let n := nat_of_ascii c in
  if (97 <=? n)%nat && (n <=? 122)%nat then ascii_of_nat (n - 32) else c.
Definition ascii_host : Host :=
  mkHost (JSON_parse (table_host [])) (JSON_stringify (table_host []))
         (map_chars upper_ascii) (number_toString (table_host [])).

(** The message of a rejection of [callWebhookTool]. *)
Definition tool_failure (func : WebhookFunction) (cause : string) : JsVal :=
  Error ("Failed to get data from custom tool: " ++ function_name func ++ ". " ++ cause).

(** [{"message":"Invalid API key"}] with a host that parses it. *)
Definition error_body : string :=
  "{" ++ dq ++ "message" ++ dq ++ ":" ++ dq ++ "Invalid API key" ++ dq ++ "}".
Definition error_host : Host :=
  table_host [(error_body, JObj [("message", JStr "Invalid API key")])].

(** [s] has no occurrence of the character [c]. *)
Fixpoint lacks (c : ascii) (s : string) : bool :=
  match s with
  | EmptyString => true
  | String d rest => negb (Ascii.eqb d c) && lacks c rest
  end.

(** [a] occurs in [b] as one contiguous piece. *)
Definition part_of (a b : string) : Prop :=
  exists pre post, b = (pre ++ a ++ post)%string.

(** ** More on [isQuotaError] *)

(** A message that cannot make an error Transient: absent, or a string
    without any of the markers. *)
Definition markerless (message : JsVal) : Prop :=
  message = JUndefined \/
  exists m, message = JStr m /\
            forall marker, In marker quota_markers -> includes marker m = false.

(** ** Text operations routed through [withModelFallback] *)

(** The closure [async (model) => { try { ...; return response.text.trim() }
    catch (error) { throw error } }]: the [catch] block re-throws what it
    caught. *)
Definition text_task {S} (generateContent : GenerateContent S) (prompt : string)
  : Task S JsVal :=
  fun model s =>
    match generateContent model prompt s with
    | (Throw e, s1) => (Throw e, s1)
    | (Ok text, s1) =>
        (match call_trim text with Ok t => Ok (JStr t) | Throw e => Throw e end, s1)
    end.

Definition reviewArticle {S} (generateContent : GenerateContent S) (prompt : string)
  : Action S JsVal :=
  withModelFallback (text_task generateContent prompt) None.

Definition transformText {S} (generateContent : GenerateContent S) (prompt : string)
  : Action S JsVal :=
  withModelFallback (text_task generateContent prompt) None.

Inductive AdditionType : Type := TEXT | IMAGE | GRAPH | TABLE.

(** What [generateContextualAddition] returns for the trimmed answer. *)
Definition placeholder (type : AdditionType) (result : string) : string :=
  match type with
  | IMAGE => "[IMAGE: " ++ result ++ "]"
  | GRAPH => "[GRAPH: " ++ result ++ "]"
  | TEXT | TABLE => result
  end.

Definition generateContextualAddition {S} (generateContent : GenerateContent S)
    (prompt : string) (type : AdditionType) : Action S JsVal :=
  withModelFallback
    (fun model s =>
       match generateContent model prompt s with
       | (Throw e, s1) => (Throw e, s1)
       | (Ok text, s1) =>
           (match call_trim text with
            | Ok t => Ok (JStr (placeholder type t))
            | Throw e => Throw e
            end, s1)
       end)
    None.

(** A model that pads its answer with white space. *)
Definition padding_model : GenerateContent unit :=
  fun model prompt s => (Ok (JStr "  a sunny beach at dawn  "), s).

(** ** Images and speech *)

Definition IMAGE_MODEL : string := "gemini-2.5-flash-image".
Definition IMAGEN_MODEL : string := "imagen-4.0-generate-001".
Definition SPEECH_MODEL : string := "gemini-2.5-flash-preview-tts".

Definition stylePrompt : string :=
  "Authentic editorial photography, natural lighting, shot on 35mm film, minimal processing, photorealistic, highly detailed, cinematic composition. Wide angle 16:9 aspect ratio. Avoid oversaturated colors, avoid plastic skin textures, avoid surrealism, avoid 3D render styles, avoid AI-generated look.".

Definition editStylePrompt : string :=
  "Ensure result looks like authentic editorial photography, natural lighting, photorealistic. Avoid AI-generated look.".

(** [`${prompt} . ${stylePrompt}`] *)
Definition enhancedPrompt (prompt : string) : string := prompt ++ " . " ++ stylePrompt.

(** [`data:${inlineData.mimeType || 'image/png'};base64,${inlineData.data}`]
    for a truthy [inlineData]. *)
Definition data_url (h : Host) (inlineData : JsVal) : string :=
  "data:" ++ to_string h (js_or (get_opt inlineData "mimeType") (JStr "image/png"))
  ++ ";base64," ++ to_string h (get_opt inlineData "data").

(** The loop [for (const part of parts) if (part.inlineData) return ...]. *)
Fixpoint first_inline (h : Host) (parts : list JsVal) : result (option string) :=
  match parts with
  | [] => Ok None
  | part :: rest =>
      let* inlineData := get part "inlineData" in
      if truthy inlineData then Ok (Some (data_url h inlineData))
      else first_inline h rest
  end.

(** [if (parts) { for (const part of parts) ... }]: an array is iterated;
    the characters of a string have no [inlineData]; any other truthy value
    is not iterable. *)
Definition inline_image (h : Host) (parts : JsVal) : result (option string) :=
  if negb (truthy parts) then Ok None
  else match parts with
       | JArr items => first_inline h items
       | JStr _ => Ok None
       | _ => Throw (TypeError "parts is not iterable")
       end.

(** [response.candidates?.[0]?.content?.parts] *)
Definition candidate_parts (response : JsVal) : result JsVal :=
  let* candidates := get response "candidates" in
  Ok (get_opt (get_opt (opt_index0 candidates) "content") "parts").

(** The image of a [generateContent] response, or an [Error] with [msg]. *)
Definition image_of_response (h : Host) (msg : string) (response : JsVal)
  : result JsVal :=
  let* parts := candidate_parts response in
  let* found := inline_image h parts in
  match found with
  | Some url => Ok (JStr url)
  | None => Throw (Error msg)
  end.

Definition tryNanoBanana {S} (h : Host) (generateContent : GenerateResponse S)
    (prompt : string) : Action S JsVal :=
  fun w =>
    match perform (generateContent IMAGE_MODEL (enhancedPrompt prompt)) w with
    | (Throw e, w1) => (Throw e, w1)
    | (Ok response, w1) =>
        (image_of_response h "No image data from Nano Banana." response, w1)
    end.

Definition tryImagen4 {S} (h : Host) (generateImages : GenerateResponse S)
    (prompt : string) : Action S JsVal :=
  fun w =>
    match perform (generateImages IMAGEN_MODEL (enhancedPrompt prompt)) w with
    | (Throw e, w1) => (Throw e, w1)
    | (Ok response, w1) =>
        (let* generatedImages := get response "generatedImages" in
         let base64 := get_opt (get_opt (opt_index0 generatedImages) "image")
                               "imageBytes" in
         if truthy base64
         then Ok (JStr ("data:image/png;base64," ++ to_string h base64))
         else Throw (Error "No image data from Imagen 4.0."),
         w1)
    end.

(** [try { return await withRetry(tryNanoBanana, 1, 1000) }
     catch (error) { return await withRetry(tryImagen4, 1, 2000) }] *)
Definition generateArticleImage {S} (h : Host)
    (generateContent generateImages : GenerateResponse S) (prompt : string)
  : Action S JsVal :=
  fun w =>
    match withRetry (tryNanoBanana h generateContent prompt) 1 1000 w with
    | (Ok v, w1) => (Ok v, w1)
    | (Throw _, w1) => withRetry (tryImagen4 h generateImages prompt) 1 2000 w1
    end.

Definition EDIT_FAILED : string := "Failed to edit image.".
Definition SPEECH_FAILED : string := "Failed to generate speech.".

(** The image to edit travels in the request; the answer is all that is
    read back. *)
Definition editArticleImage {S} (h : Host) (generateContent : GenerateResponse S)
    (prompt : string) : Action S JsVal :=
  withRetry_default
    (relabel EDIT_FAILED
       (fun w =>
          match perform (generateContent IMAGE_MODEL
                           (prompt ++ " - " ++ editStylePrompt)%string) w with
          | (Throw e, w1) => (Throw e, w1)
          | (Ok response, w1) =>
              (image_of_response h "No image data received from API for editing."
                 response, w1)
          end)).

(** [response.candidates?.[0]?.content?.parts?.[0]?.inlineData?.data] *)
Definition speech_data (response : JsVal) : result JsVal :=
  let* parts := candidate_parts response in
  Ok (get_opt (get_opt (opt_index0 parts) "inlineData") "data").

Definition generateSpeech {S} (generateContent : GenerateResponse S)
    (prompt : string) : Action S JsVal :=
  withRetry_default
    (relabel SPEECH_FAILED
       (fun w =>
          match perform (generateContent SPEECH_MODEL prompt) w with
          | (Throw e, w1) => (Throw e, w1)
          | (Ok response, w1) =>
              (let* base64Audio := speech_data response in
               if negb (truthy base64Audio)
               then Throw (Error "No audio data received.")
               else Ok base64Audio,
               w1)
          end)).

(** An image service that rejects the request, and one that answers. *)
Definition refusing_image_model : GenerateResponse nat :=
  fun model prompt calls =>
    (Throw (JObj [("status", num 400); ("message", JStr "Bad Request")]),
     Datatypes.S calls).
Definition imagen_service : GenerateResponse nat :=
  fun model prompt calls =>
    (Ok (JObj [("generatedImages",
                JArr [JObj [("image", JObj [("imageBytes", JStr "iVBORw0KGgo=")])]])]),
     Datatypes.S calls).

(* ===================================================================== *)
(** * The application shell ([App.tsx])                                   *)
(* ===================================================================== *)

(** ['Setup'], ['Topic Ideation'], ['Research & Outline'], ['Drafting'] and
    ['Publish']. *)
Inductive WorkflowStep : Type :=
| Setup | TopicIdeation | ResearchAndOutline | Drafting | Publish.

(** [AppState], with the field types its TypeScript declaration gives. *)
Record AppState : Type := mkAppState {
  websiteUrl : string;
  country : string;
  language : string;
  topic : string;
  outline : list string;
  draft : string;
  imageUrl : string;
  internalLinks : list JsVal
}.

Definition defaultState : AppState :=
  mkAppState "" "" "" "" [] "" "" [].

(** Truthiness of a string. *)
Definition nonempty (s : string) : bool := negb (s =? "").

Definition getInitialProgress (initialState : AppState) : Z * WorkflowStep :=
  if nonempty (draft initialState) then (3%Z, Publish)
  else if (0 <? Z.of_nat (List.length (outline initialState)))%Z then (2%Z, Drafting)
  else if nonempty (topic initialState) then (1%Z, ResearchAndOutline)
  else if nonempty (websiteUrl initialState) then (0%Z, TopicIdeation)
  else ((-1)%Z, Setup).

(** What the effect on [appState] writes to [localStorage]: the state,
    without an [imageUrl] that is a data URL. *)
Definition stateToSave (appState : AppState) : AppState :=
  if nonempty (imageUrl appState) && prefix "data:" (imageUrl appState)
  then mkAppState (websiteUrl appState) (country appState) (language appState)
         (topic appState) (outline appState) (draft appState) ""
         (internalLinks appState)
  else appState.

(** The three pieces of state of the component [App] that the handlers
    touch.  [activeStep] is [None] when [WORKFLOW_STEPS[stepIndex]] was
    [undefined]. *)
Record App : Type := mkApp {
  appState : AppState;
  activeStep : option WorkflowStep;
  highestCompletedStepIndex : Z
}.

(** First render, with the state [getInitialState] returned. *)
Definition mount (initialState : AppState) : App :=
  let initialProgress := getInitialProgress initialState in
  mkApp initialState (Some (snd initialProgress)) (fst initialProgress).

(** The callbacks handed to the step components, and the sidebar. *)
Inductive UserAction : Type :=
| SetupComplete (websiteUrl country language : string)
| TopicSelect (topic : string)
| OutlineComplete (outline : list string) (internalLinks : list JsVal)
| DraftComplete (draft : string)
| ImageGenerated (imageUrl : string)
| Restart (confirmed : bool)
| GoToStep (stepIndex : Z).

Section Shell.

(** [WORKFLOW_STEPS[stepIndex]]; the array is declared outside the files at
    hand, so that every statement below holds for any array. *)
Variable WORKFLOW_STEPS : Z -> option WorkflowStep.

Definition handle (app : App) (action : UserAction) : App :=
  let prev := appState app in
  match action with
  | SetupComplete websiteUrl country language =>
      mkApp (mkAppState websiteUrl country language "" [] "" "" [])
            (Some TopicIdeation) 0
  | TopicSelect topic =>
      mkApp (mkAppState (websiteUrl prev) (country prev) (language prev)
                        topic [] "" "" [])
            (Some ResearchAndOutline) 1
  | OutlineComplete outline internalLinks =>
      mkApp (mkAppState (websiteUrl prev) (country prev) (language prev)
                        (topic prev) outline "" "" internalLinks)
            (Some Drafting) 2
  | DraftComplete draft =>
      mkApp (mkAppState (websiteUrl prev) (country prev) (language prev)
                        (topic prev) (outline prev) draft (imageUrl prev)
                        (internalLinks prev))
            (Some Publish) 3
  | ImageGenerated imageUrl =>
      mkApp (mkAppState (websiteUrl prev) (country prev) (language prev)
                        (topic prev) (outline prev) (draft prev) imageUrl
                        (internalLinks prev))
            (activeStep app) (highestCompletedStepIndex app)
  | Restart confirmed =>
      if confirmed then mkApp defaultState (Some Setup) (-1) else app
  | GoToStep stepIndex =>
      if (stepIndex <=? highestCompletedStepIndex app + 1)%Z
      then mkApp (appState app) (WORKFLOW_STEPS stepIndex)
                 (highestCompletedStepIndex app)
      else app
  end.

(** A session: the actions in the order they happen. *)
Definition session (initialState : AppState) (actions : list UserAction) : App :=
  fold_left handle actions (mount initialState).

End Shell.

(** The action hands over what its step produces: a site address, a topic,
    an outline with at least one heading, a draft. *)
Definition supplies_content (action : UserAction) : bool :=
  match action with
  | SetupComplete websiteUrl _ _ => nonempty websiteUrl
  | TopicSelect topic => nonempty topic
  | OutlineComplete outline _ => negb (List.length outline =? 0)%nat
  | DraftComplete draft => nonempty draft
  | ImageGenerated _ | Restart _ | GoToStep _ => true
  end.

(** Reloading the page after the state was written: [getInitialState]
    reads back what was saved ([JSON.parse] undoes [JSON.stringify] on the
    strings and arrays of an [AppState]). *)
Definition reload (app : App) : App := mount (stateToSave (appState app)).

(* ===================================================================== *)
(** * The publishing step ([AudioPublisher.tsx])                          *)
(* ===================================================================== *)

(** ** Title and body of the draft *)

Definition newline : ascii := ascii_of_nat 10.

(** [line.trim().startsWith('# ')] *)
Definition is_title_line (line : string) : bool := prefix "# " (trim line).

(** [lines.findIndex(p)], [None] standing for -1. *)
Fixpoint findIndex {A} (p : A -> bool) (l : list A) : option nat :=
  match l with
  | [] => None
  | x :: rest => if p x then Some 0%nat else option_map Datatypes.S (findIndex p rest)
  end.

(** [line.replace(/^#\s*/, '')] *)
Definition strip_hash (line : string) : string :=
  match line with
  | String c rest => if Ascii.eqb c "#" then trimStart rest else line
  | EmptyString => line
  end.

(** The pair [(newTitle, body)] the effect computes from the draft. *)
Definition title_and_body (appState : AppState) : string * string :=
  let fullDraft := draft appState in
  let lines := split_on newline fullDraft in
  match findIndex is_title_line lines with
  | Some titleIndex =>
      (trim (strip_hash (nth titleIndex lines EmptyString)),
       trim (join nl (skipn (titleIndex + 1) lines)))
  | None => (topic appState, fullDraft)
  end.

(** The text made of the given lines, each one ended by a line feed. *)
Definition unlines (lines : list string) : string :=
  fold_right (fun line text => (line ++ nl ++ text)%string) EmptyString lines.

(** A line of a preamble: no line feed in it, and not a title line. *)
Definition plain_line (line : string) : bool :=
  lacks newline line && negb (is_title_line line).

(** ** Anchors of the table of contents *)

(** [\w] *)
Definition is_word (c : ascii) : bool :=
  let n := nat_of_ascii c in
  ((48 <=? n) && (n <=? 57) || (65 <=? n) && (n <=? 90)
   || (97 <=? n) && (n <=? 122) || (n =? 95))%nat.

Definition is_hyphen (c : ascii) : bool := Ascii.eqb c "-".

(** [s.replace(/[p]+/g, r)]: every maximal run of characters of the class
    [p] becomes [r]; [in_run] tells that the previous character was in the
    class. *)
Fixpoint replace_runs (p : ascii -> bool) (r : string) (in_run : bool) (s : string)
  : string :=
  match s with
  | EmptyString => EmptyString
  | String c rest =>
      if p c
      then if in_run then replace_runs p r true rest
           else (r ++ replace_runs p r true rest)%string
      else String c (replace_runs p r false rest)
  end.

(** [s.replace(/[^\w\-]+/g, '')] *)
Fixpoint keep_word_hyphen (s : string) : string :=
  match s with
  | EmptyString => EmptyString
  | String c rest =>
      if is_word c || is_hyphen c then String c (keep_word_hyphen rest)
      else keep_word_hyphen rest
  end.

(** [match[2].toLowerCase().trim().replace(/\s+/g, '-')
      .replace(/[^\w\-]+/g, '').replace(/\-\-+/g, '-')]; [toLowerCase] is
    the engine's.  In the last step a single hyphen is replaced by itself
    or left alone, which is the same. *)
Definition heading_id (toLowerCase : string -> string) (text : string) : string :=
  replace_runs is_hyphen "-" false
    (keep_word_hyphen
       (replace_runs is_space "-" false (trim (toLowerCase text)))).

(** Every character of [s] satisfies [p]. *)
Fixpoint all_chars (p : ascii -> bool) (s : string) : bool :=
  match s with
  | EmptyString => true
  | String c rest => p c && all_chars p rest
  end.

(** ** [bufferToWave] *)

(** An element of a [Float32Array]: a finite number (every finite float
    is a rational), an infinity, or NaN.  On 32-bit floats the products
    with 32767 and 32768 below are exact in double precision, and the sum
    with 0.5 has the sign of the exact sum. *)
Inductive Float : Type :=
| Finite (q : Q) | PosInfinity | NegInfinity | NaN.

(** [AudioBuffer]: [frameCount] is its property [length]. *)
Record AudioBuffer : Type := mkAudioBuffer {
  numberOfChannels : nat;
  frameCount : nat;
  sampleRate : Z;
  getChannelData : nat -> nat -> Float
}.

(** [Math.max(-1, Math.min(1, x))], [None] standing for NaN. *)
Definition clamp (x : Float) : option Q :=
  match x with
  | Finite q => Some (if Qle_bool 1 q then 1%Q
                      else if Qle_bool q (-1) then (-1)%Q else q)
  | PosInfinity => Some 1%Q
  | NegInfinity => Some (-1)%Q
  | NaN => None
  end.

(** [x | 0] for a number within the 32-bit range: the fraction is dropped. *)
Definition truncate (q : Q) : Z := Z.quot (Qnum q) (Zpos (Qden q)).

(** [(0.5 + sample < 0 ? sample * 32768 : sample * 32767) | 0] after the
    clamping; the condition is that of the source, where [+] binds tighter
    than [<].  NaN makes the comparison false and [NaN | 0] is 0. *)
Definition pcm16 (x : Float) : Z :=
  match clamp x with
  | None => 0
  | Some sample =>
      truncate (if negb (Qle_bool 0 ((1 # 2) + sample))
                then sample * inject_Z 32768
                else sample * inject_Z 32767)%Q
  end.

(** The little-endian bytes that [setUint16]/[setInt16] and [setUint32]
    store: the argument is reduced modulo 2^16 and 2^32. *)
Definition bytes16 (data : Z) : list Z :=
  [data mod 256; (data / 256) mod 256]%Z.
Definition bytes32 (data : Z) : list Z :=
  [data mod 256; (data / 256) mod 256; (data / 65536) mod 256;
   (data / 16777216) mod 256]%Z.

(** One pass of the inner [for] loop: a sample of every channel. *)
Definition frame (abuffer : AudioBuffer) (offset : nat) : list Z :=
  flat_map (fun i => bytes16 (pcm16 (getChannelData abuffer i offset)))
           (seq 0 (numberOfChannels abuffer)).

(** The loop [while (pos < length) { ...; offset++ }]; every pass but the
    last one of an empty buffer moves [pos] forward, and [fuel] bounds the
    number of passes. *)
Fixpoint write_frames (fuel : nat) (abuffer : AudioBuffer) (pos length : Z)
    (offset : nat) : list Z :=
  match fuel with
  | O => []
  | Datatypes.S fuel' =>
      if (pos <? length)%Z
      then frame abuffer offset
           ++ write_frames fuel' abuffer
                (pos + 2 * Z.of_nat (numberOfChannels abuffer))%Z length
                (Datatypes.S offset)
      else []
  end.

(** The header: thirteen fields, 44 bytes. *)
Definition wave_header (abuffer : AudioBuffer) (length : Z) : list Z :=
  let numOfChan := Z.of_nat (numberOfChannels abuffer) in
  (bytes32 1179011410            (* RIFF *)
   ++ bytes32 (length - 8)
   ++ bytes32 1163280727         (* WAVE *)
   ++ bytes32 544501094          (* fmt, then a space *)
   ++ bytes32 16
   ++ bytes16 1
   ++ bytes16 numOfChan
   ++ bytes32 (sampleRate abuffer)
   ++ bytes32 (sampleRate abuffer * 2 * numOfChan)
   ++ bytes16 (numOfChan * 2)
   ++ bytes16 16
   ++ bytes32 1635017060         (* data *)
   ++ bytes32 (length - 40 - 4))%Z.

(** The bytes of the blob.  The writes go through the buffer from its
    first byte to its last one, so that the buffer is the concatenation of
    what is written.  The loop needs [frameCount] passes. *)
Definition bufferToWave (abuffer : AudioBuffer) : list Z :=
  let numOfChan := Z.of_nat (numberOfChannels abuffer) in
  let length := (Z.of_nat (frameCount abuffer) * numOfChan * 2 + 44)%Z in
  wave_header abuffer length
  ++ write_frames (frameCount abuffer) abuffer 44 length 0.

(** [getUint32(at, true)] and the sequence of [getInt16(_, true)] over the
    samples, to read a file back. *)
Definition uint32_at (at_ : nat) (bytes : list Z) : Z :=
  (nth at_ bytes 0 + 256 * nth (at_ + 1) bytes 0 + 65536 * nth (at_ + 2) bytes 0
   + 16777216 * nth (at_ + 3) bytes 0)%Z.

Definition int16_of (low high : Z) : Z :=
  let u := (low + 256 * high)%Z in
  if (32768 <=? u)%Z then (u - 65536)%Z else u.

Fixpoint samples_of (bytes : list Z) : list Z :=
  match bytes with
  | low :: high :: rest => int16_of low high :: samples_of rest
  | _ => []
  end.

(** The samples in file order: frame by frame, channel by channel. *)
Definition interleaved (abuffer : AudioBuffer) : list Float :=
  flat_map (fun offset => map (fun i => getChannelData abuffer i offset)
                              (seq 0 (numberOfChannels abuffer)))
           (seq 0 (frameCount abuffer)).

(** A stereo buffer of two frames at 24 kHz. *)
Definition two_frames : AudioBuffer :=
  mkAudioBuffer 2 2 24000
    (fun i offset =>
       match i, offset with
       | O, O => Finite 1
       | O, _ => Finite (-(3 # 4))
       | _, O => NaN
       | _, _ => NegInfinity
       end).

(* ===================================================================== *)
(** * [chatWithDraft]                                                     *)
(* ===================================================================== *)












(* ===================================================================== *)
(** * Runs in the words of the specification                              *)
(* ===================================================================== *)

(** The log of a [withRetry] call that retried [k] times: the first
    attempt, then, for [n = 1, ..., k], the delay
    [baseDelay * backoffFactor ^ (n - 1)] followed by retry attempt [n]. *)
Definition backoff_trace (role : Role) (model : string) (baseDelay : Z) (k : nat)
  : list Event :=
  Invoked role model ::
  flat_map (fun n => [Slept (baseDelay * backoffFactor ^ Z.of_nat n);
                      Invoked role model])
           (seq 0 k).

(** An outcome after which [withRetry] stops even when retries remain: a
    value, or an error that is not Transient (Fatal, or one the classifier
    cannot read). *)
Definition not_retried {A} (r : result A) : Prop :=
  match r with
  | Ok _ => True
  | Throw error => classify error <> Ok Transient
  end.

(** What [withRetry] returns for the outcome [r] of its last attempt:
    [r] itself, except that an error met while retries remain
    ([exhausted = false]) is replaced by the exception of the classifier
    when the classifier throws on it. *)
Definition settled_outcome {A} (exhausted : bool) (r : result A) : result A :=
  match r with
  | Ok v => Ok v
  | Throw error =>
      if exhausted then Throw error
      else match isQuotaError error with
           | Throw e => Throw e
           | Ok _ => Throw error
           end
  end.

(** An entry of a collection that is not in turn a wrapper: it is no
    array and carries none of the wrapper fields. *)
Definition plain_entry (entry : JsVal) : bool :=
  negb (isArray entry)
  && negb (truthy (get_opt entry "ranked_keywords"))
  && negb (truthy (get_opt entry "suggested_keywords"))
  && negb (isArray (get_opt entry "related_keyword")).

(** The value [v] and the world [w'] of a resolved text operation come
    from an answer of the model: the last thing that happened is a call of
    the task closure with the primary or the fallback model, in which
    [generateContent] resolved with a string [text] and left the remote
    state of [w']; [v] is [text], trimmed and passed through [wrap]. *)
Definition answered_with {S} (generateContent : GenerateContent S) (prompt : string)
    (wrap : string -> string) (v : JsVal) (w' : World S) : Prop :=
  exists role model before s text,
    (role = Primary /\ model = PRIMARY_MODEL \/
     role = Fallback /\ model = FALLBACK_MODEL) /\
    generateContent model prompt s = (Ok (JStr text), remote w') /\
    events w' = before ++ [Invoked role model] /\
    v = JStr (wrap (trim text)) /\
    trim (trim text) = trim text.

(* ===================================================================== *)
(** * Properties                                                          *)
(* ===================================================================== *)

(** ** The classifier *)







Lemma includes_any_string (m : string) (markers : list string) :
  includes_any (JStr m) markers = Ok (existsb (fun k => includes k m) markers).
Proof.
  induction markers as [| k rest IH]; simpl; [reflexivity |].
  destruct (includes k m); simpl; [reflexivity | exact IH].
Qed.



Lemma is_number_strict_eq (v : JsVal) (z : Z) :
  is_number v z -> strict_eq_num v z = true.
Proof. intros (q & -> & Hq). apply Qeq_bool_iff. exact Hq. Qed.

Lemma transient_status_test (s : JsVal) :
  transient_status s -> status_is_transient s = true.
Proof.
  unfold status_is_transient.
  intros [H | [H | [H | [-> | ->]]]]; try reflexivity;
    apply is_number_strict_eq in H; rewrite H;
    rewrite ?orb_true_r; reflexivity.
Qed.




(** C5.  The classifier is not total: on [null] and on [undefined] the first
    property read throws a [TypeError]; a truthy [message] that is neither a
    string nor an array throws as well.  An object carrying none of
    [status], [code], [message] is classified Fatal. *)
Theorem isQuotaError_nullish_throws :
  isQuotaError JNull =
    Throw (TypeError "Cannot read properties of null (reading 'status')") /\
  isQuotaError JUndefined =
    Throw (TypeError "Cannot read properties of undefined (reading 'status')") /\
  isQuotaError (JObj [("message", num 42)]) =
    Throw (TypeError "error.message.includes is not a function") /\
  isQuotaError (JObj []) = Ok JUndefined /\
  classify (JObj []) = Ok Fatal.
Proof. repeat split. Qed.

(** ** Retry *)

Lemma sleeps_app (a b : list Event) : sleeps (a ++ b) = sleeps a ++ sleeps b.
Proof. unfold sleeps. apply flat_map_app. Qed.

Lemma calls_of_app (role : Role) (a b : list Event) :
  calls_of role (a ++ b) = calls_of role a ++ calls_of role b.
Proof. unfold calls_of. apply flat_map_app. Qed.

Lemma classify_transient (error : JsVal) :
  classify error = Ok Transient <->
  exists q, isQuotaError error = Ok q /\ truthy q = true.
Proof.
  unfold classify. destruct (isQuotaError error) as [q | e]; simpl.
  - destruct (truthy q) eqn:Hq; split.
    + intros _. exists q. split; [reflexivity | exact Hq].
    + reflexivity.
    + discriminate.
    + intros (q' & Heq & Ht). injection Heq as <-. congruence.
  - split; [discriminate | intros (q & Heq & _); discriminate].
Qed.

Lemma classify_fatal (error : JsVal) :
  classify error = Ok Fatal <->
  exists q, isQuotaError error = Ok q /\ truthy q = false.
Proof.
  unfold classify. destruct (isQuotaError error) as [q | e]; simpl.
  - destruct (truthy q) eqn:Hq; split.
    + discriminate.
    + intros (q' & Heq & Ht). injection Heq as <-. congruence.
    + intros _. exists q. split; [reflexivity | exact Hq].
    + reflexivity.
  - split; [discriminate | intros (q & Heq & _); discriminate].
Qed.

(** One unfolding of the recursion, on a failed attempt that is retried. *)
Lemma withRetry_retry {S A} (fn : Action S A) retries baseDelay w error w1 :
  fn w = (Throw error, w1) -> classify error = Ok Transient ->
  withRetry fn (Datatypes.S retries) baseDelay w =
  withRetry fn retries (baseDelay * backoffFactor) (sleep baseDelay w1).
Proof.
  intros Hfn Hc. apply classify_transient in Hc. destruct Hc as (q & Hq & Ht).
  simpl. rewrite Hfn, Hq, Ht. reflexivity.
Qed.

Lemma withRetry_success {S A} (fn : Action S A) retries baseDelay w v w1 :
  fn w = (Ok v, w1) -> withRetry fn retries baseDelay w = (Ok v, w1).
Proof. intros Hfn. destruct retries; simpl; rewrite Hfn; reflexivity. Qed.

Lemma schedule_step (baseDelay : Z) (k : nat) :
  map (fun i => (baseDelay * backoffFactor ^ Z.of_nat i)%Z) (seq 0 (Datatypes.S k)) =
  baseDelay ::
  map (fun i => (baseDelay * backoffFactor * backoffFactor ^ Z.of_nat i)%Z) (seq 0 k).
Proof.
  cbn [seq map]. f_equal.
  - change (Z.of_nat 0) with 0%Z. rewrite Z.pow_0_r. lia.
  - rewrite <- seq_shift, map_map. apply map_ext. intros i.
    rewrite Nat2Z.inj_succ, Z.pow_succ_r by lia. lia.
Qed.

Lemma withRetry_sleeps {S A} (fn : Action S A) :
  timerless fn ->
  forall retries baseDelay w,
  exists k, (k <= retries)%nat /\
    sleeps (events (snd (withRetry fn retries baseDelay w))) =
    sleeps (events w) ++
    map (fun i => (baseDelay * backoffFactor ^ Z.of_nat i)%Z) (seq 0 k).
Proof.
  intros Hq. induction retries as [| r IH]; intros baseDelay w.
  - exists 0%nat. split; [lia |]. simpl.
    specialize (Hq w). destruct (fn w) as [[v | e] w1]; simpl in *;
      rewrite Hq, app_nil_r; reflexivity.
  - specialize (Hq w). simpl. destruct (fn w) as [[v | error] w1]; simpl in Hq.
    + exists 0%nat. split; [lia |]. simpl. rewrite Hq, app_nil_r. reflexivity.
    + destruct (isQuotaError error) as [q | e].
      * destruct (truthy q).
        -- destruct (IH (baseDelay * backoffFactor)%Z (sleep baseDelay w1)) as (k & Hk & Hs).
           exists (Datatypes.S k). split; [lia |].
           rewrite Hs, schedule_step. unfold sleep, log. cbn [events].
           rewrite sleeps_app, Hq. cbn. rewrite <- app_assoc. reflexivity.
        -- exists 0%nat. split; [lia |]. simpl. rewrite Hq, app_nil_r. reflexivity.
      * exists 0%nat. split; [lia |]. simpl. rewrite Hq, app_nil_r. reflexivity.
Qed.

Lemma withRetry_sleeps_exhausted {S A} (fn : Action S A) :
  timerless fn -> always_transient fn ->
  forall retries baseDelay w,
    sleeps (events (snd (withRetry fn retries baseDelay w))) =
    sleeps (events w) ++
    map (fun i => (baseDelay * backoffFactor ^ Z.of_nat i)%Z) (seq 0 retries).
Proof.
  intros Hq Ht. induction retries as [| r IH]; intros baseDelay w.
  - simpl. specialize (Hq w). destruct (fn w) as [[v | e] w1]; simpl in *;
      rewrite Hq, app_nil_r; reflexivity.
  - destruct (Ht w) as (error & w1 & Hfn & Hc).
    rewrite (withRetry_retry fn r baseDelay w error w1 Hfn Hc).
    rewrite IH, schedule_step. unfold sleep, log. cbn [events].
    specialize (Hq w). rewrite Hfn in Hq. simpl in Hq.
    rewrite sleeps_app, Hq. cbn. rewrite <- app_assoc. reflexivity.
Qed.

Lemma invoke_events {S A} (role : Role) (f : Task S A) (model : string) (w : World S) :
  events (snd (invoke role f model w)) = events w ++ [Invoked role model].
Proof.
  unfold invoke, perform, log. cbn [remote events].
  destruct (f model (remote w)). reflexivity.
Qed.

Lemma invoke_outcome {S A} (role : Role) (f : Task S A) (model : string) (w : World S) :
  invoke role f model w =
  (fst (f model (remote w)),
   mkWorld (snd (f model (remote w))) (events w ++ [Invoked role model])).
Proof.
  unfold invoke, perform, log. cbn [remote events].
  destruct (f model (remote w)). reflexivity.
Qed.

Lemma backoff_trace_retry (role : Role) (model : string) (baseDelay : Z) (k : nat) :
  backoff_trace role model baseDelay (Datatypes.S k)
  = Invoked role model :: Slept baseDelay
    :: backoff_trace role model (baseDelay * backoffFactor) k.
Proof.
  unfold backoff_trace. cbn [seq flat_map app]. f_equal. f_equal.
  - change (Z.of_nat 0) with 0%Z. rewrite Z.pow_0_r. f_equal. lia.
  - f_equal. rewrite <- seq_shift. generalize (seq 0 k) as l.
    induction l as [| n l IH]; [reflexivity |].
    cbn [map flat_map app]. rewrite IH. do 2 f_equal.
    rewrite Nat2Z.inj_succ, Z.pow_succ_r by lia. lia.
Qed.

(** One [withRetry] call over a task closure, seen from the task: it is
    run on the remote states [s0, s1, ...] that its own failures produce,
    as long as it fails with a Transient error and retries remain. *)
Lemma withRetry_run {S A} (role : Role) (f : Task S A) (model : string) :
  forall retries baseDelay w,
  exists k s,
    (k <= retries)%nat /\
    transient_run (f model) k (remote w) s /\
    (k = retries \/ not_retried (fst (f model s))) /\
    withRetry (invoke role f model) retries baseDelay w
    = (settled_outcome (k =? retries)%nat (fst (f model s)),
       mkWorld (snd (f model s))
               (events w ++ backoff_trace role model baseDelay k)).
Proof.
  induction retries as [| r IH]; intros baseDelay w.
  - exists 0%nat, (remote w). split; [lia |]. split; [constructor |].
    split; [left; reflexivity |].
    cbn [withRetry]. rewrite invoke_outcome.
    destruct (f model (remote w)) as [[v | error] s1]; reflexivity.
  - cbn [withRetry]. rewrite invoke_outcome.
    destruct (f model (remote w)) as [[v | error] s1] eqn:Hf; cbn [fst snd].
    + exists 0%nat, (remote w). rewrite Hf. split; [lia |]. split; [constructor |].
      split; [right; exact I | reflexivity].
    + destruct (classify error) as [[|] | e] eqn:Hc.
      * pose proof Hc as Hq. apply classify_transient in Hq.
        destruct Hq as (q & Hq & Ht). rewrite Hq, Ht.
        destruct (IH (baseDelay * backoffFactor)%Z
                     (sleep baseDelay (mkWorld s1 (events w ++ [Invoked role model]))))
          as (k & s & Hk & Hrun & Hlast & Hres).
        exists (Datatypes.S k), s. split; [lia |].
        split; [exact (transient_step (f model) k (remote w) s1 s error Hf Hc Hrun) |].
        split; [destruct Hlast as [-> | Hlast]; [left; reflexivity | right; exact Hlast] |].
        rewrite Hres, backoff_trace_retry. unfold sleep, log. cbn [events Nat.eqb].
        rewrite <- !app_assoc. reflexivity.
      * pose proof Hc as Hq. apply classify_fatal in Hq.
        destruct Hq as (q & Hq & Ht). rewrite Hq, Ht.
        exists 0%nat, (remote w). rewrite Hf. split; [lia |]. split; [constructor |].
        split; [right; cbn [fst not_retried]; rewrite Hc; discriminate |].
        cbn [fst snd settled_outcome Nat.eqb]. rewrite Hq. reflexivity.
      * assert (Hq : isQuotaError error = Throw e).
        { unfold classify in Hc. destruct (isQuotaError error) as [q | e0];
            [| injection Hc as <-; reflexivity].
          cbn [bind] in Hc. discriminate Hc. }
        rewrite Hq.
        exists 0%nat, (remote w). rewrite Hf. split; [lia |]. split; [constructor |].
        split; [right; cbn [fst not_retried]; rewrite Hc; discriminate |].
        cbn [fst snd settled_outcome Nat.eqb]. rewrite Hq. reflexivity.
Qed.

Lemma backoff_trace_nth (baseDelay : Z) (role : Role) (model : string) (k : nat) :
  forall first m, (m < k)%nat ->
  let steps := flat_map (fun n => [Slept (baseDelay * backoffFactor ^ Z.of_nat n);
                                   Invoked role model]) (seq first k) in
  nth_error steps (2 * m)
  = Some (Slept (baseDelay * backoffFactor ^ Z.of_nat (first + m))) /\
  nth_error steps (2 * m + 1) = Some (Invoked role model).
Proof.
  induction k as [| k IH]; intros first m Hm; [lia |].
  cbv zeta. cbn [seq flat_map app]. destruct m as [| m].
  - rewrite Nat.add_0_r. split; reflexivity.
  - replace (2 * Datatypes.S m)%nat with (Datatypes.S (Datatypes.S (2 * m))) by lia.
    cbn [nth_error Nat.add].
    destruct (IH (Datatypes.S first) m ltac:(lia)) as [H1 H2].
    cbv zeta in H1, H2. rewrite H1, H2.
    replace (Datatypes.S first + m)%nat with (first + Datatypes.S m)%nat by lia.
    split; reflexivity.
Qed.

Lemma backoff_trace_length (role : Role) (model : string) (baseDelay : Z) (k : nat) :
  List.length (backoff_trace role model baseDelay k) = (2 * k + 1)%nat.
Proof.
  unfold backoff_trace. cbn [List.length].
  assert (H : forall first,
            List.length
              (flat_map (fun n => [Slept (baseDelay * backoffFactor ^ Z.of_nat n);
                                   Invoked role model]) (seq first k))
            = (2 * k)%nat).
  { induction k as [| k IH]; intros first; [reflexivity |].
    cbn [seq flat_map app List.length]. rewrite IH. lia. }
  rewrite H. lia.
Qed.

(** C3.  Exponential backoff.  Seen in the log of one [withRetry] call
    over a task closure: the task is attempted once; then, for
    [n = 1, ..., k], the call sleeps
    [baseDelay * backoffFactor ^ (n - 1)] milliseconds and runs retry
    attempt [n], and nothing else happens; the call returns the outcome of
    the last attempt (the exception of the classifier, should it throw on
    the last error).  The number [k] of retries is the number of
    consecutive Transient failures of the task, up to [retries]:
    the call stops at the first attempt that is not rejected with a
    Transient error, or when the retries are used up.  When every attempt
    is rejected with a Transient error and [retries = 3],
    [baseDelay = 2000], the delays before the attempts 2, 3 and 4 are 2000,
    4000 and 8000 ms. *)
Theorem withRetry_backoff_schedule {S A} (role : Role) (f : Task S A)
    (model : string) (retries : nat) (baseDelay : Z) (w : World S) :
  (exists k s,
     (k <= retries)%nat /\
     transient_run (f model) k (remote w) s /\
     (k = retries \/ not_retried (fst (f model s))) /\
     withRetry (invoke role f model) retries baseDelay w
     = (settled_outcome (k =? retries)%nat (fst (f model s)),
        mkWorld (snd (f model s))
                (events w ++ backoff_trace role model baseDelay k)))
  /\
  (forall k n, (1 <= n <= k)%nat ->
     nth_error (backoff_trace role model baseDelay k) 0 = Some (Invoked role model) /\
     nth_error (backoff_trace role model baseDelay k) (2 * n - 1)
     = Some (Slept (baseDelay * backoffFactor ^ (Z.of_nat n - 1))) /\
     nth_error (backoff_trace role model baseDelay k) (2 * n)
     = Some (Invoked role model) /\
     List.length (backoff_trace role model baseDelay k) = (2 * k + 1)%nat)
  /\
  ((forall s, exists error s1,
       f model s = (Throw error, s1) /\ classify error = Ok Transient) ->
   events (snd (withRetry (invoke role f model) 3 2000 w))
   = events w ++ [Invoked role model; Slept 2000;
                  Invoked role model; Slept 4000;
                  Invoked role model; Slept 8000;
                  Invoked role model]).
Proof.
  split; [apply withRetry_run | split].
  - intros k n [Hn Hk]. split; [reflexivity |].
    destruct (backoff_trace_nth baseDelay role model k 0 (n - 1) ltac:(lia)) as [H1 H2].
    cbv zeta in H1, H2. unfold backoff_trace.
    replace (2 * n - 1)%nat with (Datatypes.S (2 * (n - 1))) by lia.
    replace (2 * n)%nat with (Datatypes.S (2 * (n - 1) + 1)) by lia.
    cbn [nth_error]. rewrite H1, H2. split; [| split; [reflexivity |]].
    + replace (Z.of_nat (0 + (n - 1))) with (Z.of_nat n - 1)%Z by lia. reflexivity.
    + apply backoff_trace_length.
  - intros Hf.
    destruct (withRetry_run role f model 3 2000%Z w) as (k & s & Hk & _ & Hlast & Hres).
    rewrite Hres. cbn [snd events].
    destruct Hlast as [-> | Hlast]; [reflexivity |].
    exfalso. destruct (Hf s) as (error & s1 & He & Hc).
    rewrite He in Hlast. exact (Hlast Hc).
Qed.

Lemma withRetry_backoff_schedule_witness :
  events (snd (withRetry (invoke Primary primary_overloaded PRIMARY_MODEL) 3 2000
                 (mkWorld 0%nat [])))
  = [Invoked Primary PRIMARY_MODEL; Slept 2000;
     Invoked Primary PRIMARY_MODEL; Slept 4000;
     Invoked Primary PRIMARY_MODEL; Slept 8000;
     Invoked Primary PRIMARY_MODEL].
Proof.
  apply (proj2 (proj2 (withRetry_backoff_schedule Primary primary_overloaded
                         PRIMARY_MODEL 3 2000 (mkWorld 0%nat [])))).
  intros s. eexists. eexists. split; reflexivity.
Defined.

(** ** Model fallback *)

(** Retrying the primary closure never calls the fallback closure. *)
Lemma withRetry_primary_calls {S A} (f : Task S A) (model : string) :
  forall retries baseDelay w,
    calls_of Fallback
      (events (snd (withRetry (invoke Primary f model) retries baseDelay w))) =
    calls_of Fallback (events w).
Proof.
  assert (Hstep : forall w,
    calls_of Fallback (events (snd (invoke Primary f model w))) =
    calls_of Fallback (events w)).
  { intros w. unfold invoke, perform, log. cbn [remote events].
    destruct (f model (remote w)) as [r s']. cbn [snd events].
    rewrite calls_of_app. cbn. apply app_nil_r. }
  induction retries as [| r IH]; intros baseDelay w.
  - simpl. specialize (Hstep w).
    destruct (invoke Primary f model w) as [[v | e] w1]; exact Hstep.
  - simpl. specialize (Hstep w).
    destruct (invoke Primary f model w) as [[v | error] w1]; [exact Hstep |].
    destruct (isQuotaError error) as [q | e]; [| exact Hstep].
    destruct (truthy q); [| exact Hstep].
    rewrite IH. unfold sleep, log. cbn [events].
    rewrite calls_of_app. cbn. rewrite app_nil_r. exact Hstep.
Qed.

(** C1.  Model fallback routing.  Let the primary closure, bound to
    [PRIMARY_MODEL] and run under [withRetry(_, 1, 1000)], end in a failure
    [error].  If [error] is Transient, the result is that of the fallback
    closure bound to [FALLBACK_MODEL] under [withRetry(_, 3, 2000)]; if the
    fallback closure then succeeds at its first call, it is called exactly
    once and its value is returned.  If [error] is Fatal, [error] itself is
    rethrown and the fallback closure is not called.  Without a [fallbackFn]
    argument the fallback closure is [primaryFn] itself. *)
Theorem withModelFallback_routing {S A} (primaryFn : Task S A)
    (fallbackFn : option (Task S A)) (w w1 : World S) (error : JsVal) :
  let fallback := match fallbackFn with Some f => f | None => primaryFn end in
  withRetry (invoke Primary primaryFn PRIMARY_MODEL) 1 1000 w = (Throw error, w1) ->
  (classify error = Ok Transient ->
     withModelFallback primaryFn fallbackFn w =
       withRetry (invoke Fallback fallback FALLBACK_MODEL) 3 2000 w1 /\
     forall v s', fallback FALLBACK_MODEL (remote w1) = (Ok v, s') ->
       exists w2,
         withModelFallback primaryFn fallbackFn w = (Ok v, w2) /\
         remote w2 = s' /\
         calls_of Fallback (events w2) =
           calls_of Fallback (events w) ++ [FALLBACK_MODEL])
  /\
  (classify error = Ok Fatal ->
     withModelFallback primaryFn fallbackFn w = (Throw error, w1) /\
     calls_of Fallback (events w1) = calls_of Fallback (events w))
  /\
  withModelFallback primaryFn None w = withModelFallback primaryFn (Some primaryFn) w.
Proof.
  intros fallback Hprim.
  assert (Hcalls : calls_of Fallback (events w1) = calls_of Fallback (events w)).
  { pose proof (withRetry_primary_calls primaryFn PRIMARY_MODEL 1 1000%Z w) as H.
    rewrite Hprim in H. exact H. }
  split; [| split; [| reflexivity]].
  - intros Hc. apply classify_transient in Hc. destruct Hc as (q & Hq & Ht).
    assert (Hroute : withModelFallback primaryFn fallbackFn w =
                     withRetry (invoke Fallback fallback FALLBACK_MODEL) 3 2000 w1).
    { unfold withModelFallback. fold fallback. rewrite Hprim, Hq, Ht. reflexivity. }
    split; [exact Hroute |].
    intros v s' Hfb.
    exists (mkWorld s' (events w1 ++ [Invoked Fallback FALLBACK_MODEL])).
    split; [| split].
    + rewrite Hroute. apply withRetry_success.
      unfold invoke, perform, log. cbn [remote events]. rewrite Hfb. reflexivity.
    + reflexivity.
    + cbn [events]. rewrite calls_of_app, Hcalls. reflexivity.
  - intros Hc. apply classify_fatal in Hc. destruct Hc as (q & Hq & Hf).
    split; [| exact Hcalls].
    unfold withModelFallback. rewrite Hprim, Hq, Hf. reflexivity.
Qed.

Lemma withModelFallback_routing_witness :
  (exists w2,
     withModelFallback primary_overloaded None (mkWorld 0%nat []) =
       (Ok (JStr "draft by gemini-2.5-flash"), w2) /\
     remote w2 = 3%nat /\
     calls_of Fallback (events w2) = [FALLBACK_MODEL]) /\
  withModelFallback primary_rejects (Some primary_overloaded) (mkWorld 0%nat []) =
    (Throw (JObj [("status", num 400); ("message", JStr "Invalid argument")]),
     mkWorld 1%nat [Invoked Primary PRIMARY_MODEL]).
Proof.
  split.
  - refine (proj2 (proj1 (withModelFallback_routing primary_overloaded None
             (mkWorld 0%nat [])
             (mkWorld 2%nat [Invoked Primary PRIMARY_MODEL; Slept 1000;
                             Invoked Primary PRIMARY_MODEL])
             (JObj [("status", num 503)]) _) _) _ _ _); reflexivity.
  - refine (proj1 (proj1 (proj2 (withModelFallback_routing primary_rejects
             (Some primary_overloaded) (mkWorld 0%nat [])
             (mkWorld 1%nat [Invoked Primary PRIMARY_MODEL])
             (JObj [("status", num 400); ("message", JStr "Invalid argument")])
             _)) _)); reflexivity.
Defined.

(** ** extractJson *)

(** *** Strings *)

Lemma strip_prefix_app (lit s rest : string) :
  strip_prefix lit s = Some rest -> s = (lit ++ rest)%string.
Proof.
  revert s. induction lit as [| a lit IH]; intros s H; simpl in *.
  - injection H as <-. reflexivity.
  - destruct s as [| b s]; [discriminate |].
    destruct (Ascii.eqb_spec a b); [| discriminate].
    subst b. f_equal. apply IH. exact H.
Qed.

Lemma strip_prefix_app_eq (lit rest : string) :
  strip_prefix lit (lit ++ rest) = Some rest.
Proof.
  induction lit as [| a lit IH]; simpl; [reflexivity |].
  rewrite Ascii.eqb_refl. exact IH.
Qed.

Lemma prefix_strip_prefix (lit s : string) :
  prefix lit s = true <-> strip_prefix lit s <> None.
Proof.
  revert s. induction lit as [| a lit IH]; intros s.
  - destruct s; simpl; split; first [discriminate | reflexivity].
  - destruct s as [| b s]; simpl; [split; [discriminate | congruence] |].
    destruct (ascii_dec a b) as [-> | Hne].
    + rewrite Ascii.eqb_refl. apply IH.
    + destruct (Ascii.eqb_spec a b); [contradiction |].
      split; [discriminate | congruence].
Qed.

Lemma prefix_false_strip_prefix (lit s : string) :
  prefix lit s = false <-> strip_prefix lit s = None.
Proof.
  pose proof (prefix_strip_prefix lit s) as H.
  destruct (prefix lit s), (strip_prefix lit s); split; intros; try reflexivity;
    try discriminate; exfalso.
  - apply (proj1 H); reflexivity.
  - assert (false = true) by (apply H; discriminate). discriminate.
Qed.

Lemma strip_fence_space (c : ascii) (s : string) :
  is_space c = true -> strip_prefix fence (String c s) = None.
Proof.
  intros Hc. unfold fence. cbn [strip_prefix].
  destruct (Ascii.eqb_spec "`"%char c) as [<- | _]; [discriminate Hc | reflexivity].
Qed.

Lemma trimStart_split (s : string) :
  exists ws, s = (ws ++ trimStart s)%string /\ all_space ws = true.
Proof.
  induction s as [| c s (ws & Heq & Hws)]; simpl.
  - exists EmptyString. split; reflexivity.
  - destruct (is_space c) eqn:Hc.
    + exists (String c ws). simpl. rewrite Hc, Hws. split; [f_equal; exact Heq | reflexivity].
    + exists EmptyString. split; reflexivity.
Qed.

Lemma trimStart_app_spaces (ws s : string) :
  all_space ws = true -> trimStart (ws ++ s) = trimStart s.
Proof.
  induction ws as [| c ws IH]; simpl; [reflexivity |].
  intros H. apply andb_true_iff in H. destruct H as [Hc Hws].
  rewrite Hc. apply IH. exact Hws.
Qed.

Lemma trimStart_spaces (ws : string) :
  all_space ws = true -> trimStart ws = EmptyString.
Proof.
  induction ws as [| c ws IH]; simpl; [reflexivity |].
  intros H. apply andb_true_iff in H. destruct H as [Hc Hws].
  rewrite Hc. apply IH. exact Hws.
Qed.

Lemma trimEnd_spaces (ws : string) :
  all_space ws = true -> trimEnd ws = EmptyString.
Proof.
  induction ws as [| c ws IH]; simpl; [reflexivity |].
  intros H. apply andb_true_iff in H. destruct H as [Hc Hws].
  rewrite (IH Hws), Hc. reflexivity.
Qed.

Lemma trimEnd_app_spaces (s ws : string) :
  all_space ws = true -> trimEnd (s ++ ws) = trimEnd s.
Proof.
  intros Hws. induction s as [| c s IH]; simpl.
  - apply trimEnd_spaces. exact Hws.
  - rewrite IH. reflexivity.
Qed.

Lemma trim_app_spaces (ws1 s ws2 : string) :
  all_space ws1 = true -> all_space ws2 = true ->
  trim (ws1 ++ s ++ ws2) = trim s.
Proof.
  intros H1 H2. unfold trim. rewrite (trimStart_app_spaces ws1 _ H1).
  clear ws1 H1. induction s as [| c s IH]; simpl.
  - rewrite (trimStart_spaces ws2 H2). reflexivity.
  - destruct (is_space c); [exact IH |].
    change (String c (s ++ ws2)) with (String c s ++ ws2)%string.
    apply trimEnd_app_spaces. exact H2.
Qed.

Lemma take_app_length (a b : string) : take (String.length a) (a ++ b) = a.
Proof.
  unfold take. induction a as [| c a IH]; simpl.
  - destruct b; reflexivity.
  - f_equal. exact IH.
Qed.

Lemma string_length_app (a b : string) :
  String.length (a ++ b) = (String.length a + String.length b)%nat.
Proof. induction a as [| x a IH]; simpl; [reflexivity | f_equal; exact IH]. Qed.

Lemma consumed_app (pre t : string) : consumed (pre ++ t) t = pre.
Proof.
  unfold consumed. rewrite string_length_app, Nat.add_sub.
  apply take_app_length.
Qed.

Lemma string_app_assoc (a b c : string) :
  ((a ++ b) ++ c = a ++ (b ++ c))%string.
Proof. induction a as [| x a IH]; simpl; [reflexivity | f_equal; exact IH]. Qed.

Lemma string_app_nil_r (a : string) : (a ++ EmptyString)%string = a.
Proof. induction a as [| x a IH]; simpl; [reflexivity | f_equal; exact IH]. Qed.

Lemma drop_add (n m : nat) (s : string) : drop (n + m) s = drop m (drop n s).
Proof.
  revert s. induction n as [| n IH]; intros s; simpl; [reflexivity |].
  destruct s as [| c s]; [destruct m; reflexivity | apply IH].
Qed.

(** *** The fence regex *)

Lemma star_greedy_ext p s k k' :
  (forall t, k t = k' t) -> star_greedy p s k = star_greedy p s k'.
Proof.
  intros H. induction s as [| c s IH]; simpl; [apply H |].
  rewrite IH, H. reflexivity.
Qed.

Lemma star_lazy_ext p s k k' :
  (forall t, k t = k' t) -> star_lazy p s k = star_lazy p s k'.
Proof.
  intros H. induction s as [| c s IH]; simpl; rewrite H; [reflexivity |].
  rewrite IH. reflexivity.
Qed.

(** Greedy white space in front of the closing fence: only the longest run
    can be followed by a backtick. *)
Lemma star_greedy_close (s : string) (m : option (option string)) :
  star_greedy is_space s
    (fun t => match strip_prefix fence t with Some _ => m | None => None end) =
  match strip_prefix fence (trimStart s) with Some _ => m | None => None end.
Proof.
  induction s as [| c s IH]; [reflexivity |].
  cbn [star_greedy trimStart]. destruct (is_space c) eqn:Hc; [| reflexivity].
  rewrite IH, (strip_fence_space c s Hc).
  destruct (strip_prefix fence (trimStart s)); [destruct m |]; reflexivity.
Qed.

(** The lazy group: the shortest capture after which the closing part
    matches. *)
Lemma star_lazy_capture (t pre : string) :
  star_lazy any_char t
    (fun t2 => match strip_prefix fence (trimStart t2) with
               | Some _ => Some (Some (consumed (pre ++ t) t2))
               | None => None
               end) =
  option_map (fun c => Some (pre ++ c)%string) (until_fence t).
Proof.
  revert pre. induction t as [| c t IH]; intros pre.
  - reflexivity.
  - cbn [star_lazy until_fence].
    destruct (strip_prefix fence (trimStart (String c t))).
    + cbn. rewrite consumed_app, string_app_nil_r. reflexivity.
    + cbn [any_char].
      replace (pre ++ String c t)%string with ((pre ++ String c EmptyString) ++ t)%string
        by (rewrite string_app_assoc; reflexivity).
      rewrite IH. destruct (until_fence t); cbn; [| reflexivity].
      rewrite string_app_assoc. reflexivity.
Qed.

Lemma until_fence_space (c : ascii) (t : string) :
  is_space c = true -> until_fence t = None -> until_fence (String c t) = None.
Proof.
  intros Hc Ht. cbn [until_fence trimStart]. rewrite Hc.
  destruct t as [| c' t']; cbn [until_fence] in Ht |- *.
  - cbn in *. reflexivity.
  - destruct (strip_prefix fence (trimStart (String c' t'))); [discriminate |].
    rewrite Ht. reflexivity.
Qed.

Lemma until_fence_trimStart_none (t : string) :
  until_fence (trimStart t) = None -> until_fence t = None.
Proof.
  induction t as [| c t IH]; cbn [trimStart]; [trivial |].
  destruct (is_space c) eqn:Hc; [| trivial].
  intros H. apply until_fence_space; [exact Hc | apply IH; exact H].
Qed.

Lemma match_at_fence (s : string) :
  match_at fence_regex s =
  match strip_prefix fence s with
  | None => None
  | Some s1 =>
      match match strip_prefix "json" s1 with
            | Some s2 => fence_tail s2
            | None => None
            end with
      | Some m => Some m
      | None => fence_tail s1
      end
  end.
Proof. reflexivity. Qed.

Lemma fence_tail_capture (t : string) :
  fence_tail t = option_map Some (until_fence (trimStart t)).
Proof.
  unfold fence_tail.
  rewrite (star_greedy_ext is_space t _
             (fun t1 => option_map Some (until_fence t1))).
  - induction t as [| c t IH]; [reflexivity |].
    cbn [star_greedy trimStart]. destruct (is_space c) eqn:Hc; [| reflexivity].
    rewrite IH. destruct (until_fence (trimStart t)) eqn:Hu; [reflexivity |].
    rewrite (until_fence_space c t Hc (until_fence_trimStart_none t Hu)).
    reflexivity.
  - intros t1.
    rewrite (star_lazy_ext any_char t1 _
               (fun t2 => match strip_prefix fence (trimStart t2) with
                          | Some _ => Some (Some (consumed (EmptyString ++ t1) t2))
                          | None => None
                          end)).
    + rewrite star_lazy_capture. destruct (until_fence t1); reflexivity.
    + intros t2. apply star_greedy_close.
Qed.

Lemma strip_fence_trimStart (s : string) :
  strip_prefix fence (trimStart s) = None -> strip_prefix fence s = None.
Proof.
  destruct s as [| c s]; cbn [trimStart]; [trivial |].
  destruct (is_space c) eqn:Hc; [| trivial].
  intros _. apply strip_fence_space. exact Hc.
Qed.

Lemma indexOf_unfold (needle hay : string) :
  indexOf needle hay =
  if prefix needle hay then Some 0%nat
  else match hay with
       | EmptyString => None
       | String _ rest => option_map S (indexOf needle rest)
       end.
Proof. destruct hay; reflexivity. Qed.

Lemma indexOf_fence_here (s : string) :
  strip_prefix fence s <> None -> indexOf fence s = Some 0%nat.
Proof.
  intros H. apply prefix_strip_prefix in H.
  rewrite indexOf_unfold, H. reflexivity.
Qed.

Lemma indexOf_fence_cons (c : ascii) (s : string) :
  strip_prefix fence (String c s) = None ->
  indexOf fence (String c s) = option_map S (indexOf fence s).
Proof.
  intros H. apply prefix_false_strip_prefix in H.
  rewrite indexOf_unfold, H. reflexivity.
Qed.

Lemma indexOf_fence_later (c : ascii) (s : string) :
  indexOf fence s <> None -> indexOf fence (String c s) <> None.
Proof.
  intros H. rewrite indexOf_unfold.
  destruct (prefix fence (String c s)); [discriminate |].
  destruct (indexOf fence s); [discriminate | contradiction].
Qed.

Lemma indexOf_fence_drop (k : nat) (s : string) :
  indexOf fence (drop k s) <> None -> indexOf fence s <> None.
Proof.
  revert s. induction k as [| k IH]; intros s; cbn [drop]; [trivial |].
  destruct s as [| c s]; [trivial |].
  intros H. apply indexOf_fence_later, IH, H.
Qed.

Lemma indexOf_spaces (ws t : string) :
  all_space ws = true ->
  indexOf fence (ws ++ t) = option_map (Nat.add (String.length ws)) (indexOf fence t).
Proof.
  induction ws as [| c ws IH]; intros H.
  - cbn. destruct (indexOf fence t); reflexivity.
  - cbn [all_space] in H. apply andb_true_iff in H. destruct H as [Hc Hws].
    cbn [append]. rewrite (indexOf_fence_cons c _ (strip_fence_space c _ Hc)).
    rewrite (IH Hws). destruct (indexOf fence t); reflexivity.
Qed.

Lemma until_fence_none (t : string) :
  until_fence t = None -> indexOf fence t = None.
Proof.
  induction t as [| c t IH]; [reflexivity |].
  cbn [until_fence].
  destruct (strip_prefix fence (trimStart (String c t))) eqn:Hs; [discriminate |].
  intros H. rewrite (indexOf_fence_cons c t (strip_fence_trimStart _ Hs)).
  destruct (until_fence t); [discriminate |].
  rewrite IH; reflexivity.
Qed.

Lemma until_fence_some (t cap : string) :
  until_fence t = Some cap ->
  exists ws rest,
    t = (cap ++ ws ++ fence ++ rest)%string /\ all_space ws = true /\
    indexOf fence t = Some (String.length (cap ++ ws)).
Proof.
  revert cap. induction t as [| c t IH]; intros cap; [discriminate |].
  cbn [until_fence].
  destruct (strip_prefix fence (trimStart (String c t))) as [r |] eqn:Hs.
  - intros H. injection H as <-.
    destruct (trimStart_split (String c t)) as (ws & Heq & Hws).
    exists ws, r. rewrite (strip_prefix_app _ _ _ Hs) in Heq.
    split; [exact Heq |]. split; [exact Hws |].
    rewrite Heq at 1. rewrite (indexOf_spaces ws _ Hws).
    rewrite indexOf_fence_here by (rewrite strip_prefix_app_eq; discriminate).
    cbn. rewrite Nat.add_0_r. reflexivity.
  - destruct (until_fence t) as [cap' |]; [| discriminate].
    intros H. injection H as <-.
    destruct (IH cap' eq_refl) as (ws & rest & Heq & Hws & Hidx).
    exists ws, rest. split; [cbn; f_equal; exact Heq |]. split; [exact Hws |].
    rewrite (indexOf_fence_cons c t (strip_fence_trimStart _ Hs)), Hidx.
    reflexivity.
Qed.

(** The capture and the interior agree up to surrounding white space. *)
Lemma until_fence_interior (x : string) (j : nat) :
  indexOf fence x = Some j ->
  exists cap, until_fence (trimStart x) = Some cap /\ trim cap = trim (take j x).
Proof.
  intros Hj. destruct (trimStart_split x) as (ws1 & Heq & Hws1).
  rewrite Heq, (indexOf_spaces ws1 _ Hws1) in Hj.
  destruct (until_fence (trimStart x)) as [cap |] eqn:Hu.
  - exists cap. split; [reflexivity |].
    destruct (until_fence_some _ _ Hu) as (ws2 & rest & Ht & Hws2 & Hidx).
    rewrite Hidx in Hj. cbn in Hj. injection Hj as <-.
    rewrite Heq, Ht.
    rewrite <- string_length_app.
    replace (ws1 ++ cap ++ ws2 ++ fence ++ rest)%string
      with ((ws1 ++ cap ++ ws2) ++ fence ++ rest)%string
      by (rewrite !string_app_assoc; reflexivity).
    rewrite take_app_length, trim_app_spaces; [reflexivity | exact Hws1 | exact Hws2].
  - rewrite (until_fence_none _ Hu) in Hj. discriminate.
Qed.

Lemma fence_tail_some (x : string) (m : option string) :
  fence_tail x = Some m -> indexOf fence x <> None.
Proof.
  rewrite fence_tail_capture.
  destruct (until_fence (trimStart x)) as [cap |] eqn:Hu; [| discriminate].
  intros _. destruct (until_fence_some _ _ Hu) as (ws & rest & _ & _ & Hidx).
  destruct (trimStart_split x) as (ws1 & Heq & Hws1).
  rewrite Heq, (indexOf_spaces ws1 _ Hws1), Hidx. discriminate.
Qed.

Lemma indexOf_fence_json (s1 s2 : string) :
  strip_prefix "json" s1 = Some s2 -> indexOf fence s2 <> None ->
  indexOf fence s1 <> None.
Proof.
  intros Hs H. rewrite (strip_prefix_app _ _ _ Hs).
  cbn [append]. repeat apply indexOf_fence_later. exact H.
Qed.

Lemma match_at_fence_some (t : string) (m : option string) :
  match_at fence_regex t = Some m -> indexOf fence (drop 3 t) <> None.
Proof.
  rewrite match_at_fence.
  destruct (strip_prefix fence t) as [s1 |] eqn:Hs; [| discriminate].
  rewrite (strip_prefix_app _ _ _ Hs). cbn [fence append drop].
  destruct (strip_prefix "json" s1) as [s2 |] eqn:Hj.
  - destruct (fence_tail s2) eqn:H2.
    + intros _. eapply indexOf_fence_json; [exact Hj |].
      eapply fence_tail_some. exact H2.
    + apply fence_tail_some.
  - apply fence_tail_some.
Qed.

Lemma exec_from_unfold (r : Regex) (s : string) (i : nat) :
  exec_from r s i =
  match match_at r s with
  | Some cap => Some (i, cap)
  | None =>
      match s with
      | String _ rest => exec_from r rest (S i)
      | EmptyString => None
      end
  end.
Proof. destruct s; reflexivity. Qed.

(** No fence three characters on or later: no match from here on. *)
Lemma exec_from_fence_none (s : string) :
  indexOf fence (drop 3 s) = None -> forall n, exec_from fence_regex s n = None.
Proof.
  induction s as [| c s IH]; intros H n; rewrite exec_from_unfold.
  - destruct (match_at fence_regex EmptyString) eqn:Hm; [| reflexivity].
    apply match_at_fence_some in Hm. contradiction.
  - destruct (match_at fence_regex (String c s)) eqn:Hm.
    + apply match_at_fence_some in Hm. contradiction.
    + apply IH.
      destruct (indexOf fence (drop 3 s)) eqn:Hd; [| reflexivity].
      exfalso. apply (indexOf_fence_drop 1 (drop 2 s)); [| exact H].
      replace (drop 1 (drop 2 s)) with (drop 3 s) by (apply (drop_add 2 1)).
      rewrite Hd. discriminate.
Qed.

(** Before the first fence no start position matches. *)
Lemma exec_from_fence_skip (s : string) (i : nat) :
  indexOf fence s = Some i ->
  strip_prefix fence (drop i s) <> None /\
  forall n, exec_from fence_regex s n = exec_from fence_regex (drop i s) (n + i).
Proof.
  revert i. induction s as [| c s IH]; intros i; [discriminate |].
  rewrite indexOf_unfold.
  destruct (prefix fence (String c s)) eqn:Hp.
  - intros H. injection H as <-. cbn [drop]. split.
    + apply prefix_strip_prefix. exact Hp.
    + intros n. rewrite Nat.add_0_r. reflexivity.
  - destruct (indexOf fence s) as [i' |]; [| discriminate].
    intros H. injection H as <-. cbn [drop].
    destruct (IH i' eq_refl) as [Hs Hexec]. split; [exact Hs |].
    intros n. rewrite exec_from_unfold, match_at_fence.
    rewrite (proj1 (prefix_false_strip_prefix _ _) Hp).
    rewrite Hexec. f_equal. lia.
Qed.

(** The regex match of the source against the fenced block of the
    specification. *)
Lemma js_match_fence (text : string) :
  match fence_interior text with
  | Some body =>
      exists cap, js_match fence_regex text = Some (Some cap) /\ trim cap = trim body
  | None => js_match fence_regex text = None
  end.
Proof.
  unfold fence_interior, js_match.
  destruct (indexOf fence text) as [i |] eqn:Hi.
  - destruct (exec_from_fence_skip text i Hi) as [Hs Hexec].
    rewrite Hexec. clear Hexec.
    rewrite (drop_add i 3 text).
    destruct (strip_prefix fence (drop i text)) as [s1 |] eqn:Hs1; [| contradiction].
    assert (Hd : drop 3 (drop i text) = s1).
    { rewrite (strip_prefix_app _ _ _ Hs1). reflexivity. }
    rewrite Hd.
    assert (Hnone : indexOf fence s1 = None ->
                    option_map snd (exec_from fence_regex (drop i text) (0 + i)) = None).
    { intros Hn. rewrite exec_from_fence_none; [reflexivity |]. rewrite Hd. exact Hn. }
    assert (Hsome : forall m, match_at fence_regex (drop i text) = Some m ->
                    option_map snd (exec_from fence_regex (drop i text) (0 + i)) = Some m).
    { intros m Hm. rewrite exec_from_unfold, Hm. reflexivity. }
    assert (Hm := match_at_fence (drop i text)). rewrite Hs1 in Hm.
    destruct (strip_prefix "json" s1) as [s2 |] eqn:Hj.
    + destruct (indexOf fence s2) as [j |] eqn:Hq.
      * destruct (until_fence_interior s2 j Hq) as (cap & Hu & Ht).
        exists cap. split; [| exact Ht]. apply Hsome.
        rewrite Hm, fence_tail_capture, Hu. reflexivity.
      * apply Hnone.
        destruct (indexOf fence s1) eqn:H1; [| reflexivity].
        rewrite (strip_prefix_app _ _ _ Hj) in H1. cbn [append] in H1.
        rewrite !indexOf_fence_cons in H1 by reflexivity.
        rewrite Hq in H1. discriminate.
    + destruct (indexOf fence s1) as [j |] eqn:Hq.
      * destruct (until_fence_interior s1 j Hq) as (cap & Hu & Ht).
        exists cap. split; [| exact Ht]. apply Hsome.
        rewrite Hm, fence_tail_capture, Hu. reflexivity.
      * apply Hnone. reflexivity.
  - rewrite exec_from_fence_none; [reflexivity |].
    destruct (indexOf fence (drop 3 text)) eqn:Hd; [| reflexivity].
    exfalso. apply (indexOf_fence_drop 3 text); [| exact Hi].
    rewrite Hd. discriminate.
Qed.

(** *** The bracket fallback *)

Lemma exec_from_set (p : ascii -> bool) (s : string) (n : nat) :
  exec_from (RSet p) s n =
  option_map (fun ic => ((n + fst ic)%nat, None)) (find_first p s).
Proof.
  revert n. induction s as [| c s IH]; intros n; [reflexivity |].
  cbn [exec_from match_at rmatch find_first].
  destruct (p c).
  - cbn. rewrite Nat.add_0_r. reflexivity.
  - rewrite IH. destruct (find_first p s) as [[i c'] |]; cbn; [| reflexivity].
    do 2 f_equal. lia.
Qed.

Lemma js_search_set (p : ascii -> bool) (text : string) :
  js_search (RSet p) text =
  match find_first p text with
  | Some (i, _) => Z.of_nat i
  | None => (-1)%Z
  end.
Proof.
  unfold js_search. rewrite exec_from_set.
  destruct (find_first p text) as [[i c] |]; reflexivity.
Qed.

Lemma find_first_get (p : ascii -> bool) (s : string) (i : nat) (c : ascii) :
  find_first p s = Some (i, c) ->
  String.get i s = Some c /\ (i < String.length s)%nat.
Proof.
  revert i. induction s as [| c' s IH]; intros i; cbn [find_first]; [discriminate |].
  destruct (p c').
  - intros H. injection H as <- <-. cbn. split; [reflexivity | lia].
  - destruct (find_first p s) as [[i' c''] |]; [| discriminate].
    cbn. intros H. injection H as <- <-.
    destruct (IH i' eq_refl) as [Hg Hl]. cbn. split; [exact Hg | lia].
Qed.

Lemma lastIndexOf_find_last (c : ascii) (s : string) :
  lastIndexOf c s =
  match find_last c s with
  | Some j => Z.of_nat j
  | None => (-1)%Z
  end.
Proof.
  induction s as [| c' s IH]; [reflexivity |].
  cbn [lastIndexOf find_last]. rewrite IH.
  destruct (find_last c s) as [j |].
  - destruct (Z.eqb_spec (Z.of_nat j) (-1)); lia.
  - cbn. destruct (Ascii.eqb c' c); reflexivity.
Qed.

Lemma find_last_none (c : ascii) (s : string) :
  find_last c s = None ->
  forall k c', String.get k s = Some c' -> c' <> c.
Proof.
  induction s as [| c0 s IH]; cbn [find_last]; [intros _ k c'; discriminate |].
  destruct (find_last c s); [discriminate |].
  destruct (Ascii.eqb_spec c0 c) as [| Hne]; [discriminate |].
  intros _ k c'. destruct k as [| k]; cbn.
  - intros H. injection H as <-. exact Hne.
  - apply IH. reflexivity.
Qed.

Lemma find_last_spec (c : ascii) (s : string) (j : nat) :
  find_last c s = Some j ->
  String.get j s = Some c /\ (j < String.length s)%nat /\
  forall k c', (j < k)%nat -> String.get k s = Some c' -> c' <> c.
Proof.
  revert j. induction s as [| c0 s IH]; intros j; cbn [find_last]; [discriminate |].
  destruct (find_last c s) as [j' |] eqn:Hl.
  - intros H. injection H as <-.
    destruct (IH j' eq_refl) as (Hg & Hlt & Hlast).
    cbn. split; [exact Hg |]. split; [lia |].
    intros k c' Hk. destruct k as [| k]; [lia |]. cbn. apply Hlast. lia.
  - destruct (Ascii.eqb_spec c0 c) as [-> | Hne]; [| discriminate].
    intros H. injection H as <-. cbn. split; [reflexivity |]. split; [lia |].
    intros k c' Hk. destruct k as [| k]; [lia |]. cbn.
    apply (find_last_none c s Hl).
Qed.

Lemma js_substring_inclusive (i j : nat) (text : string) :
  (i <= j)%nat -> (j < String.length text)%nat ->
  js_substring (Z.of_nat i) (Z.of_nat j + 1) text = substring i (j - i + 1) text.
Proof.
  intros Hij Hj. unfold js_substring. cbv zeta.
  replace (Z.max 0 (Z.min (Z.of_nat i) (Z.of_nat (String.length text))))
    with (Z.of_nat i) by lia.
  replace (Z.max 0 (Z.min (Z.of_nat j + 1) (Z.of_nat (String.length text))))
    with (Z.of_nat j + 1)%Z by lia.
  replace (Z.min (Z.of_nat i) (Z.of_nat j + 1)) with (Z.of_nat i) by lia.
  replace (Z.max (Z.of_nat i) (Z.of_nat j + 1)) with (Z.of_nat j + 1)%Z by lia.
  f_equal; lia.
Qed.

(** C4 (as amended).  For every text, [extractJson] returns (1) the trimmed
    interior of the first fenced block (with an optional [json] tag) when
    there is one; otherwise (2) when the text has a ['{'] or ['['] and the
    closing character of the first one occurs at or after it, the substring
    from that opening character to the last such closing character, both
    included; (3) the trimmed text when there is no opening character, or
    no closing character at all.  The two examples of the specification
    hold.  (The function is total: it cannot throw.) *)
Theorem extractJson_priority (text : string) :
  (forall body, fence_interior text = Some body -> extractJson text = trim body) /\
  (fence_interior text = None ->
   forall i c, find_first is_open text = Some (i, c) ->
     (forall j, find_last (closer_of c) text = Some j -> (i <= j)%nat ->
                extractJson text = substring i (j - i + 1) text) /\
     (find_last (closer_of c) text = None -> extractJson text = trim text)) /\
  (fence_interior text = None -> find_first is_open text = None ->
   extractJson text = trim text) /\
  extractJson bare_json_text = bare_json /\
  extractJson fenced_text = "[1,2,3]".
Proof.
  pose proof (js_match_fence text) as Hf.
  split; [| split; [| split; [| split; reflexivity]]].
  - intros body Hb. rewrite Hb in Hf. destruct Hf as (cap & Hm & Ht).
    unfold extractJson. rewrite Hm. exact Ht.
  - intros Hn i c Hi. rewrite Hn in Hf.
    destruct (find_first_get _ _ _ _ Hi) as [Hg Hlt].
    assert (Hc : (if char_at_is text (Z.of_nat i) "{" then "}"%char else "]"%char)
                 = closer_of c).
    { unfold char_at_is, closer_of. rewrite Nat2Z.id, Hg.
      destruct (Z.leb_spec 0 (Z.of_nat i)); [reflexivity | lia]. }
    assert (Hopen : js_search open_regex text = Z.of_nat i).
    { unfold open_regex. rewrite js_search_set, Hi. reflexivity. }
    unfold extractJson. rewrite Hf. cbv zeta. rewrite Hopen, Hc.
    destruct (Z.eqb_spec (Z.of_nat i) (-1)) as [Hneg | _]; [lia |]. cbn [negb].
    rewrite lastIndexOf_find_last. split.
    + intros j Hj Hij. rewrite Hj.
      destruct (Z.eqb_spec (Z.of_nat j) (-1)) as [Hneg | _]; [lia |]. cbn [negb].
      apply js_substring_inclusive; [exact Hij |].
      apply (find_last_spec _ _ _ Hj).
    + intros Hj. rewrite Hj. reflexivity.
  - intros Hn Hi. rewrite Hn in Hf.
    unfold extractJson. rewrite Hf. cbv zeta.
    unfold open_regex. rewrite js_search_set, Hi. reflexivity.
Qed.

Lemma extractJson_priority_witness :
  extractJson fenced_text = trim (nl ++ "[1,2,3]" ++ nl) /\
  extractJson bare_json_text = substring 7 (13 - 7 + 1) bare_json_text /\
  extractJson " [1, 2 " = trim " [1, 2 " /\
  extractJson " no json here " = trim " no json here ".
Proof.
  split; [| split; [| split]].
  - apply (proj1 (extractJson_priority fenced_text)). reflexivity.
  - apply (proj1 (proj1 (proj2 (extractJson_priority bare_json_text))
                    eq_refl 7%nat "{"%char eq_refl) 13%nat); [reflexivity | lia].
  - apply (proj2 (proj1 (proj2 (extractJson_priority " [1, 2 "))
                    eq_refl 1%nat "["%char eq_refl)). reflexivity.
  - apply (proj1 (proj2 (proj2 (extractJson_priority " no json here ")))); reflexivity.
Defined.

(** C4, as stated, fails where the text opens a brace it never closes: the
    trimmed text comes back, not a substring ending in the closing
    character.  Where the only closing brace precedes the opening one, what
    comes back is the text between the two. *)
Lemma extractJson_open_without_close :
  fence_interior " {" = None /\
  find_first is_open " {" = Some (1%nat, "{"%char) /\
  extractJson " {" = "{" /\
  ~ (exists j, find_last (closer_of "{") " {" = Some j /\
               extractJson " {" = substring 1 (j - 1 + 1) " {") /\
  find_first is_open "} {" = Some (2%nat, "{"%char) /\
  find_last (closer_of "{") "} {" = Some 0%nat /\
  extractJson "} {" = " ".
Proof.
  repeat split. intros (j & Hj & _). discriminate Hj.
Qed.

(** ** Webhook responses *)

Lemma get_get_opt (v : JsVal) (name : string) :
  nullish v = false -> get v name = Ok (get_opt v name).
Proof. destruct v; intros H; try discriminate H; reflexivity. Qed.

Lemma ranked_keyword_canonical (kw : JsVal) :
  nullish kw = false -> ranked_keyword kw = Ok (canonical_ranked_keyword kw).
Proof.
  intros H. unfold ranked_keyword, field_or, canonical_ranked_keyword.
  rewrite !(get_get_opt kw _ H). cbn [bind pick]. unfold js_or.
  destruct (truthy (get_opt kw "Keyword")); cbn [bind]; reflexivity.
Qed.

Lemma map_ranked_keyword (entries : list JsVal) :
  forallb (fun kw => negb (nullish kw)) entries = true ->
  map_result ranked_keyword entries = Ok (map canonical_ranked_keyword entries).
Proof.
  induction entries as [| kw entries IH]; [reflexivity |].
  cbn [forallb map_result map]. intros H. apply andb_true_iff in H.
  destruct H as [Hkw Hrest].
  rewrite ranked_keyword_canonical by (destruct (nullish kw); [discriminate | reflexivity]).
  cbn [bind]. rewrite (IH Hrest). reflexivity.
Qed.

(** C6 (as amended).  For every [data] whose keyword collection is an array
    of entries none of which is [null] or [undefined], the
    [page_ranked_keywords] normalizer returns (does not throw) one record
    per entry; when the collection is no array it returns the empty array.
    In each record a missing field takes its default: 0 for competition,
    cpc, search_volume and difficulty, 'UNKNOWN' for competition_level,
    'unknown' for intent, the empty string for keyword; and keyword is the
    first truthy one of the variants 'Keyword', 'keyword', in this order. *)
Theorem page_ranked_keywords_defaults (data : JsVal) :
  (forall entries,
     nested_or_direct data "ranked_keywords" = JArr entries ->
     forallb (fun kw => negb (nullish kw)) entries = true ->
     normalize_page_ranked_keywords data =
       Ok (JArr (map canonical_ranked_keyword entries))) /\
  (isArray (nested_or_direct data "ranked_keywords") = false ->
     normalize_page_ranked_keywords data = Ok (JArr [])) /\
  (forall fields name fallback,
     lookup name fields = None -> pick (JObj fields) [name] fallback = fallback) /\
  (forall fields,
     lookup "Keyword" fields = None -> lookup "keyword" fields = None ->
     pick (JObj fields) ["Keyword"; "keyword"] (JStr "") = JStr "") /\
  (forall fields v,
     lookup "Keyword" fields = Some v -> truthy v = true ->
     pick (JObj fields) ["Keyword"; "keyword"] (JStr "") = v) /\
  (forall fields v,
     truthy (get_opt (JObj fields) "Keyword") = false ->
     lookup "keyword" fields = Some v -> truthy v = true ->
     pick (JObj fields) ["Keyword"; "keyword"] (JStr "") = v).
Proof.
  repeat split.
  - intros entries Hc Hall. unfold normalize_page_ranked_keywords.
    rewrite Hc, (map_ranked_keyword entries Hall). reflexivity.
  - intros Hc. unfold normalize_page_ranked_keywords.
    destruct (nested_or_direct data "ranked_keywords"); try reflexivity.
    discriminate Hc.
  - intros fields name fallback Hl. cbn. rewrite Hl. reflexivity.
  - intros fields H1 H2. cbn. rewrite H1, H2. reflexivity.
  - intros fields v Hl Hv. cbn. rewrite Hl, Hv. reflexivity.
  - intros fields v Hk Hl Hv. cbn [pick]. rewrite Hk.
    cbn. rewrite Hl, Hv. reflexivity.
Qed.

Lemma page_ranked_keywords_defaults_witness :
  normalize_page_ranked_keywords
    (JObj [("ranked_keywords", JArr [JObj [("keyword", JStr "seo"); ("cpc", JNum (3 # 2))]])]) =
  Ok (JArr [JObj [("keyword", JStr "seo");
                  ("competition", num 0);
                  ("competition_level", JStr "UNKNOWN");
                  ("cpc", JNum (3 # 2));
                  ("search_volume", num 0);
                  ("difficulty", num 0);
                  ("intent", JStr "unknown")]]) /\
  normalize_page_ranked_keywords (JObj [("ranked_keywords", JStr "none")]) = Ok (JArr []) /\
  pick (JObj [("keyword", JStr "seo")]) ["cpc"] (num 0) = num 0 /\
  pick (JObj []) ["Keyword"; "keyword"] (JStr "") = JStr "" /\
  pick (JObj [("Keyword", JStr "SEO"); ("keyword", JStr "seo")])
       ["Keyword"; "keyword"] (JStr "") = JStr "SEO" /\
  pick (JObj [("Keyword", JNull); ("keyword", JStr "seo")])
       ["Keyword"; "keyword"] (JStr "") = JStr "seo".
Proof.
  split; [| split; [| split; [| split; [| split]]]].
  - exact (proj1 (page_ranked_keywords_defaults
             (JObj [("ranked_keywords",
                     JArr [JObj [("keyword", JStr "seo"); ("cpc", JNum (3 # 2))]])]))
             [JObj [("keyword", JStr "seo"); ("cpc", JNum (3 # 2))]] eq_refl eq_refl).
  - apply (proj1 (proj2 (page_ranked_keywords_defaults
             (JObj [("ranked_keywords", JStr "none")])))). reflexivity.
  - apply (proj1 (proj2 (proj2 (page_ranked_keywords_defaults JNull)))). reflexivity.
  - apply (proj1 (proj2 (proj2 (proj2 (page_ranked_keywords_defaults JNull)))));
      reflexivity.
  - apply (proj1 (proj2 (proj2 (proj2 (proj2 (page_ranked_keywords_defaults JNull))))));
      reflexivity.
  - apply (proj2 (proj2 (proj2 (proj2 (proj2 (page_ranked_keywords_defaults JNull))))));
      reflexivity.
Defined.

(** C6, as stated, fails on an entry whose 'Keyword' variant is present
    but empty: the 'keyword' variant is preferred to it.  It also fails on
    a [null] entry, on which the normalizer throws. *)
Lemma ranked_keyword_present_variant_skipped :
  lookup "Keyword" [("Keyword", JStr ""); ("keyword", JStr "seo")] = Some (JStr "") /\
  normalize_page_ranked_keywords
    (JObj [("ranked_keywords",
            JArr [JObj [("Keyword", JStr ""); ("keyword", JStr "seo")]])]) =
    Ok (JArr [JObj [("keyword", JStr "seo");
                    ("competition", num 0);
                    ("competition_level", JStr "UNKNOWN");
                    ("cpc", num 0);
                    ("search_volume", num 0);
                    ("difficulty", num 0);
                    ("intent", JStr "unknown")]]) /\
  normalize_page_ranked_keywords null_entry_value =
    Throw (TypeError "Cannot read properties of null (reading 'Keyword')").
Proof. repeat split. Qed.

(** C8.  An empty body of a successful response gives the empty result of
    the function ([[]] or [null]), not an error.  But a syntactically valid
    body can make a normalizer throw: a [null] entry in [ranked_keywords]
    does, and what [callWebhookTool] returns is then a rejection. *)
Theorem callWebhookTool_null_entry_throws (h : Host) :
  (forall func status,
     callWebhookTool h func (Ok (mkResponse true status "")) = Ok (empty_result func)) /\
  normalizeResponse h page_ranked_keywords (JObj [("ranked_keywords", JArr [JNull])]) =
    Throw (TypeError "Cannot read properties of null (reading 'Keyword')") /\
  normalizeResponse h suggested_keywords (JObj [("related_keyword", JArr [JNull])]) =
    Throw (TypeError "Cannot read properties of null (reading 'keyword')") /\
  normalizeResponse h url_map (JObj [("internal_links", JArr [JObj [("url", JStr "")]])]) =
    Throw (TypeError "Cannot read properties of undefined (reading 'split')") /\
  normalizeResponse h url_map (JObj [("internal_links", JArr [JNull])]) = Ok (JArr []) /\
  callWebhookTool (table_host [(null_entry_body, null_entry_value)]) page_ranked_keywords
    (Ok (mkResponse true 200 null_entry_body)) =
    Throw (Error ("Failed to get data from custom tool: page_ranked_keywords. "
                  ++ "Cannot read properties of null (reading 'Keyword')")).
Proof.
  split; [| repeat split].
  intros func status. reflexivity.
Qed.

Lemma suggestion_truthy (kw v : JsVal) :
  truthy kw = true -> suggestion kw = Ok v -> truthy v = true.
Proof.
  intros Hkw. unfold suggestion.
  destruct (get kw "Keyword") as [upper | e]; [| discriminate]. cbn [bind].
  destruct (truthy upper) eqn:Hu; [intros H; injection H as <-; exact Hu |].
  destruct (get kw "keyword") as [lower | e]; [| discriminate]. cbn [bind].
  intros H. injection H as <-. unfold js_or.
  destruct (truthy lower) eqn:Hl; [exact Hl | exact Hkw].
Qed.

Lemma map_suggestion (entries : list JsVal) :
  forallb (fun kw => negb (nullish kw)) entries = true ->
  exists mapped, map_result suggestion entries = Ok mapped.
Proof.
  induction entries as [| kw entries IH]; [exists []; reflexivity |].
  cbn [forallb]. intros H. apply andb_true_iff in H. destruct H as [Hkw Hrest].
  destruct (IH Hrest) as [mapped Hm]. cbn [map_result]. rewrite Hm.
  unfold suggestion.
  rewrite !(get_get_opt kw) by (destruct (nullish kw); [discriminate | reflexivity]).
  cbn [bind]. destruct (truthy (get_opt kw "Keyword")); cbn [bind]; eexists; reflexivity.
Qed.

(** C7.  A collection sent as the response itself is not read as the
    collection.  Take a non-empty collection [v] whose entries are not
    null and whose first entry is a truthy value that is no array and has
    none of the wrapper fields (a keyword record, a string).  Nested under
    its wrapper field, [v] yields one ranked-keyword record per entry, and
    at least one suggestion.  Sent as the response itself, [v] yields the
    empty list for both functions: the first-element rule has replaced [v]
    by its first entry before the wrapper field and the top-level fallback
    are looked at.  The fallback is reached only by the response [[v]]. *)
Theorem direct_collection_is_unwrapped (h : Host) (entry : JsVal) (rest : list JsVal) :
  let v := JArr (entry :: rest) in
  plain_entry entry = true ->
  truthy entry = true ->
  forallb (fun kw => negb (nullish kw)) (entry :: rest) = true ->
  exists records suggestions,
    normalizeResponse h page_ranked_keywords (JObj [("ranked_keywords", v)])
    = Ok (JArr records) /\
    records = map canonical_ranked_keyword (entry :: rest) /\
    normalizeResponse h page_ranked_keywords (JArr [v]) = Ok (JArr records) /\
    normalizeResponse h page_ranked_keywords v = Ok (JArr []) /\
    normalizeResponse h suggested_keywords (JObj [("suggested_keywords", v)])
    = Ok (JArr suggestions) /\
    suggestions <> [] /\
    normalizeResponse h suggested_keywords (JArr [v]) = Ok (JArr suggestions) /\
    normalizeResponse h suggested_keywords v = Ok (JArr []).
Proof.
  intros v Hplain Htruthy Hentries.
  unfold plain_entry in Hplain.
  apply andb_true_iff in Hplain. destruct Hplain as [Hplain Hrelated].
  apply andb_true_iff in Hplain. destruct Hplain as [Hplain Hsuggested].
  apply andb_true_iff in Hplain. destruct Hplain as [Harray Hranked].
  apply negb_true_iff in Harray, Hranked, Hsuggested, Hrelated.
  destruct (map_suggestion (entry :: rest) Hentries) as [mapped Hmapped].
  exists (map canonical_ranked_keyword (entry :: rest)), (filter truthy mapped).
  assert (Hpage : normalize_page_ranked_keywords v
                  = Ok (JArr (map canonical_ranked_keyword (entry :: rest)))).
  { unfold normalize_page_ranked_keywords, v.
    change (nested_or_direct (JArr (entry :: rest)) "ranked_keywords")
      with (JArr (entry :: rest)).
    cbv beta iota. rewrite (map_ranked_keyword _ Hentries). reflexivity. }
  assert (Hsugg : normalize_suggested_keywords v = Ok (JArr (filter truthy mapped))).
  { unfold normalize_suggested_keywords, v.
    change (if truthy (JArr (entry :: rest))
            then get_opt (JArr (entry :: rest)) "related_keyword" else JUndefined)
      with JUndefined.
    change (nested_or_direct (JArr (entry :: rest)) "suggested_keywords")
      with (JArr (entry :: rest)).
    cbv beta iota. rewrite Hmapped. reflexivity. }
  assert (Hdirect_page : normalize_page_ranked_keywords entry = Ok (JArr [])).
  { unfold normalize_page_ranked_keywords, nested_or_direct, js_or.
    rewrite Hranked, Harray. reflexivity. }
  assert (Hdirect_sugg : normalize_suggested_keywords entry = Ok (JArr [])).
  { unfold normalize_suggested_keywords, nested_or_direct, js_or.
    rewrite Htruthy, Hsuggested, Harray.
    destruct (get_opt entry "related_keyword"); try reflexivity. discriminate Hrelated. }
  split; [exact Hpage |]. split; [reflexivity |]. split; [exact Hpage |].
  split; [exact Hdirect_page |]. split; [exact Hsugg |]. split; [| split;
    [exact Hsugg | exact Hdirect_sugg]].
  cbn [map_result] in Hmapped.
  destruct (suggestion entry) as [first | e] eqn:Hfirst; [| discriminate Hmapped].
  cbn [bind] in Hmapped.
  destruct (map_result suggestion rest) as [others | e]; [| discriminate Hmapped].
  injection Hmapped as <-. cbn [filter].
  rewrite (suggestion_truthy entry first Htruthy Hfirst). discriminate.
Qed.

Lemma direct_collection_is_unwrapped_witness :
  normalizeResponse (table_host []) page_ranked_keywords
    (JObj [("ranked_keywords", seo_collection)])
  = Ok (JArr [canonical_ranked_keyword (JObj [("keyword", JStr "seo")])]) /\
  normalizeResponse (table_host []) page_ranked_keywords seo_collection = Ok (JArr []) /\
  normalizeResponse (table_host []) suggested_keywords
    (JObj [("suggested_keywords", seo_collection)]) = Ok (JArr [JStr "seo"]) /\
  normalizeResponse (table_host []) suggested_keywords seo_collection = Ok (JArr []).
Proof.
  destruct (direct_collection_is_unwrapped (table_host [])
              (JObj [("keyword", JStr "seo")]) [] eq_refl eq_refl eq_refl)
    as (records & suggestions & H1 & Hr & _ & H2 & H3 & _ & _ & H4).
  split; [reflexivity |]. split; [exact H2 |]. split; [reflexivity | exact H4].
Defined.

(** The wrapper [related_keyword] has a rule of its own: its entries are
    mapped by [kw.keyword] alone, those of the other collections by
    [kw.Keyword || kw.keyword || kw]. *)
Lemma related_keyword_own_rule :
  normalize_suggested_keywords (JObj [("related_keyword", mixed_collection)]) =
    Ok (JArr [JStr "seo"]) /\
  normalize_suggested_keywords (JObj [("suggested_keywords", mixed_collection)]) =
    Ok (JArr [JStr "SEO"]).
Proof. repeat split. Qed.

(** C9 (as amended).  For [url_map], [page_ranked_keywords] and
    [suggested_keywords], a response that is a non-empty array is
    normalized from its first element alone: the further elements are
    ignored, and the result is that of shape detection applied to the first
    element [x]; it is the result for the response [x] itself whenever [x] is
    not in turn a non-empty array. *)
Theorem first_element_only (h : Host) (func : WebhookFunction)
    (x : JsVal) (rest : list JsVal) :
  func <> url_scrape ->
  normalizeResponse h func (JArr (x :: rest)) = normalizeResponse h func (JArr [x]) /\
  (forall other, normalizeResponse h func (JArr (x :: rest)) = normalizeData h func x other) /\
  ((forall y ys, x <> JArr (y :: ys)) ->
   normalizeResponse h func (JArr (x :: rest)) = normalizeResponse h func x).
Proof.
  intros Hf. unfold normalizeResponse. cbn [first_element].
  destruct func; try contradiction; cbn [normalizeData];
    (split; [reflexivity |]); (split; [reflexivity |]); intros Hx;
    destruct x as [| | b | q | s | [| y ys] | fields]; try reflexivity;
    exfalso; exact (Hx y ys eq_refl).
Qed.

Lemma first_element_only_witness :
  normalizeResponse (table_host []) page_ranked_keywords
      (JArr [JObj [("ranked_keywords", seo_collection)]; JNull; JStr "junk"]) =
    normalizeResponse (table_host []) page_ranked_keywords
      (JObj [("ranked_keywords", seo_collection)]).
Proof.
  apply (proj2 (proj2 (first_element_only (table_host []) page_ranked_keywords
                         (JObj [("ranked_keywords", seo_collection)])
                         [JNull; JStr "junk"] ltac:(discriminate)))).
  intros y ys. discriminate.
Defined.

(** C9, as stated, fails when [x] is itself a non-empty array: wrapped in
    an outer array it is the collection, alone it is unwrapped once more. *)
Lemma first_element_of_nested_array :
  normalizeResponse (table_host []) page_ranked_keywords (JArr [seo_collection]) =
    Ok (JArr [canonical_ranked_keyword (JObj [("keyword", JStr "seo")])]) /\
  normalizeResponse (table_host []) page_ranked_keywords seo_collection = Ok (JArr []) /\
  normalizeResponse (table_host []) page_ranked_keywords (JArr [seo_collection]) <>
    normalizeResponse (table_host []) page_ranked_keywords seo_collection.
Proof. repeat split. discriminate. Qed.

(** ** The keyword strategy *)

Lemma queried_app (a b : list Event) : queried (a ++ b) = queried a ++ queried b.
Proof. unfold queried. apply flat_map_app. Qed.

Lemma perform_events {S A} (op : Remote S A) (w : World S) :
  events (snd (perform op w)) = events w.
Proof. unfold perform. destruct (op (remote w)). reflexivity. Qed.

Lemma query_seeds_absorbing {S} (callWebhook : CallWebhook S) (seeds : list JsVal)
    (w : World S) :
  query_seeds (absorbing callWebhook) seeds w = query_seeds callWebhook seeds w.
Proof.
  revert w. induction seeds as [| seed rest IH]; intros w; [reflexivity |].
  cbn [query_seeds]. unfold perform, absorbing.
  destruct (callWebhook seed (remote (log (Queried seed) w))) as [[v | e] s1];
    rewrite IH; reflexivity.
Qed.

Lemma query_seeds_queried {S} (callWebhook : CallWebhook S) (seeds : list JsVal)
    (w : World S) :
  queried (events (snd (query_seeds callWebhook seeds w))) = queried (events w) ++ seeds.
Proof.
  revert w. induction seeds as [| seed rest IH]; intros w.
  - cbn. rewrite app_nil_r. reflexivity.
  - cbn [query_seeds].
    pose proof (perform_events (callWebhook seed) (log (Queried seed) w)) as Hp.
    destruct (perform (callWebhook seed) (log (Queried seed) w)) as [r w1].
    cbn [snd] in Hp. specialize (IH w1).
    destruct (query_seeds callWebhook rest w1) as [others w2]. cbn [snd] in *.
    rewrite IH, Hp. unfold log. cbn [events].
    rewrite queried_app. cbn. rewrite <- app_assoc. reflexivity.
Qed.

Lemma strategy_failure_fatal : classify strategy_failure = Ok Fatal.
Proof. reflexivity. Qed.

(** The error of the outer [catch] is never retried: the function runs
    once. *)
Lemma generateKeywordStrategy_once {S} (h : Host) (p : Prompts)
    (gen : GenerateContent S) (cw : CallWebhook S) topic rk (w : World S) :
  generateKeywordStrategy h p gen cw topic rk w =
  generateKeywordStrategy_fn h p gen cw topic rk w.
Proof.
  unfold generateKeywordStrategy, withRetry_default.
  assert (He : forall e w1,
             generateKeywordStrategy_fn h p gen cw topic rk w = (Throw e, w1) ->
             e = strategy_failure).
  { unfold generateKeywordStrategy_fn.
    destruct (generateKeywordStrategy_try h p gen cw topic rk w) as [[v | e'] w'];
      intros e w1 H; [discriminate H | injection H as <- _; reflexivity]. }
  cbn [withRetry].
  destruct (generateKeywordStrategy_fn h p gen cw topic rk w) as [[v | e] w1];
    [reflexivity |].
  rewrite (He e w1 eq_refl). reflexivity.
Qed.

Lemma split_on_word (word rest : string) :
  no_space word = true ->
  split_on " " (word ++ String " " rest) = word :: split_on " " rest.
Proof.
  induction word as [| c word IH]; intros H.
  - reflexivity.
  - cbn [no_space] in H. apply andb_true_iff in H. destruct H as [Hc Hw].
    cbn [append split_on]. rewrite (IH Hw).
    destruct (Ascii.eqb c " "); [discriminate Hc | reflexivity].
Qed.

Lemma try_absorbing {S} (h : Host) (p : Prompts)
    (gen : GenerateContent S) (cw : CallWebhook S) topic rk (w : World S) :
  generateKeywordStrategy_try h p gen (absorbing cw) topic rk w =
  generateKeywordStrategy_try h p gen cw topic rk w.
Proof.
  unfold generateKeywordStrategy_try.
  destruct (perform (gen "gemini-2.5-flash" (seedPrompt p topic)) w)
    as [[seedText | e] w1]; [| reflexivity].
  destruct (match parse_model_json h seedText with
            | Ok v => v
            | Throw _ => JArr [JStr (fallback_seed topic)]
            end) as [| | b | q | s | items | fields]; try reflexivity.
  destruct items as [| item items]; [reflexivity |].
  rewrite query_seeds_absorbing. reflexivity.
Qed.

Lemma split_on_no_space (word : string) :
  no_space word = true -> split_on " " word = [word].
Proof.
  induction word as [| c word IH]; intros H; [reflexivity |].
  cbn [no_space] in H. apply andb_true_iff in H. destruct H as [Hc Hw].
  cbn [split_on]. rewrite (IH Hw).
  destruct (Ascii.eqb c " "); [discriminate Hc | reflexivity].
Qed.

Lemma query_seeds_events {S} (callWebhook : CallWebhook S) (seeds : list JsVal)
    (w : World S) :
  events (snd (query_seeds callWebhook seeds w)) = events w ++ map Queried seeds.
Proof.
  revert w. induction seeds as [| seed rest IH]; intros w.
  - cbn. rewrite app_nil_r. reflexivity.
  - cbn [query_seeds map].
    pose proof (perform_events (callWebhook seed) (log (Queried seed) w)) as Hp.
    destruct (perform (callWebhook seed) (log (Queried seed) w)) as [r w1].
    cbn [snd] in Hp. specialize (IH w1).
    destruct (query_seeds callWebhook rest w1) as [others w2]. cbn [snd] in *.
    rewrite IH, Hp. unfold log. cbn [events]. rewrite <- app_assoc. reflexivity.
Qed.

Lemma query_seeds_all_fail {S} (callWebhook : CallWebhook S) (seeds : list JsVal)
    (w : World S) :
  (forall seed s, exists e s1, callWebhook seed s = (Throw e, s1)) ->
  fst (query_seeds callWebhook seeds w) = map (fun _ => JArr []) seeds.
Proof.
  intros Hfail. revert w. induction seeds as [| seed rest IH]; intros w; [reflexivity |].
  cbn [query_seeds map]. unfold perform.
  destruct (Hfail seed (remote (log (Queried seed) w))) as (e & s1 & ->).
  specialize (IH (mkWorld s1 (events (log (Queried seed) w)))).
  destruct (query_seeds callWebhook rest _) as [others w2]. cbn [fst] in *.
  rewrite IH. reflexivity.
Qed.

Lemma flat_empty_answers {A} (seeds : list A) :
  flat (map (fun _ => JArr []) seeds) = [].
Proof. induction seeds as [| x l IH]; [reflexivity | exact IH]. Qed.

(** C10 (as amended).  Take a run in which the seed call of the model
    resolves, the seeds are an array (the parsed answer, or the fallback
    seed alone when the answer does not parse) and the existing rankings
    are readable.  Then the webhook is queried with the first three seeds
    (all of them when there are fewer), in this order and with nothing else;
    a query that fails counts as the empty list, so that a webhook failing
    at every query gives a selection prompt without suggestions; whatever
    the webhook did, the selection call is made next and its outcome alone
    decides the outcome of the operation.  The fallback seed is
    [topic.split(' ').slice(0, 2).join(' ')]: the first two words of the
    topic when it starts with two non-empty words separated by one space. *)
Theorem generateKeywordStrategy_absorbs {S} (h : Host) (p : Prompts)
    (generateContent : GenerateContent S) (callWebhook : CallWebhook S)
    (topic : string) (rankedKeywords : list JsVal) (w : World S)
    (seedText : JsVal) (s1 : S) (items ranked : list JsVal) :
  generateContent "gemini-2.5-flash" (seedPrompt p topic) (remote w) = (Ok seedText, s1) ->
  match parse_model_json h seedText with
  | Ok v => v
  | Throw _ => JArr [JStr (fallback_seed topic)]
  end = JArr items ->
  map_result (fun k => get k "keyword") rankedKeywords = Ok ranked ->
  let limitedSeeds := firstn 3 items in
  let answers := query_seeds callWebhook limitedSeeds (mkWorld s1 (events w)) in
  let prompt := selectionPrompt p topic (array_join h ", " items)
                  (JSON_stringify h (JArr (firstn 50 (flat (fst answers)))))
                  (JSON_stringify h (JArr (firstn 20 ranked))) in
  let selection := generateContent "gemini-2.5-flash" prompt (remote (snd answers)) in
  generateKeywordStrategy h p generateContent callWebhook topic rankedKeywords w
  = (match fst selection with
     | Ok text =>
         match parse_model_json h text with
         | Ok keywords => Ok keywords
         | Throw _ => Throw strategy_failure
         end
     | Throw _ => Throw strategy_failure
     end,
     mkWorld (snd selection) (events w ++ map Queried limitedSeeds)) /\
  (List.length limitedSeeds <= 3)%nat /\
  ((List.length items <= 3)%nat -> limitedSeeds = items) /\
  answers = query_seeds (absorbing callWebhook) limitedSeeds (mkWorld s1 (events w)) /\
  ((forall seed s, exists e s', callWebhook seed s = (Throw e, s')) ->
   flat (fst answers) = []) /\
  generateKeywordStrategy h p generateContent callWebhook topic rankedKeywords w
  = generateKeywordStrategy h p generateContent (absorbing callWebhook)
      topic rankedKeywords w /\
  ((forall v, parse_model_json h seedText <> Ok v) ->
   items = [JStr (fallback_seed topic)]) /\
  (forall word1 word2 rest,
     no_space word1 = true -> no_space word2 = true ->
     word1 <> EmptyString -> word2 <> EmptyString ->
     fallback_seed (word1 ++ " " ++ word2) = (word1 ++ " " ++ word2)%string /\
     fallback_seed (word1 ++ " " ++ word2 ++ " " ++ rest) = (word1 ++ " " ++ word2)%string).
Proof.
  intros Hseed Hitems Hranked. cbv zeta.
  split; [| split; [apply firstn_le_length | split; [apply firstn_all2 | split;
    [symmetry; apply query_seeds_absorbing | split; [| split; [| split]]]]]].
  - rewrite generateKeywordStrategy_once.
    unfold generateKeywordStrategy_fn, generateKeywordStrategy_try.
    unfold perform at 1. rewrite Hseed, Hitems.
    assert (Hq : match items with
                 | [] => ([], mkWorld s1 (events w))
                 | _ :: _ => query_seeds callWebhook (firstn 3 items)
                               (mkWorld s1 (events w))
                 end = query_seeds callWebhook (firstn 3 items) (mkWorld s1 (events w)))
      by (destruct items; reflexivity).
    rewrite Hq. clear Hq.
    pose proof (query_seeds_events callWebhook (firstn 3 items) (mkWorld s1 (events w)))
      as Hev. cbn [events] in Hev.
    destruct (query_seeds callWebhook (firstn 3 items) (mkWorld s1 (events w)))
      as [results w2]. cbn [fst snd] in *.
    rewrite Hranked. unfold perform.
    destruct (generateContent "gemini-2.5-flash" _ (remote w2)) as [[text | e] s3];
      cbn [fst snd]; rewrite Hev; [| reflexivity].
    destruct (parse_model_json h text); reflexivity.
  - intros Hfail. rewrite (query_seeds_all_fail _ _ _ Hfail). apply flat_empty_answers.
  - rewrite !generateKeywordStrategy_once. unfold generateKeywordStrategy_fn.
    rewrite try_absorbing. reflexivity.
  - intros Hparse. destruct (parse_model_json h seedText) as [v | e].
    + contradiction (Hparse v eq_refl).
    + injection Hitems as <-. reflexivity.
  - intros word1 word2 rest H1 H2 _ _. unfold fallback_seed. split.
    + change (word1 ++ " " ++ word2)%string with (word1 ++ String " " word2)%string.
      rewrite (split_on_word word1 _ H1), (split_on_no_space word2 H2). reflexivity.
    + change (word1 ++ " " ++ word2 ++ " " ++ rest)%string
        with (word1 ++ String " " (word2 ++ String " " rest))%string.
      rewrite (split_on_word word1 _ H1), (split_on_word word2 _ H2). reflexivity.
Qed.

(** A run in which the third webhook call fails: the strategy succeeds all
    the same, and only three of the four seeds are queried. *)
Lemma generateKeywordStrategy_absorbs_witness :
  generateKeywordStrategy scripted_host plain_prompts scripted_model flaky_webhook
    "topic" [] (mkWorld 0%nat []) =
  (Ok (JArr [JStr "k1"]),
   mkWorld 5%nat [Queried (JStr "a"); Queried (JStr "b"); Queried (JStr "c")]).
Proof.
  exact (proj1 (generateKeywordStrategy_absorbs scripted_host plain_prompts
                  scripted_model flaky_webhook "topic" [] (mkWorld 0%nat [])
                  (JStr "seeds") 1%nat [JStr "a"; JStr "b"; JStr "c"; JStr "d"] []
                  eq_refl eq_refl eq_refl)).
Defined.

(** C10, as stated, fails for a topic whose first two words are not what
    two cuts at single spaces give: with a leading space, or two spaces in
    a row, the sole seed is not the first two words. *)
Lemma fallback_seed_not_two_words :
  fallback_seed " a b" = " a"%string /\
  fallback_seed "a  b c" = "a "%string /\
  fallback_seed "  keyword research" = " "%string /\
  queried (events (snd (generateKeywordStrategy (table_host []) plain_prompts
                          mute_model webhook_down " a b" [] (mkWorld tt [])))) =
    [JStr " a"].
Proof. repeat split. Qed.

(* ===================================================================== *)
(** * Further properties                                                  *)
(* ===================================================================== *)

(** ** Runs of [withRetry] *)

Lemma withRetry_trace {S A} (role : Role) (f : Task S A) (model : string) :
  forall retries baseDelay w,
  exists k, (k <= retries)%nat /\
    events (snd (withRetry (invoke role f model) retries baseDelay w)) =
    events w ++ retry_trace role model baseDelay k.
Proof.
  induction retries as [| r IH]; intros baseDelay w.
  - exists 0%nat. split; [lia |]. cbn [withRetry retry_trace].
    pose proof (invoke_events role f model w) as He.
    destruct (invoke role f model w) as [[v | e] w1]; exact He.
  - cbn [withRetry].
    pose proof (invoke_events role f model w) as He.
    destruct (invoke role f model w) as [[v | error] w1]; cbn [snd] in He.
    + exists 0%nat. split; [lia | exact He].
    + destruct (isQuotaError error) as [q | e];
        [| exists 0%nat; split; [lia | exact He]].
      destruct (truthy q); [| exists 0%nat; split; [lia | exact He]].
      destruct (IH (baseDelay * backoffFactor)%Z (sleep baseDelay w1)) as (k & Hk & Hev).
      exists (Datatypes.S k). split; [lia |].
      rewrite Hev. unfold sleep, log. cbn [events retry_trace].
      rewrite He, <- !app_assoc. reflexivity.
Qed.

Lemma retry_trace_calls (role : Role) (model : string) (baseDelay : Z) (k : nat) :
  calls_of role (retry_trace role model baseDelay k) = repeat model (Datatypes.S k).
Proof.
  revert baseDelay. induction k as [| k IH]; intros baseDelay.
  - destruct role; reflexivity.
  - cbn [retry_trace].
    match goal with |- calls_of _ (?a :: ?b :: ?l) = _ =>
      change (a :: b :: l) with ([a; b] ++ l) end.
    rewrite calls_of_app, IH. destruct role; reflexivity.
Qed.

Lemma retry_trace_other_calls (model : string) (baseDelay : Z) (k : nat) :
  calls_of Fallback (retry_trace Primary model baseDelay k) = [] /\
  calls_of Primary (retry_trace Fallback model baseDelay k) = [].
Proof.
  revert baseDelay. induction k as [| k IH]; intros baseDelay; [split; reflexivity |].
  destruct (IH (baseDelay * backoffFactor)%Z) as [H1 H2].
  split; cbn [retry_trace];
    match goal with |- calls_of _ (?a :: ?b :: ?l) = _ =>
      change (a :: b :: l) with ([a; b] ++ l) end;
    rewrite calls_of_app; [rewrite H1 | rewrite H2]; reflexivity.
Qed.

Lemma retry_trace_sleeps (role : Role) (model : string) (baseDelay : Z) (k : nat) :
  sleeps (retry_trace role model baseDelay k) =
  map (fun i => (baseDelay * backoffFactor ^ Z.of_nat i)%Z) (seq 0 k).
Proof.
  revert baseDelay. induction k as [| k IH]; intros baseDelay; [reflexivity |].
  rewrite schedule_step. cbn [retry_trace].
  match goal with |- sleeps (?a :: ?b :: ?l) = _ =>
    change (a :: b :: l) with ([a; b] ++ l) end.
  rewrite sleeps_app, IH. reflexivity.
Qed.

(** X1.  One [withRetry] call over a task closure calls it at least once
    and at most [retries + 1] times, always with the same model identifier,
    and sleeps exactly once between two consecutive calls. *)
Theorem withRetry_attempts {S A} (role : Role) (f : Task S A) (model : string)
    (retries : nat) (baseDelay : Z) (w : World S) :
  exists k, (k <= retries)%nat /\
    let w' := snd (withRetry (invoke role f model) retries baseDelay w) in
    events w' = events w ++ retry_trace role model baseDelay k /\
    calls_of role (events w') = calls_of role (events w) ++ repeat model (Datatypes.S k) /\
    List.length (sleeps (events w')) = (List.length (sleeps (events w)) + k)%nat.
Proof.
  destruct (withRetry_trace role f model retries baseDelay w) as (k & Hk & Hev).
  exists k. split; [exact Hk |]. cbv zeta. split; [exact Hev |]. split.
  - rewrite Hev, calls_of_app, retry_trace_calls. reflexivity.
  - rewrite Hev, sleeps_app, length_app, retry_trace_sleeps, length_map, length_seq.
    reflexivity.
Qed.

(** X2.  What a [withRetry] call returns: if the first [k <= retries]
    attempts fail with Transient errors and the next attempt either is the
    last one allowed, or succeeds, or fails with a Fatal error, then the
    outcome of that attempt is returned unchanged, after [k] delays
    [baseDelay, 2 baseDelay, ...]. *)
Theorem withRetry_outcome {S A} (role : Role) (f : Task S A) (model : string)
    (retries k : nat) (baseDelay : Z) (w : World S) (s s' : S) (r : result A) :
  transient_run (f model) k (remote w) s ->
  f model s = (r, s') ->
  (k <= retries)%nat ->
  (k = retries \/ settles r) ->
  withRetry (invoke role f model) retries baseDelay w =
  (r, mkWorld s' (events w ++ retry_trace role model baseDelay k)).
Proof.
  intros Hrun. remember (remote w) as s0 eqn:Hs0.
  revert w retries baseDelay Hs0.
  induction Hrun as [s | k s s1 s2 error Hop Hc Hrun IH];
    intros w retries baseDelay Hs0 Hlast Hle Hend; subst.
  - cbn [retry_trace]. destruct retries as [| retries]; cbn [withRetry];
      rewrite invoke_outcome, Hlast; cbn [fst snd].
    + destruct r; reflexivity.
    + destruct r as [v | error]; [reflexivity |].
      destruct Hend as [Hk | Hf]; [discriminate Hk |].
      cbn [settles] in Hf. apply classify_fatal in Hf.
      destruct Hf as (q & Hq & Hfalse). rewrite Hq, Hfalse. reflexivity.
  - destruct retries as [| retries]; [lia |].
    rewrite (withRetry_retry (invoke role f model) retries baseDelay w error
               (mkWorld s1 (events w ++ [Invoked role model]))).
    + rewrite (IH (sleep baseDelay (mkWorld s1 (events w ++ [Invoked role model])))
                  retries (baseDelay * backoffFactor)%Z eq_refl Hlast).
      * unfold sleep, log. cbn [remote events retry_trace].
        rewrite <- !app_assoc. reflexivity.
      * lia.
      * destruct Hend as [Hk | Hs]; [left; lia | right; exact Hs].
    + rewrite invoke_outcome, Hop. reflexivity.
    + exact Hc.
Qed.

Lemma withRetry_outcome_witness :
  withRetry (invoke Primary third_time_lucky PRIMARY_MODEL) 3 2000 (mkWorld 0%nat []) =
  (Ok (JStr "done"),
   mkWorld 3%nat ([] ++ retry_trace Primary PRIMARY_MODEL 2000 2)).
Proof.
  apply (withRetry_outcome Primary third_time_lucky PRIMARY_MODEL 3 2 2000
           (mkWorld 0%nat []) 2%nat 3%nat (Ok (JStr "done"))).
  - apply (transient_step _ 1 0%nat 1%nat 2%nat (JObj [("status", num 503)]));
      [reflexivity | reflexivity |].
    apply (transient_step _ 0 1%nat 2%nat 2%nat (JObj [("status", num 503)]));
      [reflexivity | reflexivity |].
    apply transient_done.
  - reflexivity.
  - lia.
  - right. exact I.
Defined.

Lemma total_schedule (baseDelay : Z) (k : nat) :
  total (map (fun i => (baseDelay * backoffFactor ^ Z.of_nat i)%Z) (seq 0 k)) =
  (baseDelay * (2 ^ Z.of_nat k - 1))%Z.
Proof.
  revert baseDelay. induction k as [| k IH]; intros baseDelay.
  - cbn. lia.
  - rewrite schedule_step. cbn [total fold_right]. fold (total
      (map (fun i => (baseDelay * backoffFactor * backoffFactor ^ Z.of_nat i)%Z) (seq 0 k))).
    rewrite IH. rewrite Nat2Z.inj_succ, Z.pow_succ_r by lia.
    unfold backoffFactor. lia.
Qed.

(** X3.  The time one [withRetry] call spends sleeping is at most
    [baseDelay * (2 ^ retries - 1)] milliseconds (14 seconds for the default
    parameters), and exactly that when every attempt fails with a Transient
    error. *)
Theorem withRetry_total_delay {S A} (fn : Action S A) (retries : nat)
    (baseDelay : Z) (w : World S) :
  timerless fn -> (0 <= baseDelay)%Z ->
  exists delays,
    sleeps (events (snd (withRetry fn retries baseDelay w))) = sleeps (events w) ++ delays /\
    (0 <= total delays <= baseDelay * (2 ^ Z.of_nat retries - 1))%Z /\
    (always_transient fn -> total delays = (baseDelay * (2 ^ Z.of_nat retries - 1))%Z).
Proof.
  intros Hq Hd.
  destruct (withRetry_sleeps fn Hq retries baseDelay w) as (k & Hk & Hs).
  eexists. split; [exact Hs |]. rewrite total_schedule. split.
  - assert (H1 : (0 < 2 ^ Z.of_nat k)%Z) by (apply Z.pow_pos_nonneg; lia).
    assert (H2 : (2 ^ Z.of_nat k <= 2 ^ Z.of_nat retries)%Z)
      by (apply Z.pow_le_mono_r; lia).
    nia.
  - intros Ht. pose proof (withRetry_sleeps_exhausted fn Hq Ht retries baseDelay w) as He.
    rewrite Hs in He. apply app_inv_head in He.
    apply (f_equal total) in He. rewrite !total_schedule in He. exact He.
Qed.

Lemma withRetry_total_delay_witness :
  exists delays,
    sleeps (events (snd (withRetry overloaded_service 3 2000 (mkWorld tt [])))) =
      [] ++ delays /\
    (0 <= total delays <= 2000 * (2 ^ Z.of_nat 3 - 1))%Z /\
    (always_transient overloaded_service ->
     total delays = (2000 * (2 ^ Z.of_nat 3 - 1))%Z).
Proof.
  apply (withRetry_total_delay overloaded_service 3 2000 (mkWorld tt [])).
  - intros w. reflexivity.
  - lia.
Defined.

(** X4.  A rejection value the classifier cannot read replaces itself: when
    the task rejects with [null] (or [undefined]) and retries remain,
    [withRetry] rejects with the classifier's [TypeError]; with no retry
    left the classifier is not consulted and the original value is
    rethrown.  Either way there is one attempt and no delay. *)
Theorem withRetry_unreadable_rejection {S A} (fn : Action S A) (retries : nat)
    (baseDelay : Z) (w w1 : World S) (error : JsVal) :
  fn w = (Throw error, w1) -> nullish error = true ->
  withRetry fn 0 baseDelay w = (Throw error, w1) /\
  withRetry fn (Datatypes.S retries) baseDelay w =
    (Throw (TypeError ("Cannot read properties of " ++ show error
                       ++ " (reading 'status')")), w1).
Proof.
  intros Hfn Hn. split; cbn [withRetry]; rewrite Hfn; [reflexivity |].
  destruct error; try discriminate Hn; reflexivity.
Qed.

Lemma withRetry_unreadable_rejection_witness :
  withRetry rejects_with_null 0 2000 (mkWorld tt []) = (Throw JNull, mkWorld tt []) /\
  withRetry rejects_with_null 3 2000 (mkWorld tt []) =
    (Throw (TypeError ("Cannot read properties of " ++ show JNull
                       ++ " (reading 'status')")), mkWorld tt []).
Proof.
  apply (withRetry_unreadable_rejection rejects_with_null 2 2000
           (mkWorld tt []) (mkWorld tt []) JNull); reflexivity.
Defined.

(** ** Runs of [withModelFallback] *)

Lemma total_app (a b : list Z) : total (a ++ b) = (total a + total b)%Z.
Proof.
  induction a as [| x a IH]; [reflexivity |].
  change (total ((x :: a) ++ b)) with (x + total (a ++ b))%Z.
  change (total (x :: a)) with (x + total a)%Z. lia.
Qed.

Lemma total_retry_trace (role : Role) (model : string) (baseDelay : Z) (k retries : nat) :
  (0 <= baseDelay)%Z -> (k <= retries)%nat ->
  (0 <= total (sleeps (retry_trace role model baseDelay k))
     <= baseDelay * (2 ^ Z.of_nat retries - 1))%Z.
Proof.
  intros Hd Hk. rewrite retry_trace_sleeps, total_schedule.
  assert (H1 : (0 < 2 ^ Z.of_nat k)%Z) by (apply Z.pow_pos_nonneg; lia).
  assert (H2 : (2 ^ Z.of_nat k <= 2 ^ Z.of_nat retries)%Z)
    by (apply Z.pow_le_mono_r; lia).
  nia.
Qed.

(** X5.  A [withModelFallback] call runs in two phases that never
    interleave: first the primary closure, called once or twice with
    [PRIMARY_MODEL] (one delay of 1000 ms in between), then possibly the
    fallback closure, called one to four times with [FALLBACK_MODEL] (delays
    2000, 4000, 8000 ms); no call is made with any other model identifier,
    and at most 15 seconds are spent sleeping. *)
Theorem withModelFallback_phases {S A} (primaryFn : Task S A)
    (fallbackFn : option (Task S A)) (w : World S) :
  exists kp trace,
    let w' := snd (withModelFallback primaryFn fallbackFn w) in
    (kp <= 1)%nat /\
    events w' = events w ++ retry_trace Primary PRIMARY_MODEL 1000 kp ++ trace /\
    (trace = [] \/
     exists kf, (kf <= 3)%nat /\ trace = retry_trace Fallback FALLBACK_MODEL 2000 kf) /\
    calls_of Primary trace = [] /\
    (List.length (calls_of Primary (events w')) <=
       List.length (calls_of Primary (events w)) + 2)%nat /\
    (List.length (calls_of Fallback (events w')) <=
       List.length (calls_of Fallback (events w)) + 4)%nat /\
    (total (sleeps (events w')) <= total (sleeps (events w)) + 15000)%Z.
Proof.
  set (fallback := match fallbackFn with Some f => f | None => primaryFn end).
  destruct (withRetry_trace Primary primaryFn PRIMARY_MODEL 1 1000%Z w) as (kp & Hkp & Hp).
  assert (Hgoal : forall trace,
    events (snd (withModelFallback primaryFn fallbackFn w)) =
      events w ++ retry_trace Primary PRIMARY_MODEL 1000 kp ++ trace ->
    (trace = [] \/
     exists kf, (kf <= 3)%nat /\ trace = retry_trace Fallback FALLBACK_MODEL 2000 kf) ->
    exists kp trace,
      let w' := snd (withModelFallback primaryFn fallbackFn w) in
      (kp <= 1)%nat /\
      events w' = events w ++ retry_trace Primary PRIMARY_MODEL 1000 kp ++ trace /\
      (trace = [] \/
       exists kf, (kf <= 3)%nat /\ trace = retry_trace Fallback FALLBACK_MODEL 2000 kf) /\
      calls_of Primary trace = [] /\
      (List.length (calls_of Primary (events w')) <=
         List.length (calls_of Primary (events w)) + 2)%nat /\
      (List.length (calls_of Fallback (events w')) <=
         List.length (calls_of Fallback (events w)) + 4)%nat /\
      (total (sleeps (events w')) <= total (sleeps (events w)) + 15000)%Z).
  { intros trace Hev Htrace. exists kp, trace. cbv zeta.
    assert (HcP : calls_of Primary trace = []).
    { destruct Htrace as [-> | (kf & _ & ->)]; [reflexivity |].
      apply retry_trace_other_calls. }
    assert (HcF : (List.length (calls_of Fallback trace) <= 4)%nat).
    { destruct Htrace as [-> | (kf & Hkf & ->)]; [cbn; lia |].
      rewrite retry_trace_calls, repeat_length. lia. }
    assert (Hs : (0 <= total (sleeps trace) <= 14000)%Z).
    { destruct Htrace as [-> | (kf & Hkf & ->)]; [cbn; lia |].
      apply (total_retry_trace Fallback FALLBACK_MODEL 2000 kf 3); [lia | exact Hkf]. }
    pose proof (total_retry_trace Primary PRIMARY_MODEL 1000 kp 1 ltac:(lia) Hkp) as Hsp.
    change (1000 * (2 ^ Z.of_nat 1 - 1))%Z with 1000%Z in Hsp.
    split; [exact Hkp |]. split; [exact Hev |]. split; [exact Htrace |].
    split; [exact HcP |]. rewrite Hev.
    rewrite !calls_of_app, !sleeps_app, !total_app, !length_app.
    rewrite HcP, retry_trace_calls, repeat_length.
    rewrite (proj1 (retry_trace_other_calls PRIMARY_MODEL 1000 kp)).
    cbn [List.length]. repeat split; lia. }
  unfold withModelFallback in *. fold fallback in Hgoal |- *.
  destruct (withRetry (invoke Primary primaryFn PRIMARY_MODEL) 1 1000 w)
    as [[v | error] w1]; cbn [snd] in Hp.
  - apply (Hgoal []); [rewrite app_nil_r; exact Hp | left; reflexivity].
  - destruct (isQuotaError error) as [q | e].
    + destruct (truthy q).
      * destruct (withRetry_trace Fallback fallback FALLBACK_MODEL 3 2000%Z w1)
          as (kf & Hkf & Hf).
        apply (Hgoal (retry_trace Fallback FALLBACK_MODEL 2000 kf)).
        -- rewrite Hf, Hp, <- app_assoc. reflexivity.
        -- right. exists kf. split; [exact Hkf | reflexivity].
      * apply (Hgoal []); [rewrite app_nil_r; exact Hp | left; reflexivity].
    + apply (Hgoal []); [rewrite app_nil_r; exact Hp | left; reflexivity].
Qed.

(** ** The generation operations *)

(** A labelled body is run once: the label carries no marker. *)
Lemma withRetry_relabel {S A} (msg : string) (body : Action S A)
    (retries : nat) (baseDelay : Z) (w : World S) :
  classify (Error msg) = Ok Fatal ->
  withRetry (relabel msg body) retries baseDelay w = relabel msg body w.
Proof.
  intros Hc. apply classify_fatal in Hc. destruct Hc as (q & Hq & Hf).
  destruct retries as [| r]; cbn [withRetry]; unfold relabel;
    destruct (body w) as [[v | e] w1]; try reflexivity.
  rewrite Hq, Hf. reflexivity.
Qed.

Lemma relabel_failed_call {S} (msg : string) (body : Action S JsVal)
    (w : World S) (s1 : S) :
  (exists e, body w = (Throw e, mkWorld s1 (events w))) ->
  relabel msg body w = (Throw (Error msg), mkWorld s1 (events w)).
Proof. intros (e & He). unfold relabel. rewrite He. reflexivity. Qed.

Lemma ask_failed {S} (h : Host) (gen : GenerateContent S) (model prompt : string)
    (w : World S) (e : JsVal) (s1 : S) :
  gen model prompt (remote w) = (Throw e, s1) ->
  ask_json h gen model prompt w = (Throw e, mkWorld s1 (events w)) /\
  ask_json_strict h gen model prompt w = (Throw e, mkWorld s1 (events w)) /\
  ask_text gen model prompt w = (Throw e, mkWorld s1 (events w)).
Proof.
  intros Hg. unfold ask_json, ask_json_strict, ask_text, perform. rewrite Hg.
  repeat split.
Qed.

(** X6.  The labelled operations never retry.  When the model call of
    [generateTopicIdeas], [generateTopicIdeasForWebsite],
    [generateOutlineSuggestions], [generateOutline], [refineOutlineWithAI],
    [regenerateTitle] or [generateSocialPosts] is rejected, with whatever
    error (a 429 or 503 included), the operation rejects with its fixed
    message after that single call and without sleeping: the [catch] block
    has replaced the error before [withRetry] classifies it. *)
Theorem labelled_operations_never_retry {S} (h : Host)
    (generateContent : GenerateContent S) (prompt : string)
    (w : World S) (error : JsVal) (s1 : S) :
  let w1 := mkWorld s1 (events w) in
  (generateContent "gemini-2.5-flash" prompt (remote w) = (Throw error, s1) ->
     generateTopicIdeas h generateContent prompt w = (Throw (Error TOPIC_IDEAS_FAILED), w1) /\
     generateTopicIdeasForWebsite h generateContent prompt w =
       (Throw (Error WEBSITE_IDEAS_FAILED), w1) /\
     generateOutlineSuggestions h generateContent prompt w =
       (Throw (Error OUTLINE_SUGGESTIONS_FAILED), w1) /\
     regenerateTitle generateContent prompt w = (Throw (Error TITLE_FAILED), w1) /\
     generateSocialPosts h generateContent prompt w = (Throw (Error SOCIAL_FAILED), w1)) /\
  (generateContent PRIMARY_MODEL prompt (remote w) = (Throw error, s1) ->
     generateOutline h generateContent prompt w = (Throw (Error OUTLINE_FAILED), w1) /\
     refineOutlineWithAI h generateContent prompt w = (Throw (Error REFINE_FAILED), w1)).
Proof.
  intros w1. split; intros Hg;
    destruct (ask_failed h generateContent _ prompt w error s1 Hg) as (H1 & H2 & H3);
    unfold generateTopicIdeas, generateTopicIdeasForWebsite, generateOutlineSuggestions,
      regenerateTitle, generateSocialPosts, generateOutline, refineOutlineWithAI,
      withRetry_default;
    rewrite !withRetry_relabel by reflexivity;
    repeat split; apply relabel_failed_call; exists error; assumption.
Qed.

Lemma labelled_operations_never_retry_witness :
  generateTopicIdeas (table_host []) rate_limited_model "prompt" (mkWorld 0%nat []) =
    (Throw (Error TOPIC_IDEAS_FAILED), mkWorld 1%nat []) /\
  generateOutline (table_host []) rate_limited_model "prompt" (mkWorld 0%nat []) =
    (Throw (Error OUTLINE_FAILED), mkWorld 1%nat []).
Proof.
  split.
  - apply (proj1 (proj1 (labelled_operations_never_retry (table_host [])
             rate_limited_model "prompt" (mkWorld 0%nat [])
             (JObj [("status", num 429); ("message", JStr "Too Many Requests")]) 1%nat)
             eq_refl)).
  - apply (proj1 (proj2 (labelled_operations_never_retry (table_host [])
             rate_limited_model "prompt" (mkWorld 0%nat [])
             (JObj [("status", num 429); ("message", JStr "Too Many Requests")]) 1%nat)
             eq_refl)).
Defined.

(** X7.  [selectRelevantInternalLinks] never rejects: it makes one model
    call and resolves, to the parsed answer when there is one and to the
    empty array when the call is rejected or its answer does not parse. *)
Theorem selectRelevantInternalLinks_total {S} (h : Host)
    (generateContent : GenerateContent S) (prompt : string) (w : World S) :
  let answer := generateContent "gemini-2.5-flash" prompt (remote w) in
  let w1 := mkWorld (snd answer) (events w) in
  selectRelevantInternalLinks h generateContent prompt w =
    (Ok match fst answer with
        | Ok text =>
            match JSON_parse h (to_string h text) with
            | Ok v => v
            | Throw _ => JArr []
            end
        | Throw _ => JArr []
        end, w1).
Proof.
  cbv zeta. unfold selectRelevantInternalLinks, withRetry_default.
  cbn [withRetry]. unfold ask_json_strict, perform.
  destruct (generateContent "gemini-2.5-flash" prompt (remote w)) as [[text | e] s1];
    cbn [fst snd]; [| reflexivity].
  destruct (JSON_parse h (to_string h text)); reflexivity.
Qed.

(** ** [analyzeCompetitors] and [findEeatSources] *)

Lemma map_result_Forall {A B} (f : A -> result B) (P : B -> Prop) (items : list A) :
  (forall x y, f x = Ok y -> P y) ->
  forall ys, map_result f items = Ok ys -> Forall P ys.
Proof.
  intros Hf. induction items as [| x items IH]; intros ys; cbn [map_result].
  - intros H. injection H as <-. constructor.
  - destruct (f x) as [y | e] eqn:Hx; [| discriminate]. cbn [bind].
    destruct (map_result f items) as [ys' | e]; [| discriminate]. cbn [bind].
    intros H. injection H as <-. constructor; [eapply Hf; exact Hx | apply IH; reflexivity].
Qed.

Lemma map_result_length {A B} (f : A -> result B) (items : list A) :
  forall ys, map_result f items = Ok ys -> List.length ys = List.length items.
Proof.
  induction items as [| x items IH]; intros ys; cbn [map_result].
  - intros H. injection H as <-. reflexivity.
  - destruct (f x) as [y | e]; [| discriminate]. cbn [bind].
    destruct (map_result f items) as [ys' | e]; [| discriminate]. cbn [bind].
    intros H. injection H as <-. cbn. f_equal. apply IH. reflexivity.
Qed.

Lemma competitor_record_shape (h : Host) (c v : JsVal) :
  competitor_record h c = Ok v -> is_competitor v.
Proof.
  unfold competitor_record.
  destruct (get c "summary") as [summary | e]; [| discriminate]. cbn [bind].
  destruct (get c "title") as [title | e]; [| discriminate]. cbn [bind].
  intros H. injection H as <-. eexists. eexists. reflexivity.
Qed.

Lemma grounding_link_shape (chunk v : JsVal) :
  grounding_link chunk = Ok v -> has_real_url v = true -> is_grounding_link v.
Proof.
  unfold grounding_link.
  destruct (get chunk "web") as [web | e]; [| discriminate]. cbn [bind].
  intros H. injection H as <-. intros Hreal.
  set (u := coalesce (get_opt web "uri") (JStr "#")) in *.
  change (negb (strict_eq_str u "#") = true) in Hreal.
  eexists. eexists. split; [reflexivity |].
  assert (Hc : forall a b, nullish b = false -> nullish (coalesce a b) = false).
  { intros a b Hb. unfold coalesce. destruct (nullish a) eqn:Ha; assumption. }
  split; [apply Hc; reflexivity |]. split; [apply Hc; reflexivity |].
  intros Heq. rewrite Heq in Hreal. discriminate Hreal.
Qed.

Lemma Forall_filter_both {A} (P : A -> Prop) (Q : A -> Prop) (p : A -> bool) (l : list A) :
  Forall Q l -> (forall x, Q x -> p x = true -> P x) -> Forall P (filter p l).
Proof.
  intros Hl Hx. induction Hl as [| x l Hq Hl IH]; cbn; [constructor |].
  destruct (p x) eqn:Hp; [constructor; [apply Hx; assumption | exact IH] | exact IH].
Qed.

(** X8.  Whenever [analyzeCompetitors] resolves, its value has the two
    arrays [competitors] and [groundingLinks]; every competitor is a record
    whose [title] and [summary] are both strings, whatever shape the model
    gave them, and no grounding link has the url ['#'] or a missing title.
    It makes a single model call and never sleeps. *)
Theorem analyzeCompetitors_shape {S} (h : Host) (generateContent : GenerateResponse S)
    (prompt : string) (w w' : World S) (v : JsVal) :
  analyzeCompetitors h generateContent prompt w = (Ok v, w') ->
  (exists competitors links,
     v = JObj [("competitors", JArr competitors); ("groundingLinks", JArr links)] /\
     Forall is_competitor competitors /\ Forall is_grounding_link links) /\
  w' = mkWorld (snd (generateContent PRIMARY_MODEL prompt (remote w))) (events w).
Proof.
  unfold analyzeCompetitors, withRetry_default.
  rewrite withRetry_relabel by reflexivity.
  unfold relabel, analyzeCompetitors_try, perform.
  destruct (generateContent PRIMARY_MODEL prompt (remote w)) as [[response | e] s1];
    [| discriminate].
  cbn [snd].
  destruct (get response "text") as [text | e]; [| discriminate]. cbn [bind].
  destruct (parse_model_json h text) as [parsedData | e]; [| discriminate]. cbn [bind].
  destruct (get parsedData "competitors") as [listed | e]; [| discriminate]. cbn [bind].
  destruct (as_array (js_or listed (JArr [])) _) as [items | e]; [| discriminate].
  cbn [bind].
  destruct (map_result (competitor_record h) items) as [competitors | e] eqn:Hc;
    [| discriminate]. cbn [bind].
  destruct (as_array _ "groundingChunks") as [chunks | e]; [| discriminate]. cbn [bind].
  destruct (map_result grounding_link chunks) as [links | e] eqn:Hl; [| discriminate].
  cbn [bind]. intros H. injection H as <- <-. split; [| reflexivity].
  eexists. eexists. split; [reflexivity |]. split.
  - eapply map_result_Forall; [| exact Hc]. apply competitor_record_shape.
  - apply (Forall_filter_both _ (fun v => exists chunk, grounding_link chunk = Ok v)).
    + eapply map_result_Forall; [| exact Hl]. intros x y Hxy. exists x. exact Hxy.
    + intros x (chunk & Hx) Hreal. eapply grounding_link_shape; eassumption.
Qed.

Lemma analyzeCompetitors_shape_witness :
  (exists competitors links,
     JObj [("competitors",
            JArr [JObj [("title", JStr "Competitor Analysis");
                        ("summary", JStr "main argument: speed. content gaps: null")]]);
           ("groundingLinks",
            JArr [JObj [("title", JStr "Unknown Source"); ("url", JStr "https://a.io");
                        ("summary", JStr "")]])] =
     JObj [("competitors", JArr competitors); ("groundingLinks", JArr links)] /\
     Forall is_competitor competitors /\ Forall is_grounding_link links) /\
  mkWorld tt [] =
    mkWorld (snd (competitor_model PRIMARY_MODEL "prompt" (remote (mkWorld tt [])))) [].
Proof.
  apply (analyzeCompetitors_shape competitor_host competitor_model "prompt"
           (mkWorld tt []) (mkWorld tt [])).
  reflexivity.
Defined.

Lemma source_record_shape (h : Host) (s v : JsVal) :
  source_record h s = Ok v -> is_source v.
Proof.
  unfold source_record.
  destruct (get s "title") as [title | e]; [| discriminate]. cbn [bind].
  destruct (get s "url") as [url | e]; [| discriminate]. cbn [bind].
  destruct (get s "summary") as [summary | e]; [| discriminate]. cbn [bind].
  intros H. injection H as <-. eexists. eexists. eexists. split; [reflexivity |].
  unfold js_or. split.
  - destruct (truthy title) eqn:Ht; [exact Ht | reflexivity].
  - destruct (truthy url) eqn:Hu; [exact Hu | reflexivity].
Qed.

(** X9.  Whenever [findEeatSources] resolves, its value is an array; every
    entry is a record with a truthy [title], a truthy [url] and a string
    [summary]; an answer that parses to anything but an array gives the
    empty array.  It makes a single model call and never sleeps. *)
Theorem findEeatSources_shape {S} (h : Host) (generateContent : GenerateContent S)
    (prompt : string) (w w' : World S) (v : JsVal) :
  findEeatSources h generateContent prompt w = (Ok v, w') ->
  (exists records, v = JArr records /\ Forall is_source records /\
     forall text parsed,
       fst (generateContent PRIMARY_MODEL prompt (remote w)) = Ok text ->
       parse_model_json h text = Ok parsed ->
       (isArray parsed = false -> records = []) /\
       (forall items, parsed = JArr items -> List.length records = List.length items)) /\
  w' = mkWorld (snd (generateContent PRIMARY_MODEL prompt (remote w))) (events w).
Proof.
  unfold findEeatSources, withRetry_default.
  rewrite withRetry_relabel by reflexivity.
  unfold relabel, ask_json, perform.
  destruct (generateContent PRIMARY_MODEL prompt (remote w)) as [[text | e] s1];
    [| discriminate].
  cbn [fst snd].
  destruct (parse_model_json h text) as [parsed | e] eqn:Hparse; [| discriminate].
  destruct parsed as [| | b | q | s | items | fields];
    try (intros H; injection H as <- <-; split; [| reflexivity];
         exists []; split; [reflexivity |]; split; [constructor |];
         intros text' parsed' Ht Hp; injection Ht as <-; rewrite Hparse in Hp;
         injection Hp as <-;
         split; [reflexivity | intros l Hl; discriminate Hl]).
  destruct (map_result (source_record h) items) as [records | e] eqn:Hr; [| discriminate].
  cbn [bind]. intros H. injection H as <- <-. split; [| reflexivity].
  exists records. split; [reflexivity |]. split.
  - eapply map_result_Forall; [| exact Hr]. apply source_record_shape.
  - intros text' parsed' Ht Hp. injection Ht as <-. rewrite Hparse in Hp.
    injection Hp as <-. split.
    + discriminate.
    + intros items' Hi. injection Hi as <-. eapply map_result_length. exact Hr.
Qed.

Lemma findEeatSources_shape_witness :
  (exists records,
     JArr [JObj [("title", JStr "Source"); ("url", JStr "https://nih.gov");
                 ("summary", JStr "")];
           JObj [("title", JStr "Source"); ("url", JStr "#"); ("summary", JStr "")]] =
       JArr records /\
     Forall is_source records /\
     forall text parsed,
       fst (sources_model PRIMARY_MODEL "prompt" (remote (mkWorld tt []))) = Ok text ->
       parse_model_json sources_host text = Ok parsed ->
       (isArray parsed = false -> records = []) /\
       (forall items, parsed = JArr items -> List.length records = List.length items)) /\
  mkWorld tt [] =
    mkWorld (snd (sources_model PRIMARY_MODEL "prompt" (remote (mkWorld tt [])))) [].
Proof.
  apply (findEeatSources_shape sources_host sources_model "prompt"
           (mkWorld tt []) (mkWorld tt [])).
  reflexivity.
Defined.

(** ** More on the webhook normalizers *)

Lemma pick_truthy_or_fallback (kw : JsVal) (names : list string) (fallback : JsVal) :
  truthy (pick kw names fallback) = true \/ pick kw names fallback = fallback.
Proof.
  induction names as [| name names IH]; cbn [pick]; [right; reflexivity |].
  destruct (truthy (get_opt kw name)) eqn:Ht; [left; exact Ht | exact IH].
Qed.

Lemma js_or_pick (kw : JsVal) (names : list string) (fallback : JsVal) :
  js_or (pick kw names fallback) fallback = pick kw names fallback.
Proof.
  unfold js_or. destruct (pick_truthy_or_fallback kw names fallback) as [H | H].
  - rewrite H. reflexivity.
  - destruct (truthy (pick kw names fallback)); [reflexivity | symmetry; exact H].
Qed.

Lemma ranked_keyword_again (kw : JsVal) :
  ranked_keyword (canonical_ranked_keyword kw) =
  Ok (renormalized (canonical_ranked_keyword kw)).
Proof.
  rewrite ranked_keyword_canonical by reflexivity.
  unfold canonical_ranked_keyword at 1, renormalized. f_equal. f_equal.
  set (c := canonical_ranked_keyword kw).
  repeat (f_equal; try reflexivity).
  - change (pick c ["Keyword"; "keyword"] (JStr ""))
      with (js_or (pick kw ["Keyword"; "keyword"] (JStr "")) (JStr "")).
    apply js_or_pick.
  - change (pick c ["competition_level"] (JStr "UNKNOWN"))
      with (js_or (pick kw ["competition_level"] (JStr "UNKNOWN")) (JStr "UNKNOWN")).
    apply js_or_pick.
  - change (pick c ["cpc"] (num 0)) with (js_or (pick kw ["cpc"] (num 0)) (num 0)).
    apply js_or_pick.
  - change (pick c ["search_volume"] (num 0))
      with (js_or (pick kw ["search_volume"] (num 0)) (num 0)).
    apply js_or_pick.
  - change (pick c ["intent"] (JStr "unknown"))
      with (js_or (pick kw ["intent"] (JStr "unknown")) (JStr "unknown")).
    apply js_or_pick.
Qed.

Lemma ranked_keyword_inv (kw r : JsVal) :
  ranked_keyword kw = Ok r -> r = canonical_ranked_keyword kw.
Proof.
  destruct (nullish kw) eqn:Hn.
  - destruct kw; try discriminate Hn; intros H; discriminate H.
  - rewrite (ranked_keyword_canonical kw Hn). intros H. injection H as <-. reflexivity.
Qed.

Lemma map_ranked_keyword_again (records : list JsVal) :
  Forall (fun r => exists kw, r = canonical_ranked_keyword kw) records ->
  map_result ranked_keyword records = Ok (map renormalized records).
Proof.
  induction 1 as [| r records [kw ->] _ IH]; [reflexivity |].
  cbn [map_result map]. rewrite ranked_keyword_again. cbn [bind].
  rewrite IH. reflexivity.
Qed.

Lemma ranked_keyword_settled (kw : JsVal) :
  ranked_keyword (renormalized (canonical_ranked_keyword kw)) =
  Ok (renormalized (canonical_ranked_keyword kw)).
Proof.
  rewrite ranked_keyword_canonical by reflexivity. f_equal.
  transitivity
    (JObj [("keyword", js_or (pick kw ["Keyword"; "keyword"] (JStr "")) (JStr ""));
           ("competition", num 0);
           ("competition_level",
            js_or (pick kw ["competition_level"] (JStr "UNKNOWN")) (JStr "UNKNOWN"));
           ("cpc", js_or (pick kw ["cpc"] (num 0)) (num 0));
           ("search_volume", js_or (pick kw ["search_volume"] (num 0)) (num 0));
           ("difficulty", num 0);
           ("intent", js_or (pick kw ["intent"] (JStr "unknown")) (JStr "unknown"))]);
    [reflexivity |].
  rewrite !js_or_pick. reflexivity.
Qed.

Lemma map_ranked_keyword_settled (records : list JsVal) :
  Forall (fun r => exists kw, r = canonical_ranked_keyword kw) records ->
  map_result ranked_keyword (map renormalized records) = Ok (map renormalized records).
Proof.
  induction 1 as [| r records [kw ->] _ IH]; [reflexivity |].
  cbn [map_result map]. rewrite ranked_keyword_settled. cbn [bind].
  rewrite IH. reflexivity.
Qed.

Lemma normalize_page_ranked_keywords_inv (data : JsVal) (records : list JsVal) :
  normalize_page_ranked_keywords data = Ok (JArr records) ->
  Forall (fun r => exists kw, r = canonical_ranked_keyword kw) records.
Proof.
  unfold normalize_page_ranked_keywords.
  destruct (nested_or_direct data "ranked_keywords") as [| | | | | keywords |];
    try (intros H; injection H as <-; constructor).
  destruct (map_result ranked_keyword keywords) as [rs | e] eqn:Hm; [| discriminate].
  cbn [bind]. intros H. injection H as <-.
  eapply map_result_Forall; [| exact Hm].
  intros kw r Hr. exists kw. apply ranked_keyword_inv. exact Hr.
Qed.

(** X10.  Ranked keywords, second pass.  A list that
    [page_ranked_keywords] returned, fed to the same normalizer as the
    direct collection, keeps [keyword], [competition_level], [cpc],
    [search_volume] and [intent] of every record but resets [competition]
    and [difficulty] to 0, because they are read back under their upstream
    names; from then on the normalizer changes nothing. *)
Theorem page_ranked_keywords_second_pass (data : JsVal) (records : list JsVal) :
  normalize_page_ranked_keywords data = Ok (JArr records) ->
  normalize_page_ranked_keywords (JArr records) = Ok (JArr (map renormalized records)) /\
  normalize_page_ranked_keywords (JArr (map renormalized records))
  = Ok (JArr (map renormalized records)).
Proof.
  intros H. apply normalize_page_ranked_keywords_inv in H.
  unfold normalize_page_ranked_keywords, nested_or_direct. cbn.
  rewrite (map_ranked_keyword_again records H),
          (map_ranked_keyword_settled records H).
  split; reflexivity.
Qed.

Lemma page_ranked_keywords_second_pass_witness :
  normalize_page_ranked_keywords
    (JObj [("ranked_keywords",
            JArr [JObj [("keyword", JStr "seo"); ("competition_score", num 7);
                        ("keyword_difficulty", num 40)]])])
  = Ok (JArr [JObj [("keyword", JStr "seo"); ("competition", num 7);
                    ("competition_level", JStr "UNKNOWN"); ("cpc", num 0);
                    ("search_volume", num 0); ("difficulty", num 40);
                    ("intent", JStr "unknown")]]) /\
  normalize_page_ranked_keywords
    (JArr [JObj [("keyword", JStr "seo"); ("competition", num 7);
                 ("competition_level", JStr "UNKNOWN"); ("cpc", num 0);
                 ("search_volume", num 0); ("difficulty", num 40);
                 ("intent", JStr "unknown")]])
  = Ok (JArr [JObj [("keyword", JStr "seo"); ("competition", num 0);
                    ("competition_level", JStr "UNKNOWN"); ("cpc", num 0);
                    ("search_volume", num 0); ("difficulty", num 0);
                    ("intent", JStr "unknown")]]).
Proof.
  split; [reflexivity |].
  exact (proj1 (page_ranked_keywords_second_pass
                  (JObj [("ranked_keywords",
                          JArr [JObj [("keyword", JStr "seo");
                                      ("competition_score", num 7);
                                      ("keyword_difficulty", num 40)]])])
                  _ eq_refl)).
Defined.

Lemma somes_Forall {A} (P : A -> Prop) (l : list (option A)) :
  Forall (fun o => match o with Some x => P x | None => True end) l ->
  Forall P (somes l).
Proof.
  induction 1 as [| [x |] l Hx _ IH]; cbn [somes]; [constructor | | exact IH].
  constructor; assumption.
Qed.

Lemma url_map_item_title (h : Host) (item : JsVal) (o : option JsVal) :
  url_map_item h item = Ok o ->
  match o with
  | Some r => typeof_is_string (get_opt r "title") = true
  | None => True
  end.
Proof.
  unfold url_map_item. destruct (negb (truthy item)).
  { intros H. injection H as <-. exact I. }
  destruct (get item "url") as [item_url | e]; [| discriminate]. cbn [bind].
  destruct (get item "loc") as [item_loc | e]; [| discriminate]. cbn [bind].
  destruct (negb (typeof_is_string item_url) && negb (typeof_is_string item_loc)).
  { intros H. injection H as <-. exact I. }
  destruct (get item "title") as [title | e]; [| discriminate]. cbn [bind].
  destruct (negb (truthy title) || negb (typeof_is_string title)) eqn:Ht.
  - destruct (js_or item_url item_loc) as [| | | | u | |]; try discriminate.
    intros H. injection H as <-.
    change (typeof_is_string (js_or (JStr (generatedTitle h u)) (JStr u)) = true).
    unfold js_or. destruct (truthy (JStr (generatedTitle h u))); reflexivity.
  - intros H. injection H as <-.
    apply orb_false_iff in Ht. destruct Ht as [_ Ht].
    change (typeof_is_string title = true).
    destruct (typeof_is_string title); [reflexivity | discriminate Ht].
Qed.

Lemma filter_truthy (l : list JsVal) : forallb truthy (filter truthy l) = true.
Proof.
  induction l as [| x l IH]; [reflexivity |]. cbn [filter].
  destruct (truthy x) eqn:Hx; [| exact IH]. cbn [forallb]. rewrite Hx. exact IH.
Qed.

(** X11.  What the list normalizers return.  Whenever [url_map],
    [page_ranked_keywords] or [suggested_keywords] returns from a parsed
    body, the value is an array.  The suggestions contain no falsy entry
    (no empty string, [null], 0 or [false]), the link records all have a
    string [title], and the ranked keywords are as many as the collection
    read. *)
Theorem list_normalizers_return_lists (h : Host) (func : WebhookFunction)
    (responseData v : JsVal) :
  func <> url_scrape ->
  normalizeResponse h func responseData = Ok v ->
  exists items,
    v = JArr items /\
    (func = suggested_keywords -> forallb truthy items = true) /\
    (func = url_map ->
     Forall (fun r => typeof_is_string (get_opt r "title") = true) items) /\
    (func = page_ranked_keywords ->
     forall keywords,
       nested_or_direct (first_element responseData) "ranked_keywords" = JArr keywords ->
       List.length items = List.length keywords).
Proof.
  intros Hfunc. unfold normalizeResponse, normalizeData.
  set (data := first_element responseData).
  destruct func; [| contradiction Hfunc; reflexivity | |].
  - unfold normalize_url_map.
    destruct (get_opt data "internal_links") as [| | | | | links |];
      try (intros H; injection H as <-; exists [];
           repeat split; try discriminate; constructor).
    destruct (map_result (url_map_item h) links) as [mapped | e] eqn:Hm; [| discriminate].
    cbn [bind]. intros H. injection H as <-. exists (somes mapped).
    repeat split; try discriminate. intros _. apply somes_Forall.
    eapply map_result_Forall; [| exact Hm].
    intros item o Ho. exact (url_map_item_title h item o Ho).
  - unfold normalize_page_ranked_keywords.
    destruct (nested_or_direct data "ranked_keywords") as [| | | | | keywords |];
      try (intros H; injection H as <-; exists [];
           repeat split; try discriminate; intros _ l Hl; discriminate Hl).
    destruct (map_result ranked_keyword keywords) as [records | e] eqn:Hm; [| discriminate].
    cbn [bind]. intros H. injection H as <-. exists records.
    repeat split; try discriminate. intros _ l Hl. injection Hl as <-.
    exact (map_result_length _ _ _ Hm).
  - unfold normalize_suggested_keywords.
    assert (Hfallback : forall v0,
      match nested_or_direct data "suggested_keywords" with
      | JArr keywords =>
          let* mapped := map_result suggestion keywords in Ok (JArr (filter truthy mapped))
      | _ => Ok (JArr [])
      end = Ok v0 ->
      exists items, v0 = JArr items /\ forallb truthy items = true).
    { intros v0.
      destruct (nested_or_direct data "suggested_keywords") as [| | | | | keywords |];
        try (intros H; injection H as <-; exists []; split; reflexivity).
      destruct (map_result suggestion keywords) as [mapped | e]; [| discriminate].
      cbn [bind]. intros H. injection H as <-. exists (filter truthy mapped).
      split; [reflexivity | apply filter_truthy]. }
    destruct (if truthy data then get_opt data "related_keyword" else JUndefined)
      as [| | | | | related |];
      try (intros H; destruct (Hfallback v H) as (items & -> & Hi); exists items;
           repeat split; try discriminate; intros _; exact Hi).
    destruct (map_result (fun kw => get kw "keyword") related) as [mapped | e];
      [| discriminate].
    cbn [bind]. intros H. injection H as <-. exists (filter truthy mapped).
    repeat split; try discriminate. intros _. apply filter_truthy.
Qed.

Lemma list_normalizers_return_lists_witness :
  exists items,
    JArr [JStr "seo"; JStr "sem"] = JArr items /\
    (suggested_keywords = suggested_keywords -> forallb truthy items = true) /\
    (suggested_keywords = url_map ->
     Forall (fun r => typeof_is_string (get_opt r "title") = true) items) /\
    (suggested_keywords = page_ranked_keywords ->
     forall keywords,
       nested_or_direct
         (first_element
            (JObj [("related_keyword",
                    JArr [JObj [("keyword", JStr "seo")]; JObj [("keyword", JStr "")];
                          JObj [("keyword", JStr "sem")]])]))
         "ranked_keywords" = JArr keywords ->
       List.length items = List.length keywords).
Proof.
  apply (list_normalizers_return_lists (table_host []) suggested_keywords
           (JObj [("related_keyword",
                   JArr [JObj [("keyword", JStr "seo")]; JObj [("keyword", JStr "")];
                         JObj [("keyword", JStr "sem")]])])).
  - discriminate.
  - reflexivity.
Defined.

Lemma truthy_not_nullish (v : JsVal) : truthy v = true -> nullish v = false.
Proof. destruct v; intros H; try discriminate H; reflexivity. Qed.

Lemma url_map_item_address (h : Host) (item : JsVal) (u : string) :
  link_address item u ->
  url_map_item h item = Ok (Some (link_record h item u)).
Proof.
  intros (Hitem & Hu & Haddr). unfold url_map_item, link_record.
  rewrite Hitem. cbn [negb].
  rewrite !(get_get_opt item _ (truthy_not_nullish item Hitem)). cbn [bind].
  assert (Htu : truthy (JStr u) = true).
  { cbn [truthy]. destruct u; [contradiction Hu; reflexivity | reflexivity]. }
  assert (Hguard : negb (typeof_is_string (get_opt item "url"))
                   && negb (typeof_is_string (get_opt item "loc")) = false).
  { destruct Haddr as [-> | [_ ->]]; [reflexivity | apply andb_false_r]. }
  assert (Hurl : js_or (get_opt item "url") (get_opt item "loc") = JStr u).
  { unfold js_or. destruct Haddr as [-> | [-> ->]]; [rewrite Htu |]; reflexivity. }
  rewrite Hguard, Hurl.
  destruct (truthy (get_opt item "title")); [| reflexivity].
  destruct (typeof_is_string (get_opt item "title")); reflexivity.
Qed.

Lemma map_url_map_item (h : Host) (links : list JsVal) (addresses : list string) :
  Forall2 link_address links addresses ->
  exists mapped,
    map_result (url_map_item h) links = Ok mapped /\
    somes mapped = link_records h links addresses.
Proof.
  induction 1 as [| item u links addresses Hitem _ (mapped & Hm & Hs)].
  - exists []. split; reflexivity.
  - exists (Some (link_record h item u) :: mapped). split.
    + cbn [map_result]. rewrite (url_map_item_address h item u Hitem). cbn [bind].
      rewrite Hm. reflexivity.
    + cbn [somes]. rewrite Hs. reflexivity.
Qed.

(** X12.  Sitemap links.  When every entry of [internal_links] is an
    object whose address is a non-empty string ([url], or [loc] when [url]
    is absent or falsy), [url_map] returns one record per entry, in order:
    its [url] is the address and its [title] is the entry's own non-empty
    string title, or else the title generated from the address (the address
    itself when nothing can be generated). *)
Theorem url_map_one_record_per_link (h : Host) (data : JsVal)
    (links : list JsVal) (addresses : list string) :
  get_opt data "internal_links" = JArr links ->
  Forall2 link_address links addresses ->
  normalize_url_map h data = Ok (JArr (link_records h links addresses)) /\
  List.length (link_records h links addresses) = List.length links /\
  map (fun r => get_opt r "url") (link_records h links addresses)
  = map JStr addresses.
Proof.
  intros Hdata Hlinks. split; [| split].
  - unfold normalize_url_map. rewrite Hdata.
    destruct (map_url_map_item h links addresses Hlinks) as (mapped & Hm & Hs).
    rewrite Hm. cbn [bind]. rewrite Hs. reflexivity.
  - unfold link_records. rewrite length_map, length_combine.
    rewrite <- (Forall2_length Hlinks). apply Nat.min_id.
  - clear Hdata. unfold link_records.
    induction Hlinks as [| item u links addresses _ _ IH]; [reflexivity |].
    cbn [combine map fst snd]. rewrite IH. reflexivity.
Qed.

Lemma url_map_one_record_per_link_witness :
  normalize_url_map ascii_host (JObj [("internal_links", JArr sitemap_links)])
  = Ok (JArr [JObj [("url", JStr "https://a.example/pricing");
                    ("title", JStr "Pricing")];
              JObj [("url", JStr "https://a.example/blog/seo-tips.html");
                    ("title", JStr "Seo Tips")]]).
Proof.
  refine (proj1 (url_map_one_record_per_link ascii_host
                   (JObj [("internal_links", JArr sitemap_links)]) sitemap_links
                   ["https://a.example/pricing"; "https://a.example/blog/seo-tips.html"]
                   eq_refl _)).
  unfold sitemap_links. constructor; [| constructor; [| constructor]].
  - split; [reflexivity | split; [discriminate | left; reflexivity]].
  - split; [reflexivity | split; [discriminate | right; split; reflexivity]].
Defined.

Lemma split_on_nonempty (sep : ascii) (s : string) : split_on sep s <> [].
Proof.
  destruct s as [| c s]; [discriminate |]. cbn [split_on].
  destruct (Ascii.eqb c sep); [discriminate |].
  destruct (split_on sep s); discriminate.
Qed.

Lemma split_on_app (sep : ascii) (a b : string) :
  split_on sep (a ++ String sep b) = split_on sep a ++ split_on sep b.
Proof.
  induction a as [| c a IH].
  - cbn. rewrite Ascii.eqb_refl. reflexivity.
  - cbn [append split_on]. rewrite IH.
    destruct (Ascii.eqb c sep); [reflexivity |].
    destruct (split_on sep a) as [| p ps] eqn:Ha; [| reflexivity].
    contradiction (split_on_nonempty sep a Ha).
Qed.

Lemma split_on_lacks (sep : ascii) (s : string) :
  lacks sep s = true -> split_on sep s = [s].
Proof.
  induction s as [| c s IH]; intros H; [reflexivity |].
  cbn [lacks] in H. apply andb_true_iff in H. destruct H as [Hc Hs].
  cbn [split_on]. rewrite (IH Hs).
  destruct (Ascii.eqb c sep); [discriminate Hc | reflexivity].
Qed.

Lemma last_segment (pre seg : string) :
  lacks "/" seg = true -> seg <> EmptyString ->
  last (filter (fun p => negb (p =? "")) (split_on "/" (pre ++ String "/" seg)))
       EmptyString = seg.
Proof.
  intros Hl Hs. rewrite split_on_app, filter_app, (split_on_lacks _ _ Hl).
  cbn [filter].
  destruct (seg =? "")%string eqn:He; [apply String.eqb_eq in He; contradiction |].
  cbn [negb]. apply last_last.
Qed.

(** X13.  Generated titles.  The title generated for a link depends only
    on the last non-empty path segment of its address: scheme, host and the
    directories before it play no part, and neither does a trailing
    slash. *)
Theorem generatedTitle_last_segment (h : Host) (pre seg : string) :
  lacks "/" seg = true -> seg <> EmptyString ->
  generatedTitle h (pre ++ "/" ++ seg) = generatedTitle h seg /\
  generatedTitle h (pre ++ "/" ++ seg ++ "/") = generatedTitle h seg.
Proof.
  intros Hl Hs.
  assert (Hseg : generatedTitle h seg
                 = join " " (map (capitalize h)
                     (split_on " " (strip_extension
                        (map_chars (fun c => if is_dash c then " "%char else c) seg))))).
  { unfold generatedTitle. rewrite (split_on_lacks _ _ Hl). cbn [filter].
    destruct (seg =? "")%string eqn:He; [apply String.eqb_eq in He; contradiction |].
    reflexivity. }
  rewrite Hseg. split.
  - unfold generatedTitle.
    change (pre ++ "/" ++ seg)%string with (pre ++ String "/" seg)%string.
    rewrite (last_segment pre seg Hl Hs). reflexivity.
  - unfold generatedTitle.
    replace (pre ++ "/" ++ seg ++ "/")%string
      with ((pre ++ String "/" seg) ++ String "/" "")%string
      by (rewrite string_app_assoc; reflexivity).
    rewrite split_on_app, filter_app. cbn [split_on filter String.eqb negb].
    rewrite app_nil_r, (last_segment pre seg Hl Hs). reflexivity.
Qed.

Lemma generatedTitle_last_segment_witness :
  generatedTitle ascii_host "https://a.example/blog/seo-tips.html" = "Seo Tips"%string /\
  generatedTitle ascii_host "https://a.example/blog/seo-tips.html/" = "Seo Tips"%string.
Proof.
  exact (generatedTitle_last_segment ascii_host "https://a.example/blog"
           "seo-tips.html" eq_refl (fun H => match H with end)).
Defined.

Lemma not_ok_inner_try_throws (h : Host) (response : Response) :
  exists e, not_ok_inner_try h response = Throw e.
Proof.
  unfold not_ok_inner_try.
  destruct (JSON_parse h (body response)) as [errorData | e]; [| exists e; reflexivity].
  cbn [bind].
  destruct (get errorData "message") as [message | e]; [| exists e; reflexivity].
  cbn [bind]. eexists. reflexivity.
Qed.

(** X14.  How a failed webhook call is reported.  A network failure with
    message [m], a body that the parser rejects with message [m], and a
    response that is not [ok] all reject with
    [Failed to get data from custom tool: <function>. <cause>]; for a
    response that is not [ok] the cause is always
    [Webhook request failed with status <status>: <body>], whether or not
    the body is JSON: a [message] field of the body never reaches the
    caller. *)
Theorem callWebhookTool_failure_report (h : Host) (func : WebhookFunction)
    (response : Response) (m : string) :
  callWebhookTool h func (Throw (Error m)) = Throw (tool_failure func m) /\
  (ok response = true -> body response <> EmptyString ->
   JSON_parse h (body response) = Throw (Error m) ->
   callWebhookTool h func (Ok response) = Throw (tool_failure func m)) /\
  (ok response = false ->
   not_ok_branch h response
   = Throw (Error ("Webhook request failed with status " ++ decimal (status response)
                   ++ ": " ++ body response)) /\
   callWebhookTool h func (Ok response)
   = Throw (tool_failure func
              ("Webhook request failed with status " ++ decimal (status response)
               ++ ": " ++ body response))).
Proof.
  split; [reflexivity | split].
  - intros Hok Hbody Hparse. unfold callWebhookTool, callWebhookTool_try.
    cbn [bind]. rewrite Hok, Hparse. cbn [negb].
    destruct (body response =? "")%string eqn:He;
      [apply String.eqb_eq in He; contradiction | reflexivity].
  - intros Hok. split.
    + unfold not_ok_branch.
      destruct (not_ok_inner_try_throws h response) as [e ->]. reflexivity.
    + unfold callWebhookTool, callWebhookTool_try. cbn [bind]. rewrite Hok. reflexivity.
Qed.

Lemma callWebhookTool_failure_report_witness :
  not_ok_inner_try error_host (mkResponse false 401 error_body)
  = Throw (Error "Invalid API key") /\
  callWebhookTool error_host url_scrape (Ok (mkResponse false 401 error_body))
  = Throw (tool_failure url_scrape
             ("Webhook request failed with status 401: " ++ error_body)) /\
  callWebhookTool error_host url_scrape (Ok (mkResponse true 200 "<html>"))
  = Throw (tool_failure url_scrape "Unexpected token").
Proof.
  split; [reflexivity | split].
  - exact (proj2 (proj2 (proj2 (callWebhookTool_failure_report error_host url_scrape
                                  (mkResponse false 401 error_body) "")) eq_refl)).
  - refine (proj1 (proj2 (callWebhookTool_failure_report error_host url_scrape
                            (mkResponse true 200 "<html>") "Unexpected token"))
              eq_refl _ eq_refl).
    discriminate.
Defined.

(** ** More on [extractJson] *)

Lemma part_of_refl (s : string) : part_of s s.
Proof. exists EmptyString, EmptyString. cbn. rewrite string_app_nil_r. reflexivity. Qed.

Lemma part_of_trans (a b c : string) : part_of a b -> part_of b c -> part_of a c.
Proof.
  intros (p1 & q1 & ->) (p2 & q2 & ->).
  exists (p2 ++ p1)%string, (q1 ++ q2)%string.
  rewrite !string_app_assoc. reflexivity.
Qed.

Lemma part_of_cons (c : ascii) (a s : string) : part_of a s -> part_of a (String c s).
Proof. intros (p & q & ->). exists (String c p), q. reflexivity. Qed.

Lemma part_of_empty (s : string) : part_of EmptyString s.
Proof. exists EmptyString, s. reflexivity. Qed.

Lemma substring_prefix (m : nat) (s : string) :
  exists q, s = (substring 0 m s ++ q)%string.
Proof.
  revert m. induction s as [| c s IH]; intros m.
  - exists EmptyString. destruct m; reflexivity.
  - destruct m as [| m]; cbn [substring]; [exists (String c s); reflexivity |].
    destruct (IH m) as [q Hq]. exists q. cbn [append]. f_equal. exact Hq.
Qed.

Lemma part_of_substring (n m : nat) (s : string) : part_of (substring n m s) s.
Proof.
  revert n. induction s as [| c s IH]; intros n.
  - destruct n, m; apply part_of_refl.
  - destruct n as [| n].
    + destruct (substring_prefix m (String c s)) as [q Hq].
      exists EmptyString, q. exact Hq.
    + cbn [substring]. apply part_of_cons. apply IH.
Qed.

Lemma part_of_drop (n : nat) (s : string) : part_of (drop n s) s.
Proof.
  revert s. induction n as [| n IH]; intros s; [apply part_of_refl |].
  destruct s as [| c s]; [apply part_of_refl |].
  cbn [drop]. apply part_of_cons. apply IH.
Qed.

Lemma part_of_trimStart (s : string) : part_of (trimStart s) s.
Proof.
  destruct (trimStart_split s) as (ws & Hs & _).
  exists ws, EmptyString. rewrite string_app_nil_r. exact Hs.
Qed.

Lemma trimEnd_split (s : string) : exists ws, s = (trimEnd s ++ ws)%string.
Proof.
  induction s as [| c s [ws Hs]]; [exists EmptyString; reflexivity |].
  cbn [trimEnd]. destruct (trimEnd s) as [| d t] eqn:Ht.
  - destruct (is_space c).
    + exists (String c s). reflexivity.
    + exists ws. cbn [append] in *. f_equal. exact Hs.
  - exists ws. cbn [append] in *. f_equal. exact Hs.
Qed.

Lemma part_of_trim (s : string) : part_of (trim s) s.
Proof.
  apply (part_of_trans _ (trimStart s)); [| apply part_of_trimStart].
  unfold trim. destruct (trimEnd_split (trimStart s)) as [ws Hs].
  exists EmptyString, ws. exact Hs.
Qed.

Lemma part_of_fence_interior (text body : string) :
  fence_interior text = Some body -> part_of body text.
Proof.
  unfold fence_interior.
  destruct (indexOf fence text) as [i |]; [| discriminate].
  set (after := drop (i + 3) text).
  assert (Hafter : part_of after text) by apply part_of_drop.
  destruct (strip_prefix "json" after) as [rest |] eqn:Hj.
  - destruct (indexOf fence rest) as [j |]; [| discriminate].
    intros H. injection H as <-.
    apply (part_of_trans _ rest); [apply part_of_substring |].
    apply (part_of_trans _ after); [| exact Hafter].
    exists "json"%string, EmptyString. rewrite string_app_nil_r.
    apply strip_prefix_app. exact Hj.
  - destruct (indexOf fence after) as [j |]; [| discriminate].
    intros H. injection H as <-.
    apply (part_of_trans _ after); [apply part_of_substring | exact Hafter].
Qed.

(** X15.  [extractJson] only cuts.  Whatever the text, the result is one
    contiguous piece of it: nothing is inserted, reordered or rewritten,
    and the result is never longer than the text. *)
Theorem extractJson_part_of_text (text : string) :
  part_of (extractJson text) text /\
  (String.length (extractJson text) <= String.length text)%nat.
Proof.
  assert (H : part_of (extractJson text) text).
  { unfold extractJson. assert (Hm := js_match_fence text).
    destruct (fence_interior text) as [body |] eqn:Hi.
    - destruct Hm as (cap & -> & Ht). rewrite Ht.
      apply (part_of_trans _ body); [apply part_of_trim |].
      apply part_of_fence_interior. exact Hi.
    - rewrite Hm. cbv zeta.
      destruct (negb (js_search open_regex text =? -1)%Z); [| apply part_of_trim].
      match goal with
      | |- context [negb (?j =? -1)%Z] => destruct (negb (j =? -1)%Z)
      end; [| apply part_of_trim].
      unfold js_substring. apply part_of_substring. }
  split; [exact H |].
  destruct H as (pre & post & Heq). rewrite Heq at 2.
  rewrite !string_length_app. lia.
Qed.

Lemma find_last_end (c : ascii) (s : string) :
  find_last c (s ++ String c EmptyString) = Some (String.length s).
Proof.
  induction s as [| d s IH]; cbn [append find_last String.length].
  - rewrite Ascii.eqb_refl. reflexivity.
  - rewrite IH. reflexivity.
Qed.

Lemma substring_full (s : string) : substring 0 (String.length s) s = s.
Proof.
  induction s as [| c s IH]; [reflexivity |].
  cbn [String.length substring]. f_equal. exact IH.
Qed.

(** X16.  Bare JSON passes through.  A text without a code fence that
    starts with a brace and ends with the closing brace, or starts with a
    bracket and ends with the closing bracket, is returned unchanged. *)
Theorem extractJson_bare_json_unchanged (opener : ascii) (inner : string) :
  opener = "{"%char \/ opener = "["%char ->
  indexOf fence (String opener (inner ++ String (closer_of opener) EmptyString)) = None ->
  extractJson (String opener (inner ++ String (closer_of opener) EmptyString))
  = String opener (inner ++ String (closer_of opener) EmptyString).
Proof.
  intros Hopen Hfence.
  set (text := String opener (inner ++ String (closer_of opener) EmptyString)) in *.
  unfold extractJson. assert (Hm := js_match_fence text).
  unfold fence_interior in Hm. rewrite Hfence in Hm. rewrite Hm. cbv zeta.
  assert (Hfirst : find_first is_open text = Some (0%nat, opener)).
  { unfold text. cbn [find_first].
    destruct Hopen as [-> | ->]; reflexivity. }
  unfold open_regex. rewrite js_search_set, Hfirst.
  change (negb (Z.of_nat 0 =? -1)%Z) with true. cbv iota.
  assert (Hcloser : (if char_at_is text (Z.of_nat 0) "{" then "}"%char else "]"%char)
                    = closer_of opener).
  { unfold text. destruct Hopen as [-> | ->]; reflexivity. }
  rewrite Hcloser, lastIndexOf_find_last.
  assert (Hlast : find_last (closer_of opener) text
                  = Some (S (String.length inner))).
  { unfold text. cbn [find_last]. rewrite find_last_end. reflexivity. }
  rewrite Hlast.
  assert (Hne : negb (Z.of_nat (S (String.length inner)) =? -1)%Z = true).
  { destruct (Z.eqb_spec (Z.of_nat (S (String.length inner))) (-1)); [lia | reflexivity]. }
  rewrite Hne.
  assert (Hlen : String.length text = S (S (String.length inner))).
  { unfold text. cbn [String.length]. rewrite string_length_app. cbn. lia. }
  rewrite (js_substring_inclusive 0 (S (String.length inner)) text) by lia.
  replace (S (String.length inner) - 0 + 1)%nat with (String.length text) by lia.
  apply substring_full.
Qed.

Lemma extractJson_bare_json_unchanged_witness :
  extractJson bare_json = bare_json.
Proof.
  exact (extractJson_bare_json_unchanged "{" (dq ++ "a" ++ dq ++ ":1")
           (or_introl eq_refl) eq_refl).
Defined.

(** ** More on [isQuotaError] *)

Lemma markerless_falsy (message : JsVal) :
  markerless message ->
  exists v, (if truthy message
             then let* hit := includes_any message quota_markers in Ok (JBool hit)
             else Ok message) = Ok v /\ truthy v = false.
Proof.
  intros [-> | (m & -> & Hm)]; [exists JUndefined; split; reflexivity |].
  destruct (truthy (JStr m)) eqn:Ht; [| exists (JStr m); split; [reflexivity | exact Ht]].
  rewrite includes_any_string.
  assert (He : existsb (fun k => includes k m) quota_markers = false).
  { apply not_true_is_false. intros He. apply existsb_exists in He.
    destruct He as (k & Hin & Hk). rewrite (Hm k Hin) in Hk. discriminate. }
  rewrite He. exists (JBool false). split; reflexivity.
Qed.

(** X17.  The [code] field.  [isQuotaError] reads [error.code] only when
    [error.status] is missing or falsy.  With a falsy [status], a [code] of
    429, 500, 503, RESOURCE_EXHAUSTED or PERMISSION_DENIED makes the error
    Transient.  With a truthy [status] that is none of these, the error is
    Fatal whatever its [code] is, 429 included, as long as its [message] is
    absent or has no marker. *)
Theorem isQuotaError_code_field (fields : list (string * JsVal)) :
  let error := JObj fields in
  (truthy (get_opt error "status") = false ->
   transient_status (get_opt error "code") ->
   classify error = Ok Transient) /\
  (truthy (get_opt error "status") = true ->
   status_is_transient (get_opt error "status") = false ->
   markerless (get_opt error "message") ->
   classify error = Ok Fatal).
Proof.
  intros error. unfold error, get_opt, get.
  set (status := match lookup "status" fields with Some x => x | None => JUndefined end).
  set (code := match lookup "code" fields with Some x => x | None => JUndefined end).
  set (message := match lookup "message" fields with Some x => x | None => JUndefined end).
  split.
  - intros Hs Hc. apply transient_status_test in Hc.
    apply classify_transient. exists (JBool true). split; [| reflexivity].
    unfold isQuotaError, get. fold status code. cbn [bind].
    rewrite Hs. cbn [bind]. rewrite Hc. reflexivity.
  - intros Hs Ht Hm. apply classify_fatal.
    destruct (markerless_falsy message Hm) as (v & Hv & Hf).
    exists v. split; [| exact Hf].
    unfold isQuotaError, get. fold status code message. cbn [bind].
    rewrite Hs. cbn [bind]. rewrite Ht. exact Hv.
Qed.

Lemma isQuotaError_code_field_witness :
  classify (JObj [("code", num 503)]) = Ok Transient /\
  classify (JObj [("status", JStr "INVALID_ARGUMENT"); ("code", num 429)]) = Ok Fatal.
Proof.
  split.
  - apply (proj1 (isQuotaError_code_field [("code", num 503)])); [reflexivity |].
    right. right. left. exists (inject_Z 503). split; reflexivity.
  - apply (proj2 (isQuotaError_code_field
                    [("status", JStr "INVALID_ARGUMENT"); ("code", num 429)]));
      [reflexivity | reflexivity | left; reflexivity].
Defined.

(** ** Text, image and speech operations *)

Lemma withRetry_ok_inv {S A} (fn : Action S A) (retries : nat) :
  forall baseDelay w v w',
  withRetry fn retries baseDelay w = (Ok v, w') ->
  exists w0, fn w0 = (Ok v, w').
Proof.
  induction retries as [| r IH]; intros baseDelay w v w'; cbn [withRetry];
    destruct (fn w) as [[v0 | e] w1] eqn:Hfn.
  - intros H. injection H as <- <-. exists w. exact Hfn.
  - discriminate.
  - intros H. injection H as <- <-. exists w. exact Hfn.
  - destruct (isQuotaError e) as [q | e']; [| discriminate].
    destruct (truthy q); [apply IH | discriminate].
Qed.

Lemma withModelFallback_answer {S A} (f : Task S A) (w : World S) (v : A) (w' : World S) :
  withModelFallback f None w = (Ok v, w') ->
  exists role model w0,
    (role = Primary /\ model = PRIMARY_MODEL \/
     role = Fallback /\ model = FALLBACK_MODEL) /\
    f model (remote w0) = (Ok v, remote w') /\
    events w' = events w0 ++ [Invoked role model].
Proof.
  assert (Hlast : forall role model w0,
            invoke role f model w0 = (Ok v, w') ->
            f model (remote w0) = (Ok v, remote w') /\
            events w' = events w0 ++ [Invoked role model]).
  { intros role model w0 H. rewrite invoke_outcome in H. injection H as H1 H2.
    subst w'. cbn [remote events]. split; [| reflexivity].
    destruct (f model (remote w0)) as [r s']. cbn [fst snd] in *. rewrite H1. reflexivity. }
  unfold withModelFallback.
  destruct (withRetry (invoke Primary f PRIMARY_MODEL) 1 1000 w) as [[v0 | e] w1] eqn:Hp.
  - intros H. injection H as <- <-.
    destruct (withRetry_ok_inv _ _ _ _ _ _ Hp) as [w0 H0].
    exists Primary, PRIMARY_MODEL, w0. split; [left; split; reflexivity |].
    exact (Hlast _ _ _ H0).
  - destruct (isQuotaError e) as [q | e']; [| discriminate].
    destruct (truthy q); [| discriminate].
    intros Hf. destruct (withRetry_ok_inv _ _ _ _ _ _ Hf) as [w0 H0].
    exists Fallback, FALLBACK_MODEL, w0. split; [right; split; reflexivity |].
    exact (Hlast _ _ _ H0).
Qed.

Lemma trimEnd_idempotent (s : string) : trimEnd (trimEnd s) = trimEnd s.
Proof.
  induction s as [| c s IH]; [reflexivity |].
  cbn [trimEnd]. destruct (trimEnd s) as [| d t] eqn:Ht.
  - destruct (is_space c) eqn:Hc; [reflexivity |]. cbn [trimEnd]. rewrite Hc. reflexivity.
  - cbn [trimEnd] in *. rewrite IH. reflexivity.
Qed.

Lemma trimStart_trimEnd (s : string) :
  trimStart s = s -> trimStart (trimEnd s) = trimEnd s.
Proof.
  destruct s as [| c s]; [reflexivity |].
  cbn [trimStart]. destruct (is_space c) eqn:Hc.
  - intros H. exfalso.
    destruct (trimStart_split s) as (ws & Hs & _).
    assert (Hl : String.length s = (String.length ws + String.length (trimStart s))%nat)
      by (rewrite Hs at 1; apply string_length_app).
    rewrite H in Hl. cbn [String.length] in Hl. lia.
  - intros _. cbn [trimEnd].
    destruct (trimEnd s); rewrite ?Hc; cbn [trimStart]; rewrite Hc; reflexivity.
Qed.

Lemma trimStart_idempotent (s : string) : trimStart (trimStart s) = trimStart s.
Proof.
  induction s as [| c s IH]; [reflexivity |].
  cbn [trimStart]. destruct (is_space c) eqn:Hc; [exact IH |].
  cbn [trimStart]. rewrite Hc. reflexivity.
Qed.

Lemma trim_idempotent (s : string) : trim (trim s) = trim s.
Proof.
  unfold trim.
  rewrite (trimStart_trimEnd (trimStart s) (trimStart_idempotent s)).
  apply trimEnd_idempotent.
Qed.

Lemma call_trim_trimmed (text : JsVal) (t : string) :
  call_trim text = Ok t -> trim t = t.
Proof.
  destruct text; try discriminate. cbn [call_trim].
  intros H. injection H as <-. apply trim_idempotent.
Qed.

Lemma call_trim_string (text : JsVal) (t : string) :
  call_trim text = Ok t -> exists text0, text = JStr text0 /\ t = trim text0.
Proof.
  destruct text as [| | | | text0 | |]; try discriminate. cbn [call_trim].
  intros H. injection H as <-. exists text0. split; reflexivity.
Qed.

Lemma trimmed_answer {S} (generateContent : GenerateContent S) (prompt : string)
    (wrap : string -> string) (w : World S) (v : JsVal) (w' : World S) :
  withModelFallback
    (fun model s =>
       match generateContent model prompt s with
       | (Throw e, s1) => (Throw e, s1)
       | (Ok text, s1) =>
           (match call_trim text with
            | Ok t => Ok (JStr (wrap t))
            | Throw e => Throw e
            end, s1)
       end) None w = (Ok v, w') ->
  answered_with generateContent prompt wrap v w'.
Proof.
  intros H. apply withModelFallback_answer in H.
  destruct H as (role & model & w0 & Hrole & Hf & Hev).
  destruct (generateContent model prompt (remote w0)) as [[text | e] s1] eqn:Hgen;
    [| discriminate Hf].
  destruct (call_trim text) as [t | e] eqn:Ht; [| discriminate Hf].
  injection Hf as Hv Hs. subst v s1.
  destruct (call_trim_string text t Ht) as (text0 & -> & ->).
  exists role, model, (events w0), (remote w0), text0.
  split; [exact Hrole |]. split; [exact Hgen |]. split; [exact Hev |].
  split; [reflexivity | apply trim_idempotent].
Qed.

Lemma trimmed_answer_at_once {S} (generateContent : GenerateContent S) (prompt : string)
    (wrap : string -> string) (w : World S) (text : string) (s1 : S) :
  generateContent PRIMARY_MODEL prompt (remote w) = (Ok (JStr text), s1) ->
  withModelFallback
    (fun model s =>
       match generateContent model prompt s with
       | (Throw e, s1) => (Throw e, s1)
       | (Ok text, s1) =>
           (match call_trim text with
            | Ok t => Ok (JStr (wrap t))
            | Throw e => Throw e
            end, s1)
       end) None w
  = (Ok (JStr (wrap (trim text))),
     mkWorld s1 (events w ++ [Invoked Primary PRIMARY_MODEL])).
Proof.
  intros Hgen. unfold withModelFallback. cbn [withRetry].
  rewrite invoke_outcome, Hgen. reflexivity.
Qed.

(** X18.  Text operations behind the model fallback.  Whenever
    [reviewArticle], [transformText] or [generateContextualAddition]
    resolves, the value is made from the text that the last model call
    answered, by the primary or by the fallback model: it is that text
    without its leading and trailing white space, and for the addition
    types IMAGE and GRAPH wrapped as [[IMAGE: ...]] or [[GRAPH: ...]].  When the
    primary model answers a string at the first call, the operation resolves
    at once with that value. *)
Theorem text_operations_return_trimmed_text {S} (generateContent : GenerateContent S)
    (prompt : string) (type : AdditionType) (w : World S) :
  (forall v w',
     reviewArticle generateContent prompt w = (Ok v, w') \/
     transformText generateContent prompt w = (Ok v, w') ->
     answered_with generateContent prompt (fun t => t) v w') /\
  (forall v w',
     generateContextualAddition generateContent prompt type w = (Ok v, w') ->
     answered_with generateContent prompt (placeholder type) v w') /\
  (forall text s1,
     generateContent PRIMARY_MODEL prompt (remote w) = (Ok (JStr text), s1) ->
     let w1 := mkWorld s1 (events w ++ [Invoked Primary PRIMARY_MODEL]) in
     reviewArticle generateContent prompt w = (Ok (JStr (trim text)), w1) /\
     transformText generateContent prompt w = (Ok (JStr (trim text)), w1) /\
     generateContextualAddition generateContent prompt type w
     = (Ok (JStr (placeholder type (trim text))), w1)).
Proof.
  split; [| split].
  - intros v w' [H | H];
      exact (trimmed_answer generateContent prompt (fun t => t) w v w' H).
  - intros v w' H.
    exact (trimmed_answer generateContent prompt (placeholder type) w v w' H).
  - intros text s1 Hgen. cbv zeta. split; [| split].
    + exact (trimmed_answer_at_once generateContent prompt (fun t => t) w text s1 Hgen).
    + exact (trimmed_answer_at_once generateContent prompt (fun t => t) w text s1 Hgen).
    + exact (trimmed_answer_at_once generateContent prompt (placeholder type)
               w text s1 Hgen).
Qed.

Lemma text_operations_return_trimmed_text_witness :
  reviewArticle padding_model "p" (mkWorld tt [])
  = (Ok (JStr "a sunny beach at dawn"), mkWorld tt [Invoked Primary PRIMARY_MODEL]) /\
  generateContextualAddition padding_model "p" IMAGE (mkWorld tt [])
  = (Ok (JStr "[IMAGE: a sunny beach at dawn]"),
     mkWorld tt [Invoked Primary PRIMARY_MODEL]).
Proof.
  destruct (proj2 (proj2 (text_operations_return_trimmed_text padding_model "p" IMAGE
                            (mkWorld tt [])))
              "  a sunny beach at dawn  "%string tt eq_refl) as (H1 & _ & H3).
  split; [exact H1 | exact H3].
Defined.

Lemma first_inline_data_url (h : Host) (parts : list JsVal) (url : string) :
  first_inline h parts = Ok (Some url) -> exists rest, url = ("data:" ++ rest)%string.
Proof.
  induction parts as [| part parts IH]; cbn [first_inline]; [discriminate |].
  destruct (get part "inlineData") as [inlineData | e]; [| discriminate]. cbn [bind].
  destruct (truthy inlineData); [| exact IH].
  intros H. injection H as <-. unfold data_url. eexists. reflexivity.
Qed.

Lemma image_of_response_data_url (h : Host) (msg : string) (response v : JsVal) :
  image_of_response h msg response = Ok v ->
  exists rest, v = JStr ("data:" ++ rest).
Proof.
  unfold image_of_response.
  destruct (candidate_parts response) as [parts | e]; [| discriminate]. cbn [bind].
  destruct (inline_image h parts) as [[url |] | e] eqn:Hi; try discriminate. cbn [bind].
  intros H. injection H as <-.
  unfold inline_image in Hi. destruct (negb (truthy parts)); [discriminate |].
  destruct parts; try discriminate.
  destruct (first_inline_data_url h _ _ Hi) as [rest ->]. exists rest. reflexivity.
Qed.

Lemma tryImagen4_data_url {S} (h : Host) (generateImages : GenerateResponse S)
    (prompt : string) (w w' : World S) (v : JsVal) :
  tryImagen4 h generateImages prompt w = (Ok v, w') ->
  exists rest, v = JStr ("data:" ++ rest).
Proof.
  unfold tryImagen4.
  destruct (perform _ w) as [[response | e] w1]; [| discriminate].
  destruct (get response "generatedImages") as [generatedImages | e]; [| discriminate].
  cbn [bind].
  destruct (truthy _); [| discriminate].
  intros H. injection H as <- _. eexists. reflexivity.
Qed.

Lemma generateArticleImage_data_url {S} (h : Host)
    (generateContent generateImages : GenerateResponse S) (prompt : string)
    (w w' : World S) (v : JsVal) :
  generateArticleImage h generateContent generateImages prompt w = (Ok v, w') ->
  exists rest, v = JStr ("data:" ++ rest).
Proof.
  intros H. unfold generateArticleImage in H.
  destruct (withRetry (tryNanoBanana h generateContent prompt) 1 1000 w)
    as [[v0 | e] w1] eqn:Hn.
  - injection H as <- <-.
    destruct (withRetry_ok_inv _ _ _ _ _ _ Hn) as [w0 H0].
    unfold tryNanoBanana in H0.
    destruct (perform _ w0) as [[response | e] w2]; [| discriminate].
    injection H0 as H0 _. exact (image_of_response_data_url _ _ _ _ H0).
  - destruct (withRetry_ok_inv _ _ _ _ _ _ H) as [w0 H0].
    exact (tryImagen4_data_url _ _ _ _ _ _ H0).
Qed.

(** X19.  Images and speech.  Whenever [generateArticleImage] or
    [editArticleImage] resolves, the value is a string that starts with
    [data:], whichever service produced it and whatever the shape of its
    answer; whenever [generateSpeech] resolves, the value is the truthy
    [data] field of the first part of the first candidate. *)
Theorem media_operations_results {S} (h : Host)
    (generateContent generateImages : GenerateResponse S) (prompt : string)
    (w w' : World S) (v : JsVal) :
  (generateArticleImage h generateContent generateImages prompt w = (Ok v, w') \/
   editArticleImage h generateContent prompt w = (Ok v, w') ->
   exists rest, v = JStr ("data:" ++ rest)) /\
  (generateSpeech generateContent prompt w = (Ok v, w') -> truthy v = true).
Proof.
  split.
  - intros [H | H].
    + exact (generateArticleImage_data_url _ _ _ _ _ _ _ H).
    + unfold editArticleImage, withRetry_default in H.
      destruct (withRetry_ok_inv _ _ _ _ _ _ H) as [w0 H0].
      unfold relabel in H0.
      destruct (perform _ w0) as [[response | e] w2]; [| discriminate].
      destruct (image_of_response h _ response) as [v0 | e] eqn:Hi; [| discriminate].
      injection H0 as <- _. exact (image_of_response_data_url _ _ _ _ Hi).
  - intros H. unfold generateSpeech, withRetry_default in H.
    destruct (withRetry_ok_inv _ _ _ _ _ _ H) as [w0 H0].
    unfold relabel in H0.
    destruct (perform _ w0) as [[response | e] w2]; [| discriminate].
    destruct (speech_data response) as [base64Audio | e]; [| discriminate].
    cbn [bind] in H0. destruct (truthy base64Audio) eqn:Ht; [| discriminate].
    cbn [negb] in H0. injection H0 as <- _. exact Ht.
Qed.

Lemma media_operations_results_witness :
  exists rest, JStr "data:image/png;base64,iVBORw0KGgo=" = JStr ("data:" ++ rest).
Proof.
  apply (proj1 (media_operations_results (table_host []) refusing_image_model
                  imagen_service "a lighthouse" (mkWorld 0%nat [])
                  (mkWorld 2%nat []) (JStr "data:image/png;base64,iVBORw0KGgo="))).
  left. reflexivity.
Defined.

(** X20.  The image fallback is unconditional.  When the first image model
    rejects the request with an error that is not Transient (a 400, say),
    [generateArticleImage] still goes on to Imagen, without a delay; when
    Imagen then answers with non-empty image bytes, the operation resolves
    with the PNG data URL of these bytes. *)
Theorem generateArticleImage_falls_back_on_any_error {S} (h : Host)
    (generateContent generateImages : GenerateResponse S) (prompt : string)
    (w : World S) (e response : JsVal) (s1 s2 : S) (bytes : string) :
  generateContent IMAGE_MODEL (enhancedPrompt prompt) (remote w) = (Throw e, s1) ->
  classify e = Ok Fatal ->
  generateImages IMAGEN_MODEL (enhancedPrompt prompt) s1 = (Ok response, s2) ->
  nullish response = false ->
  get_opt (get_opt (opt_index0 (get_opt response "generatedImages")) "image")
          "imageBytes" = JStr bytes ->
  bytes <> EmptyString ->
  generateArticleImage h generateContent generateImages prompt w
  = (Ok (JStr ("data:image/png;base64," ++ bytes)), mkWorld s2 (events w)).
Proof.
  intros Hnano Hfatal Himagen Hresp Hbytes Hne.
  apply classify_fatal in Hfatal. destruct Hfatal as (q & Hq & Hf).
  unfold generateArticleImage. cbn [withRetry].
  unfold tryNanoBanana at 1. unfold perform at 1. rewrite Hnano, Hq, Hf.
  unfold tryImagen4 at 1. unfold perform at 1. cbn [remote events].
  rewrite Himagen, (get_get_opt response _ Hresp). cbn [bind]. rewrite Hbytes.
  destruct bytes as [| c bytes]; [contradiction Hne; reflexivity |].
  reflexivity.
Qed.

Lemma generateArticleImage_falls_back_on_any_error_witness :
  generateArticleImage (table_host []) refusing_image_model imagen_service
    "a lighthouse" (mkWorld 0%nat [])
  = (Ok (JStr "data:image/png;base64,iVBORw0KGgo="), mkWorld 2%nat []).
Proof.
  refine (generateArticleImage_falls_back_on_any_error (table_host [])
            refusing_image_model imagen_service "a lighthouse" (mkWorld 0%nat [])
            _ _ 1%nat 2%nat "iVBORw0KGgo=" eq_refl eq_refl eq_refl eq_refl eq_refl _).
  discriminate.
Defined.

(** ** The application shell *)

Lemma getInitialProgress_stateToSave (appState : AppState) :
  getInitialProgress (stateToSave appState) = getInitialProgress appState.
Proof.
  unfold stateToSave.
  destruct (nonempty (imageUrl appState) && prefix "data:" (imageUrl appState));
    reflexivity.
Qed.

Lemma handle_progress (WORKFLOW_STEPS : Z -> option WorkflowStep)
    (app : App) (action : UserAction) :
  supplies_content action = true ->
  fst (getInitialProgress (appState app)) = highestCompletedStepIndex app ->
  fst (getInitialProgress (appState (handle WORKFLOW_STEPS app action)))
  = highestCompletedStepIndex (handle WORKFLOW_STEPS app action).
Proof.
  intros Hc Hinv. destruct action as [u c l | t | o links | d | i | [|] | k];
    cbn [handle supplies_content] in *.
  - unfold getInitialProgress. cbn. rewrite Hc. reflexivity.
  - unfold getInitialProgress. cbn. rewrite Hc. reflexivity.
  - unfold getInitialProgress. cbn [appState draft outline nonempty String.eqb negb].
    destruct o as [| x o]; [discriminate Hc | reflexivity].
  - unfold getInitialProgress. cbn [appState draft]. rewrite Hc. reflexivity.
  - exact Hinv.
  - reflexivity.
  - exact Hinv.
  - destruct (k <=? highestCompletedStepIndex app + 1)%Z; exact Hinv.
Qed.

(** X21.  Progress survives a reload.  In a session in which every
    completed step hands over content (a non-empty site address, topic and
    draft, an outline with at least one heading), the progress computed from
    the saved state is the progress the shell holds: after any sequence of
    actions, reloading the page unlocks the same steps; and right after a
    step was completed, it also opens the same step. *)
Theorem progress_survives_reload (WORKFLOW_STEPS : Z -> option WorkflowStep)
    (initialState : AppState) (actions : list UserAction) :
  forallb supplies_content actions = true ->
  let app := session WORKFLOW_STEPS initialState actions in
  highestCompletedStepIndex (reload app) = highestCompletedStepIndex app /\
  forall action,
    supplies_content action = true ->
    match action with
    | ImageGenerated _ | GoToStep _ | Restart false => True
    | _ => activeStep (reload (handle WORKFLOW_STEPS app action))
           = activeStep (handle WORKFLOW_STEPS app action)
    end.
Proof.
  intros Hall app. split.
  - unfold reload, mount. cbn [highestCompletedStepIndex].
    rewrite getInitialProgress_stateToSave.
    unfold app, session. clear app.
    assert (Hstart : fst (getInitialProgress (appState (mount initialState)))
                     = highestCompletedStepIndex (mount initialState)) by reflexivity.
    revert Hall Hstart. generalize (mount initialState) as a.
    induction actions as [| action actions IH]; intros a Hall Hstart; [exact Hstart |].
    cbn [forallb] in Hall. apply andb_true_iff in Hall. destruct Hall as [Ha Hrest].
    cbn [fold_left]. apply IH; [exact Hrest |].
    apply handle_progress; assumption.
  - intros action Hc. unfold reload, mount. cbn [activeStep].
    destruct action as [u c l | t | o links | d | i | [|] | k]; try exact I;
      rewrite getInitialProgress_stateToSave; cbn [handle supplies_content] in *;
      unfold getInitialProgress; cbn [appState draft outline topic websiteUrl].
    + cbn. rewrite Hc. reflexivity.
    + cbn. rewrite Hc. reflexivity.
    + cbn [nonempty String.eqb negb]. destruct o as [| x o]; [discriminate Hc | reflexivity].
    + rewrite Hc. reflexivity.
    + reflexivity.
Qed.

Lemma progress_survives_reload_witness :
  let app := session (fun _ => None) defaultState
               [SetupComplete "https://a.example" "US" "en"; TopicSelect "seo tips";
                GoToStep 0; ImageGenerated "data:image/png;base64,iVBORw0KGgo="] in
  highestCompletedStepIndex (reload app) = highestCompletedStepIndex app /\
  forall action,
    supplies_content action = true ->
    match action with
    | ImageGenerated _ | GoToStep _ | Restart false => True
    | _ => activeStep (reload (handle (fun _ => None) app action))
           = activeStep (handle (fun _ => None) app action)
    end.
Proof.
  exact (progress_survives_reload (fun _ => None) defaultState
           [SetupComplete "https://a.example" "US" "en"; TopicSelect "seo tips";
            GoToStep 0; ImageGenerated "data:image/png;base64,iVBORw0KGgo="] eq_refl).
Defined.

(** X22.  A generated image is not saved.  Every image address that
    [generateArticleImage] resolves with is a data URL; stored in the
    application state with [onImageGenerated], it is left out of what is
    written to [localStorage], so that after a reload the state has no image
    while every other field, and the progress, is as before. *)
Theorem generated_image_is_not_saved {S} (WORKFLOW_STEPS : Z -> option WorkflowStep)
    (h : Host) (generateContent generateImages : GenerateResponse S)
    (prompt : string) (w w' : World S) (v : JsVal) (app : App) :
  generateArticleImage h generateContent generateImages prompt w = (Ok v, w') ->
  exists url,
    v = JStr url /\
    let shown := handle WORKFLOW_STEPS app (ImageGenerated url) in
    imageUrl (appState shown) = url /\
    appState (reload shown)
    = mkAppState (websiteUrl (appState app)) (country (appState app))
        (language (appState app)) (topic (appState app)) (outline (appState app))
        (draft (appState app)) "" (internalLinks (appState app)).
Proof.
  intros H. destruct (generateArticleImage_data_url _ _ _ _ _ _ _ H) as [rest ->].
  exists ("data:" ++ rest)%string. split; [reflexivity |].
  cbn zeta. split; [reflexivity |].
  unfold reload, mount, stateToSave. cbn [handle appState imageUrl].
  assert (Hp : prefix "data:" ("data:" ++ rest) = true).
  { destruct rest; reflexivity. }
  rewrite Hp. reflexivity.
Qed.

Lemma generated_image_is_not_saved_witness :
  exists url,
    JStr "data:image/png;base64,iVBORw0KGgo=" = JStr url /\
    let shown := handle (fun _ => None) (mount defaultState) (ImageGenerated url) in
    imageUrl (appState shown) = url /\
    appState (reload shown) = mkAppState "" "" "" "" [] "" "" [].
Proof.
  exact (generated_image_is_not_saved (fun _ => None) (table_host [])
           refusing_image_model imagen_service "a lighthouse" (mkWorld 0%nat [])
           (mkWorld 2%nat []) (JStr "data:image/png;base64,iVBORw0KGgo=")
           (mount defaultState) eq_refl).
Defined.

(** ** The publishing step *)

Lemma join_split_on (sep : ascii) (s : string) :
  join (String sep EmptyString) (split_on sep s) = s.
Proof.
  induction s as [| c s IH]; [reflexivity |].
  cbn [split_on]. destruct (Ascii.eqb_spec c sep) as [-> | _].
  - destruct (split_on sep s) as [| p ps] eqn:Hs;
      [contradiction (split_on_nonempty sep s Hs) |].
    cbn [join]. cbn [join] in IH. rewrite IH. reflexivity.
  - destruct (split_on sep s) as [| p ps] eqn:Hs;
      [contradiction (split_on_nonempty sep s Hs) |].
    destruct ps as [| q ps]; cbn [join] in *; rewrite <- IH; reflexivity.
Qed.

Lemma split_on_line (line rest : string) :
  lacks newline line = true ->
  split_on newline (line ++ nl ++ rest) = line :: split_on newline rest.
Proof.
  intros H. change (line ++ nl ++ rest)%string with (line ++ String newline rest)%string.
  rewrite split_on_app, (split_on_lacks _ _ H). reflexivity.
Qed.

Lemma split_on_unlines (lines : list string) (rest : string) :
  forallb plain_line lines = true ->
  split_on newline (unlines lines ++ rest) = lines ++ split_on newline rest.
Proof.
  induction lines as [| line lines IH]; intros H; [reflexivity |].
  cbn [forallb] in H. apply andb_true_iff in H. destruct H as [Hl Hrest].
  unfold plain_line in Hl. apply andb_true_iff in Hl. destruct Hl as [Hl _].
  cbn [unlines fold_right]. fold (unlines lines).
  rewrite !string_app_assoc, (split_on_line _ _ Hl), (IH Hrest). reflexivity.
Qed.

Lemma findIndex_app {A} (p : A -> bool) (l : list A) (x : A) (rest : list A) :
  forallb (fun y => negb (p y)) l = true -> p x = true ->
  findIndex p (l ++ x :: rest) = Some (List.length l).
Proof.
  intros Hl Hx. induction l as [| y l IH]; cbn [app findIndex List.length].
  - rewrite Hx. reflexivity.
  - cbn [forallb] in Hl. apply andb_true_iff in Hl. destruct Hl as [Hy Hl].
    destruct (p y); [discriminate Hy |]. rewrite (IH Hl). reflexivity.
Qed.

Lemma trimEnd_empty (s : string) : trimEnd s = EmptyString -> all_space s = true.
Proof.
  induction s as [| c s IH]; [reflexivity |].
  cbn [trimEnd all_space]. destruct (trimEnd s) as [| d t]; [| discriminate].
  destruct (is_space c); [intros _; exact (IH eq_refl) | discriminate].
Qed.

Lemma trim_nonempty (t : string) :
  trim t <> EmptyString -> trimEnd t <> EmptyString.
Proof.
  intros H He. apply H. unfold trim.
  rewrite (trimStart_spaces t (trimEnd_empty t He)). reflexivity.
Qed.

Lemma title_line_shape (t : string) :
  trim t <> EmptyString ->
  is_title_line ("# " ++ t) = true /\ trim (strip_hash ("# " ++ t)) = trim t.
Proof.
  intros Ht. split.
  - unfold is_title_line, trim. cbn [append trimStart is_space].
    change (is_space "#") with false. cbv iota.
    cbn [trimEnd]. pose proof (trim_nonempty t Ht) as Hne.
    destruct (trimEnd t) as [| d r]; [contradiction Hne; reflexivity |].
    reflexivity.
  - cbn [append strip_hash]. change (Ascii.eqb "#" "#") with true. cbv iota.
    cbn [trimStart]. change (is_space " ") with true. cbv iota.
    unfold trim. rewrite trimStart_idempotent. reflexivity.
Qed.

(** X23.  Title and body of a draft.  When the draft consists of
    preamble lines that are not title lines, a line [# title] with a
    non-blank title, and the rest, the publishing step shows the trimmed
    title and the trimmed rest: the preamble is dropped and the body is
    exactly what follows the title line.  When no line is a title line, the
    title is the topic and the body is the whole draft, untrimmed. *)
Theorem title_and_body_of_draft (appState : AppState)
    (preamble : list string) (t rest : string) :
  (forallb plain_line preamble = true ->
   lacks newline t = true ->
   trim t <> EmptyString ->
   draft appState = (unlines preamble ++ "# " ++ t ++ nl ++ rest)%string ->
   title_and_body appState = (trim t, trim rest)) /\
  (forallb (fun line => negb (is_title_line line))
           (split_on newline (draft appState)) = true ->
   title_and_body appState = (topic appState, draft appState)).
Proof.
  split.
  - intros Hpre Ht Hne Hdraft. unfold title_and_body. rewrite Hdraft. cbv zeta.
    destruct (title_line_shape t Hne) as [Htitle Hstrip].
    assert (Hlines : split_on newline (unlines preamble ++ "# " ++ t ++ nl ++ rest)
                     = preamble ++ ("# " ++ t)%string :: split_on newline rest).
    { rewrite (split_on_unlines _ _ Hpre).
      replace ("# " ++ t ++ nl ++ rest)%string with (("# " ++ t) ++ nl ++ rest)%string
        by reflexivity.
      rewrite split_on_line; [reflexivity |].
      cbn [append lacks]. rewrite Ht. reflexivity. }
    rewrite Hlines.
    assert (Hnot : forallb (fun y => negb (is_title_line y)) preamble = true).
    { clear - Hpre. induction preamble as [| l ls IH]; [reflexivity |].
      cbn [forallb] in *. apply andb_true_iff in Hpre. destruct Hpre as [Hl Hls].
      unfold plain_line in Hl. apply andb_true_iff in Hl. destruct Hl as [_ Hl].
      rewrite Hl. exact (IH Hls). }
    rewrite (findIndex_app _ _ _ _ Hnot Htitle).
    rewrite app_nth2 by lia. rewrite Nat.sub_diag. cbn [nth].
    replace (List.length preamble + 1)%nat with (List.length (preamble ++ ["# " ++ t]%string))
      by (rewrite length_app; reflexivity).
    replace (preamble ++ ("# " ++ t)%string :: split_on newline rest)
      with ((preamble ++ [("# " ++ t)%string]) ++ split_on newline rest)
      by (rewrite <- app_assoc; reflexivity).
    rewrite skipn_app, skipn_all, Nat.sub_diag. cbn [app skipn].
    unfold nl. fold newline. rewrite join_split_on, Hstrip. reflexivity.
  - intros Hnone. unfold title_and_body. cbv zeta.
    assert (H : findIndex is_title_line (split_on newline (draft appState)) = None).
    { revert Hnone. generalize (split_on newline (draft appState)) as lines.
      induction lines as [| l ls IH]; [reflexivity |].
      cbn [forallb findIndex]. intros H. apply andb_true_iff in H. destruct H as [Hl Hls].
      destruct (is_title_line l); [discriminate Hl |]. rewrite (IH Hls). reflexivity. }
    rewrite H. reflexivity.
Qed.

Lemma title_and_body_of_draft_witness :
  title_and_body
    (mkAppState "" "" "" "seo" [] ("Here is the article:" ++ nl ++ "# SEO Tips "
                                   ++ nl ++ nl ++ "Start here." ++ nl) "" [])
  = ("SEO Tips"%string, "Start here."%string).
Proof.
  refine (proj1 (title_and_body_of_draft
                   (mkAppState "" "" "" "seo" []
                      ("Here is the article:" ++ nl ++ "# SEO Tips "
                       ++ nl ++ nl ++ "Start here." ++ nl) "" [])
                   ["Here is the article:"%string] "SEO Tips "
                   (nl ++ "Start here." ++ nl))
            eq_refl eq_refl _ eq_refl).
  intros H. cbv in H. discriminate H.
Defined.

Lemma keep_word_hyphen_chars (s : string) :
  all_chars (fun c => is_word c || is_hyphen c) (keep_word_hyphen s) = true.
Proof.
  induction s as [| c s IH]; [reflexivity |]. cbn [keep_word_hyphen].
  destruct (is_word c || is_hyphen c) eqn:Hc; [| exact IH].
  cbn [all_chars]. rewrite Hc. exact IH.
Qed.

Lemma replace_runs_hyphen_chars (p : ascii -> bool) (in_run : bool) (s : string) :
  all_chars p s = true -> p "-"%char = true ->
  all_chars p (replace_runs is_hyphen "-" in_run s) = true.
Proof.
  intros Hs Hp. revert in_run. induction s as [| c s IH]; intros in_run; [reflexivity |].
  cbn [all_chars] in Hs. apply andb_true_iff in Hs. destruct Hs as [Hc Hs].
  cbn [replace_runs]. destruct (is_hyphen c).
  - destruct in_run; [exact (IH Hs true) |].
    cbn [append all_chars]. rewrite Hp. exact (IH Hs true).
  - cbn [all_chars]. rewrite Hc. exact (IH Hs false).
Qed.

Lemma prefix_nil (s : string) : prefix EmptyString s = true.
Proof. destruct s; reflexivity. Qed.

Lemma prefix_cons (a b : ascii) (s1 s2 : string) :
  prefix (String a s1) (String b s2) = if Ascii.eqb a b then prefix s1 s2 else false.
Proof.
  cbn [prefix]. destruct (Ascii.ascii_dec a b) as [-> | Hne].
  - rewrite Ascii.eqb_refl. reflexivity.
  - destruct (Ascii.eqb_spec a b); [contradiction | reflexivity].
Qed.

Lemma prefix_hyphen (s : string) :
  prefix "-" s = match s with String c _ => is_hyphen c | EmptyString => false end.
Proof.
  destruct s as [| c r]; [reflexivity |].
  rewrite prefix_cons, prefix_nil. unfold is_hyphen. rewrite Ascii.eqb_sym.
  destruct (Ascii.eqb c "-"); reflexivity.
Qed.

Lemma includes_double_hyphen (c : ascii) (s : string) :
  includes "--" (String c s) = (is_hyphen c && prefix "-" s) || includes "--" s.
Proof.
  cbn [includes]. f_equal.
  change "--"%string with (String "-" "-"). rewrite prefix_cons.
  unfold is_hyphen. rewrite Ascii.eqb_sym. reflexivity.
Qed.

(** After [replace_runs], a hyphen is never followed by a hyphen; and after
    a hyphen of the input the output does not start with one. *)
Lemma replace_runs_no_double (s : string) :
  includes "--" (replace_runs is_hyphen "-" false s) = false /\
  includes "--" (replace_runs is_hyphen "-" true s) = false /\
  prefix "-" (replace_runs is_hyphen "-" true s) = false.
Proof.
  induction s as [| c s (IHf & IHt & IHp)]; [repeat split |].
  cbn [replace_runs]. destruct (is_hyphen c) eqn:Hc.
  - repeat split; try assumption.
    cbn [append]. rewrite includes_double_hyphen, IHt, IHp. reflexivity.
  - repeat split.
    + rewrite includes_double_hyphen, Hc, IHf. reflexivity.
    + rewrite includes_double_hyphen, Hc, IHf. reflexivity.
    + rewrite prefix_hyphen. exact Hc.
Qed.

(** X24.  Anchors of the table of contents.  Whatever the heading and
    whatever the engine's lower-casing does, the anchor made from a heading
    consists of letters, digits, underscores and hyphens only, and never has
    two hyphens in a row. *)
Theorem heading_id_shape (toLowerCase : string -> string) (text : string) :
  all_chars (fun c => is_word c || is_hyphen c) (heading_id toLowerCase text) = true /\
  includes "--" (heading_id toLowerCase text) = false.
Proof.
  unfold heading_id. split.
  - apply replace_runs_hyphen_chars; [apply keep_word_hyphen_chars | reflexivity].
  - apply replace_runs_no_double.
Qed.

(** ** [bufferToWave] *)

Lemma flat_map_bytes16_length {A} (f : A -> Z) (l : list A) :
  List.length (flat_map (fun i => bytes16 (f i)) l) = (2 * List.length l)%nat.
Proof.
  induction l as [| i l IH]; [reflexivity |].
  cbn [flat_map bytes16 app List.length]. rewrite IH. lia.
Qed.

Lemma frame_length (abuffer : AudioBuffer) (offset : nat) :
  List.length (frame abuffer offset) = (2 * numberOfChannels abuffer)%nat.
Proof.
  unfold frame.
  rewrite (flat_map_bytes16_length (fun i => pcm16 (getChannelData abuffer i offset))).
  rewrite length_seq. reflexivity.
Qed.

Lemma write_frames_enough (abuffer : AudioBuffer) (frames : nat) :
  forall fuel pos offset,
  (frames <= fuel)%nat ->
  write_frames fuel abuffer pos
    (pos + 2 * Z.of_nat (numberOfChannels abuffer) * Z.of_nat frames)%Z offset
  = flat_map (frame abuffer) (seq offset frames).
Proof.
  induction frames as [| n IH]; intros fuel pos offset Hfuel.
  - destruct fuel as [| fuel]; [reflexivity |]. cbn [write_frames seq flat_map].
    replace (pos <? pos + 2 * Z.of_nat (numberOfChannels abuffer) * Z.of_nat 0)%Z
      with false by (symmetry; apply Z.ltb_ge; lia).
    reflexivity.
  - destruct fuel as [| fuel]; [lia |]. cbn [write_frames seq flat_map].
    destruct (Nat.eq_dec (numberOfChannels abuffer) 0) as [Hc | Hc].
    + replace (pos <? pos + 2 * Z.of_nat (numberOfChannels abuffer)
                            * Z.of_nat (Datatypes.S n))%Z
        with false by (symmetry; apply Z.ltb_ge; lia).
      assert (Hempty : forall o, frame abuffer o = []).
      { intros o. unfold frame. rewrite Hc. reflexivity. }
      rewrite Hempty. clear - Hempty. generalize (Datatypes.S offset) as o.
      induction n as [| n IHn]; intros o; [reflexivity |].
      cbn [seq flat_map]. rewrite Hempty. apply IHn.
    + replace (pos <? pos + 2 * Z.of_nat (numberOfChannels abuffer)
                            * Z.of_nat (Datatypes.S n))%Z
        with true by (symmetry; apply Z.ltb_lt; lia).
      f_equal.
      replace (pos + 2 * Z.of_nat (numberOfChannels abuffer) * Z.of_nat (Datatypes.S n))%Z
        with ((pos + 2 * Z.of_nat (numberOfChannels abuffer))
              + 2 * Z.of_nat (numberOfChannels abuffer) * Z.of_nat n)%Z
        by lia.
      apply IH. lia.
Qed.

Lemma flat_map_frames_length (abuffer : AudioBuffer) (frames offset : nat) :
  List.length (flat_map (frame abuffer) (seq offset frames))
  = (2 * numberOfChannels abuffer * frames)%nat.
Proof.
  revert offset. induction frames as [| n IH]; intros offset; [cbn; lia |].
  cbn [seq flat_map]. rewrite length_app, frame_length, IH. lia.
Qed.

Lemma bytes32_read (data : Z) (rest : list Z) :
  (0 <= data < 4294967296)%Z -> uint32_at 0 (bytes32 data ++ rest) = data.
Proof.
  intros H. unfold uint32_at, bytes32. cbn [app nth Nat.add].
  Z.to_euclidean_division_equations. lia.
Qed.

Lemma bufferToWave_unfold (abuffer : AudioBuffer) :
  bufferToWave abuffer
  = wave_header abuffer
      (Z.of_nat (frameCount abuffer) * Z.of_nat (numberOfChannels abuffer) * 2 + 44)
    ++ flat_map (frame abuffer) (seq 0 (frameCount abuffer)).
Proof.
  unfold bufferToWave. cbv zeta. f_equal.
  replace (Z.of_nat (frameCount abuffer) * Z.of_nat (numberOfChannels abuffer) * 2 + 44)%Z
    with (44 + 2 * Z.of_nat (numberOfChannels abuffer) * Z.of_nat (frameCount abuffer))%Z
    by lia.
  apply write_frames_enough. lia.
Qed.

(** X25.  Layout of the WAV file.  The file has 44 bytes of header and
    two bytes per sample of every channel; it starts with RIFF, has WAVE at
    offset 8 and [data] at offset 36; as long as it is shorter than 2^32
    bytes, the size field at offset 4 is the file size less 8 and the one at
    offset 40 is the number of bytes after the header.  The copying loop
    stops by its own condition: more fuel gives the same file. *)
Theorem bufferToWave_layout (abuffer : AudioBuffer) :
  let file := bufferToWave abuffer in
  let size := List.length file in
  size = (44 + 2 * numberOfChannels abuffer * frameCount abuffer)%nat /\
  firstn 4 file = [82; 73; 70; 70]%Z /\
  firstn 4 (skipn 8 file) = [87; 65; 86; 69]%Z /\
  firstn 4 (skipn 36 file) = [100; 97; 116; 97]%Z /\
  ((Z.of_nat size < 4294967296)%Z ->
   uint32_at 4 file = (Z.of_nat size - 8)%Z /\
   uint32_at 40 file = Z.of_nat (List.length (skipn 44 file))) /\
  (forall fuel, (frameCount abuffer <= fuel)%nat ->
     wave_header abuffer (Z.of_nat size)
     ++ write_frames fuel abuffer 44 (Z.of_nat size) 0 = file).
Proof.
  cbv zeta.
  assert (Hsize : List.length (bufferToWave abuffer)
                  = (44 + 2 * numberOfChannels abuffer * frameCount abuffer)%nat).
  { rewrite bufferToWave_unfold, length_app, flat_map_frames_length. reflexivity. }
  assert (Hlen : Z.of_nat (List.length (bufferToWave abuffer))
                 = (Z.of_nat (frameCount abuffer) * Z.of_nat (numberOfChannels abuffer) * 2
                    + 44)%Z) by (rewrite Hsize; lia).
  split; [exact Hsize |].
  rewrite Hlen. rewrite bufferToWave_unfold.
  set (length := (Z.of_nat (frameCount abuffer) * Z.of_nat (numberOfChannels abuffer) * 2
                  + 44)%Z).
  set (data := flat_map (frame abuffer) (seq 0 (frameCount abuffer))).
  split; [reflexivity |]. split; [reflexivity |]. split; [reflexivity |]. split.
  - intros Hsmall. split.
    + change (uint32_at 4 (wave_header abuffer length ++ data))
        with (uint32_at 0 (bytes32 (length - 8)
                ++ skipn 8 (wave_header abuffer length ++ data))).
      apply bytes32_read. unfold length. lia.
    + change (uint32_at 40 (wave_header abuffer length ++ data))
        with (uint32_at 0 (bytes32 (length - 40 - 4) ++ data)).
      rewrite bytes32_read by (unfold length; lia).
      change (skipn 44 (wave_header abuffer length ++ data)) with data.
      unfold data. rewrite flat_map_frames_length. unfold length. lia.
  - intros fuel Hfuel. f_equal. unfold data, length.
    replace (Z.of_nat (frameCount abuffer) * Z.of_nat (numberOfChannels abuffer) * 2 + 44)%Z
      with (44 + 2 * Z.of_nat (numberOfChannels abuffer) * Z.of_nat (frameCount abuffer))%Z
      by lia.
    apply write_frames_enough. exact Hfuel.
Qed.

Lemma truncate_bounds (n : Z) (d : positive) :
  (-32768 * Zpos d <= n <= 32767 * Zpos d)%Z ->
  (-32768 <= Z.quot n (Zpos d) <= 32767)%Z.
Proof.
  intros [Hlo Hhi]. split.
  - rewrite <- (Z.quot_mul (-32768) (Zpos d)) by lia.
    apply Z.quot_le_mono; lia.
  - rewrite <- (Z.quot_mul 32767 (Zpos d)) by lia.
    apply Z.quot_le_mono; lia.
Qed.

Lemma pcm16_range (x : Float) : (-32768 <= pcm16 x <= 32767)%Z.
Proof.
  unfold pcm16. destruct (clamp x) as [sample |] eqn:Hclamp; [| lia].
  assert (Hs : (-1 <= sample <= 1)%Q).
  { destruct x as [q | | |]; cbn [clamp] in Hclamp; try discriminate;
      injection Hclamp as <-.
    - destruct (Qle_bool 1 q) eqn:H1; [split; discriminate |].
      destruct (Qle_bool q (-1)) eqn:H2; [split; discriminate |].
      split.
      + apply Qlt_le_weak, Qnot_le_lt. intros H. apply Qle_bool_iff in H.
        rewrite H in H2. discriminate.
      + apply Qlt_le_weak, Qnot_le_lt. intros H. apply Qle_bool_iff in H.
        rewrite H in H1. discriminate.
    - split; discriminate.
    - split; discriminate. }
  destruct sample as [n d]. destruct Hs as [Hlo Hhi].
  unfold Qle in Hlo, Hhi. cbn [Qnum Qden] in Hlo, Hhi.
  destruct (negb (Qle_bool 0 ((1 # 2) + (n # d)))) eqn:Hneg.
  - assert (Hlt : (Zpos d + 2 * n < 0)%Z).
    { apply negb_true_iff in Hneg.
      destruct (Z.lt_ge_cases (Zpos d + 2 * n) 0) as [Hl | Hg]; [exact Hl |].
      exfalso. assert (Hq : (0 <= (1 # 2) + (n # d))%Q).
      { unfold Qle, Qplus. cbn [Qnum Qden]. lia. }
      apply Qle_bool_iff in Hq. rewrite Hq in Hneg. discriminate. }
    unfold truncate, Qmult, inject_Z. cbn [Qnum Qden]. rewrite Pos.mul_1_r.
    apply truncate_bounds. lia.
  - unfold truncate, Qmult, inject_Z. cbn [Qnum Qden]. rewrite Pos.mul_1_r.
    apply truncate_bounds. lia.
Qed.

Lemma int16_read (v : Z) :
  (-32768 <= v <= 32767)%Z ->
  int16_of (v mod 256) ((v / 256) mod 256) = v.
Proof.
  intros H. unfold int16_of. cbv zeta.
  destruct (Z.leb_spec 32768 (v mod 256 + 256 * ((v / 256) mod 256)));
    Z.to_euclidean_division_equations; lia.
Qed.

Lemma samples_of_encoded (l : list Float) :
  samples_of (flat_map (fun x => bytes16 (pcm16 x)) l) = map pcm16 l.
Proof.
  induction l as [| x l IH]; [reflexivity |].
  cbn [flat_map bytes16 app samples_of map].
  rewrite (int16_read _ (pcm16_range x)), IH. reflexivity.
Qed.

Lemma flat_map_map {A B C} (f : B -> list C) (g : A -> B) (l : list A) :
  flat_map f (map g l) = flat_map (fun x => f (g x)) l.
Proof.
  induction l as [| x l IH]; [reflexivity |]. cbn [map flat_map]. rewrite IH. reflexivity.
Qed.

Lemma frames_encoded (abuffer : AudioBuffer) (offsets : list nat) :
  flat_map (frame abuffer) offsets
  = flat_map (fun x => bytes16 (pcm16 x))
      (flat_map (fun offset => map (fun i => getChannelData abuffer i offset)
                                   (seq 0 (numberOfChannels abuffer)))
                offsets).
Proof.
  induction offsets as [| o offsets IH]; [reflexivity |].
  cbn [flat_map]. rewrite flat_map_app, <- IH. f_equal.
  unfold frame. rewrite flat_map_map. reflexivity.
Qed.

(** X26.  Samples of the WAV file.  Read back as little-endian signed
    16-bit integers, the bytes after the header are the converted samples,
    frame by frame and channel by channel.  Every converted sample lies
    between -32768 and 32767, so that no sample wraps around when it is
    stored: inputs of 1 and more give 32767, inputs of -1 and less give
    -32768, NaN gives 0, and a non-negative input never gives a negative
    sample. *)
Theorem bufferToWave_samples (abuffer : AudioBuffer) (x : Float) (q : Q) :
  samples_of (skipn 44 (bufferToWave abuffer)) = map pcm16 (interleaved abuffer) /\
  (-32768 <= pcm16 x <= 32767)%Z /\
  ((1 <= q)%Q -> pcm16 (Finite q) = 32767%Z) /\
  ((q <= -1)%Q -> pcm16 (Finite q) = (-32768)%Z) /\
  ((0 <= q)%Q -> (0 <= pcm16 (Finite q))%Z) /\
  pcm16 PosInfinity = 32767%Z /\ pcm16 NegInfinity = (-32768)%Z /\ pcm16 NaN = 0%Z.
Proof.
  split; [| split; [apply pcm16_range | split; [| split; [| split]]]].
  - rewrite bufferToWave_unfold.
    change (skipn 44 (wave_header abuffer
                        (Z.of_nat (frameCount abuffer)
                         * Z.of_nat (numberOfChannels abuffer) * 2 + 44)
                      ++ flat_map (frame abuffer) (seq 0 (frameCount abuffer))))
      with (flat_map (frame abuffer) (seq 0 (frameCount abuffer))).
    rewrite frames_encoded. apply samples_of_encoded.
  - intros H. apply Qle_bool_iff in H. unfold pcm16, clamp. rewrite H. reflexivity.
  - intros H. unfold pcm16, clamp.
    assert (H1 : Qle_bool 1 q = false).
    { apply not_true_is_false. intros H1. apply Qle_bool_iff in H1.
      assert (Hc : (1 <= -1)%Q) by (eapply Qle_trans; eassumption).
      apply Hc. reflexivity. }
    apply Qle_bool_iff in H. rewrite H1, H. reflexivity.
  - intros H. unfold pcm16, clamp.
    destruct (Qle_bool 1 q) eqn:H1; [discriminate |].
    assert (H2 : Qle_bool q (-1) = false).
    { apply not_true_is_false. intros H2. apply Qle_bool_iff in H2.
      assert (Hc : (0 <= -1)%Q) by (eapply Qle_trans; eassumption).
      apply Hc. reflexivity. }
    rewrite H2.
    assert (H3 : Qle_bool 0 ((1 # 2) + q) = true).
    { apply Qle_bool_iff. destruct q as [n d]. unfold Qle, Qplus in *.
      cbn [Qnum Qden] in *. lia. }
    rewrite H3. cbn [negb]. destruct q as [n d].
    unfold truncate, Qmult, inject_Z. cbn [Qnum Qden].
    unfold Qle in H. cbn [Qnum Qden] in H.
    apply Z.quot_pos; lia.
  - repeat split.
Qed.

Lemma bufferToWave_layout_witness :
  uint32_at 4 (bufferToWave two_frames) = 44%Z /\
  uint32_at 40 (bufferToWave two_frames) = 8%Z.
Proof.
  exact (proj1 (proj2 (proj2 (proj2 (proj2 (bufferToWave_layout two_frames)))))
           eq_refl).
Defined.

Lemma bufferToWave_samples_witness :
  samples_of (skipn 44 (bufferToWave two_frames)) = [32767; 0; -24576; -32768]%Z /\
  pcm16 (Finite (3 # 2)) = 32767%Z.
Proof.
  split.
  - exact (proj1 (bufferToWave_samples two_frames NaN 0)).
  - apply (proj1 (proj2 (proj2 (bufferToWave_samples two_frames NaN (3 # 2))))).
    unfold Qle. cbn. lia.
Defined.

(** ** Webhook failures under the retry classifier *)

Lemma prefix_app (m a c : string) :
  prefix m a = true -> prefix m (a ++ c) = true.
Proof.
  revert a. induction m as [| x m IH]; intros a H; [apply prefix_nil |].
  destruct a as [| y a]; [discriminate H |].
  cbn [append]. rewrite prefix_cons in *.
  destruct (Ascii.eqb x y); [apply IH; exact H | discriminate H].
Qed.

Lemma includes_app_l (m a c : string) :
  includes m a = true -> includes m (a ++ c) = true.
Proof.
  induction a as [| y a IH]; cbn [includes append].
  - rewrite orb_false_r. intros H. destruct m; [| discriminate H].
    destruct c; reflexivity.
  - intros H. apply orb_true_iff in H. destruct H as [H | H].
    + change (String y (a ++ c)) with (String y a ++ c)%string.
      rewrite (prefix_app _ _ c H). reflexivity.
    + rewrite (IH H). apply orb_true_r.
Qed.

Lemma includes_app_r (m a b : string) :
  includes m b = true -> includes m (a ++ b) = true.
Proof.
  intros H. induction a as [| y a IH]; [exact H |].
  cbn [append includes]. rewrite IH. apply orb_true_r.
Qed.

Lemma marked_message_transient (m marker : string) :
  In marker quota_markers -> includes marker m = true ->
  classify (Error m) = Ok Transient.
Proof.
  intros Hin Hinc. apply classify_transient. exists (JBool true). split; [| reflexivity].
  unfold isQuotaError, Error. cbn [get lookup String.eqb Ascii.eqb Bool.eqb bind truthy].
  cbn [status_is_transient strict_eq_num strict_eq_str orb].
  assert (He : existsb (fun k => includes k m) quota_markers = true).
  { apply existsb_exists. exists marker. split; assumption. }
  destruct (negb (m =? "")%string) eqn:Hm.
  - rewrite includes_any_string, He. reflexivity.
  - exfalso. apply negb_false_iff in Hm. apply String.eqb_eq in Hm. subst m.
    unfold quota_markers in Hin. cbn [In] in Hin.
    repeat (destruct Hin as [<- | Hin]; [discriminate Hinc |]). exact Hin.
Qed.

(** X27.  Webhook failures as the retry layer sees them.  The rejection
    of [callWebhookTool] for a response that is not [ok] carries the status
    and the body in its message and has no [status] field of its own, so
    that [isQuotaError] classifies it by that text: it is Transient whenever
    the decimal status or the body contains one of the markers, as with the
    statuses 429 and 500 or a body that mentions a quota. *)
Theorem webhook_failure_classified_by_text (h : Host) (func : WebhookFunction)
    (response : Response) (marker : string) :
  ok response = false ->
  In marker quota_markers ->
  includes marker (decimal (status response)) = true \/
  includes marker (body response) = true ->
  exists e,
    callWebhookTool h func (Ok response) = Throw e /\
    get_opt e "status" = JUndefined /\
    classify e = Ok Transient.
Proof.
  intros Hok Hin Hinc.
  exists (tool_failure func ("Webhook request failed with status "
                             ++ decimal (status response) ++ ": " ++ body response)).
  split; [| split; [reflexivity |]].
  - unfold callWebhookTool, callWebhookTool_try. cbn [bind]. rewrite Hok. reflexivity.
  - unfold tool_failure. apply (marked_message_transient _ marker Hin).
    apply includes_app_r. apply includes_app_r. apply includes_app_r.
    apply includes_app_r.
    destruct Hinc as [H | H].
    + apply includes_app_l. exact H.
    + apply includes_app_r. apply includes_app_r. exact H.
Qed.

Lemma webhook_failure_classified_by_text_witness :
  exists e,
    callWebhookTool (table_host []) suggested_keywords (Ok (mkResponse false 500 ""))
    = Throw e /\
    get_opt e "status" = JUndefined /\
    classify e = Ok Transient.
Proof.
  apply (webhook_failure_classified_by_text (table_host []) suggested_keywords
           (mkResponse false 500 "") "500" eq_refl).
  - unfold quota_markers. cbn [In]. tauto.
  - left. reflexivity.
Defined.

(** ** [chatWithDraft] *)




